(** * WhatsApp chat analyzer: transcript parser and analytics

    A shallow embedding of [preprocessing.py] (the transcript parser) and of
    [helper.py] (the analytics over the parsed frame), with the properties
    the specification states about them.

    Python strings are sequences of Unicode code points: a character is a
    code point in [N], a string is a [list] of them.  The two regular
    expressions of the parser (the entry pattern of [preprocess] and the
    pattern that [strptime] builds from the format string) are written as
    syntax trees and run by one backtracking matcher that returns every way
    to match in the order Python's [re] tries them. *)

From Stdlib Require Import String Ascii.
From Stdlib Require Import List NArith ZArith Lia Bool Arith.
From Stdlib Require Import Permutation Sorted.
Import ListNotations.

(* ------------------------------------------------------------------ *)
(** ** Characters and strings *)

Definition char := N.
Definition text := list char.

(** A string literal of the development, as code points (ASCII only). *)
Definition str (s : string) : text := map N_of_ascii (list_ascii_of_string s).

Definition text_eqb (a b : text) : bool :=
  if list_eq_dec N.eq_dec a b then true else false.

Definition in_range (lo hi c : char) : bool := (lo <=? c)%N && (c <=? hi)%N.
Arguments in_range (lo hi c)%_N_scope.

(** [str.isspace] on one character, which is also what [\s] matches in a
    [str] pattern and what [str.strip()] and [str.split()] remove. *)
Definition is_space (c : char) : bool :=
  in_range 9 13 c || in_range 28 32 c || (c =? 133)%N || (c =? 160)%N
  || (c =? 5760)%N || in_range 8192 8202 c || (c =? 8232)%N || (c =? 8233)%N
  || (c =? 8239)%N || (c =? 8287)%N || (c =? 12288)%N.

(** Lower-casing of the ASCII letters.  The literals of the two patterns
    are ASCII, and no other code point folds to [a], [m] or [p], so this is
    the case folding that [re.IGNORECASE] applies to them. *)
Definition ascii_lower (c : char) : char :=
  if in_range 65 90 c then (c + 32)%N else c.

Definition NEWLINE : char := 10%N.
Definition SPACE : char := 32%N.
Definition COLON : char := 58%N.
(** U+202F, the narrow no-break space. *)
Definition NNBSP : char := 8239%N.

(* ------------------------------------------------------------------ *)
(** ** Regular expressions with Python's backtracking order *)

Module Regex.

(** One-character classes.  [CDigit] is [\d]: the decimal digits of the
  Unicode database, a table the matcher takes as a parameter. *)
Inductive cclass : Type :=
| CAny                       (* .  under re.DOTALL *)
| CLit (c : char)            (* a literal, under re.IGNORECASE *)
| CDigit                     (* \d *)
| CSpace                     (* \s *)
| CNot (c : char)            (* [^c] *)
| CRange (lo hi : char).     (* [lo-hi] *)

Inductive regex : Type :=
| Atom (c : cclass)
| Seq (r1 r2 : regex)
| Alt (r1 r2 : regex)
| Repeat (greedy : bool) (lo : nat) (hi : option nat) (c : cclass)
| Group (name : nat) (r : regex)        (* a capturing group *)
| LookAhead (r : regex)                 (* (?=r) *)
| EndOfText.                            (* \Z *)

Definition captures := list (nat * text).

Fixpoint seq_of (rs : list regex) (last : regex) : regex :=
match rs with
| [] => last
| r :: rs' => Seq r (seq_of rs' last)
end.

Section Matcher.

Variable Nd : char -> bool.

Definition cmatch (c : cclass) (x : char) : bool :=
  match c with
  | CAny => true
  | CLit a => (ascii_lower x =? ascii_lower a)%N
  | CDigit => Nd x
  | CSpace => is_space x
  | CNot a => negb (x =? a)%N
  | CRange lo hi => in_range lo hi x
  end.

(** Length of the longest prefix of [l] made of characters of [c], at
    most [cap] long. *)
Fixpoint span (c : cclass) (cap : nat) (l : text) : nat :=
  match cap, l with
  | S cap', x :: l' => if cmatch c x then S (span c cap' l') else 0
  | _, _ => 0
  end.

(** The repetition counts a quantifier tries, in order: a greedy one the
    longest first, a lazy one the shortest first. *)
Definition counts (greedy : bool) (lo : nat) (hi : option nat) (c : cclass)
           (l : text) : list nat :=
  let cap := match hi with Some h => h | None => length l end in
  let m := span c cap l in
  let up := seq lo (S m - lo) in
  if greedy then rev up else up.

(** Every match of [r] at the head of [l], most preferred first, each
    with the captures made and the text left. *)
Fixpoint run (r : regex) (caps : captures) (l : text) : list (captures * text) :=
  match r with
  | Atom c =>
      match l with
      | x :: l' => if cmatch c x then [(caps, l')] else []
      | [] => []
      end
  | Seq r1 r2 => flat_map (fun m => run r2 (fst m) (snd m)) (run r1 caps l)
  | Alt r1 r2 => run r1 caps l ++ run r2 caps l
  | Repeat g lo hi c => map (fun k => (caps, skipn k l)) (counts g lo hi c l)
  | Group n r1 =>
      map (fun m => ((n, firstn (length l - length (snd m)) l) :: fst m, snd m))
          (run r1 caps l)
  | LookAhead r1 =>
      match run r1 caps l with
      | [] => []
      | _ :: _ => [(caps, l)]
      end
  | EndOfText =>
      match l with
      | [] => [(caps, [])]
      | _ :: _ => []
      end
  end.

(** [pattern.match(l)]: the preferred match at the head of [l]. *)
Definition match_here (r : regex) (l : text) : option (captures * text) :=
  hd_error (run r [] l).

(** [pattern.findall(l)]: scan from the left; after a match resume where
    it ended, otherwise one character further. *)
Fixpoint findall_from (fuel : nat) (r : regex) (l : text) : list captures :=
  match fuel with
  | O => []
  | S fuel' =>
      let next := match l with [] => [] | _ :: l' => findall_from fuel' r l' end in
      match match_here r l with
      | Some (caps, rest) =>
          caps :: (if length rest <? length l then findall_from fuel' r rest else next)
      | None => next
      end
  end.

Definition findall (r : regex) (l : text) : list captures :=
  findall_from (S (length l)) r l.

End Matcher.

Arguments counts : simpl never.
Arguments CLit c%_N_scope.
Arguments CNot c%_N_scope.
Arguments CRange (lo hi)%_N_scope.

(** The text of a group in a match ([m[i]]), empty when it took no part. *)
Fixpoint group (n : nat) (caps : captures) : text :=
match caps with
| [] => []
| (k, t) :: caps' => if Nat.eqb k n then t else group n caps'
end.

End Regex.
Import Regex.

(* ------------------------------------------------------------------ *)
(** ** Text operations of Python's [str] *)

Fixpoint starts_with (p l : text) : bool :=
  match p, l with
  | [], _ => true
  | a :: p', b :: l' => (a =? b)%N && starts_with p' l'
  | _ :: _, [] => false
  end.

(** [p in l]. *)
Fixpoint contains (p l : text) : bool :=
  starts_with p l
  || match l with
     | [] => false
     | _ :: l' => contains p l'
     end.

(** [l.split(sep, 1)] when [sep] occurs in [l]: the text before and after
    the first occurrence; [None] when there is none. *)
Fixpoint split_once (sep l : text) : option (text * text) :=
  if starts_with sep l then Some ([], skipn (length sep) l)
  else match l with
       | [] => None
       | x :: l' =>
           match split_once sep l' with
           | Some (a, b) => Some (x :: a, b)
           | None => None
           end
       end.

Fixpoint drop_while (p : char -> bool) (l : text) : text :=
  match l with
  | [] => []
  | x :: l' => if p x then drop_while p l' else l
  end.

(** [l.strip()]. *)
Definition strip (l : text) : text :=
  rev (drop_while is_space (rev (drop_while is_space l))).

(** [l.replace(a, b)] for one-character [a] and [b]. *)
Definition replace (a b : char) (l : text) : text :=
  map (fun x => if (x =? a)%N then b else x) l.

(** [l.split()]: the maximal runs of non-space characters. *)
Fixpoint split_ws_aux (cur : text) (l : text) : list text :=
  match l with
  | [] => match cur with [] => [] | _ => [rev cur] end
  | x :: l' =>
      if is_space x
      then match cur with
           | [] => split_ws_aux [] l'
           | _ => rev cur :: split_ws_aux [] l'
           end
      else split_ws_aux (x :: cur) l'
  end.

Definition split_ws (l : text) : list text := split_ws_aux [] l.

(* ------------------------------------------------------------------ *)
(** ** Timestamps *)

Record Timestamp : Type := mkTimestamp {
  ts_year : Z; ts_month : Z; ts_day : Z; ts_hour : Z; ts_minute : Z
}.

Definition is_leap (y : Z) : bool :=
  ((y mod 4 =? 0) && negb (y mod 100 =? 0) || (y mod 400 =? 0))%Z.

Definition days_in_month (y m : Z) : Z :=
  if (m =? 2)%Z then (if is_leap y then 29 else 28)%Z
  else if ((m =? 4) || (m =? 6) || (m =? 9) || (m =? 11))%Z then 30%Z
  else 31%Z.

(** Days from 1970-01-01 to the civil date [y]-[m]-[d]. *)
Definition days_from_civil (y m d : Z) : Z :=
  let y' := (if m <=? 2 then y - 1 else y)%Z in
  let era := (y' / 400)%Z in
  let yoe := (y' - era * 400)%Z in
  let mp := ((m + 9) mod 12)%Z in
  let doy := ((153 * mp + 2) / 5 + d - 1)%Z in
  let doe := (yoe * 365 + yoe / 4 - yoe / 100 + doy)%Z in
  (era * 146097 + doe - 719468)%Z.

Definition ts_days (t : Timestamp) : Z :=
  days_from_civil (ts_year t) (ts_month t) (ts_day t).

(** Minutes from the epoch: the value a timestamp is ordered and binned by. *)
Definition ts_minutes (t : Timestamp) : Z :=
  ((ts_days t * 24 + ts_hour t) * 60 + ts_minute t)%Z.

(** [dt.dayofweek]: 0 is Monday, 6 is Sunday (1970-01-01 was a Thursday). *)
Definition weekday (t : Timestamp) : Z := ((ts_days t + 3) mod 7)%Z.

Definition days : list text :=
  [str "Monday"; str "Tuesday"; str "Wednesday"; str "Thursday";
   str "Friday"; str "Saturday"; str "Sunday"].

(** [dt.day_name()]. *)
Definition day_name (t : Timestamp) : text :=
  nth (Z.to_nat (weekday t)) days [].

Definition month_names : list text :=
  [str "January"; str "February"; str "March"; str "April"; str "May";
   str "June"; str "July"; str "August"; str "September"; str "October";
   str "November"; str "December"].

(** [dt.month_name()]. *)
Definition month_name (t : Timestamp) : text :=
  nth (Z.to_nat (ts_month t - 1)) month_names [].

(* ------------------------------------------------------------------ *)
(** ** The parser: [preprocessing.py] *)

(** One row of the frame [preprocess] returns. *)
Record Row : Type := mkRow {
  date : Timestamp;
  Sender : text;
  Message : text;
  year : Z;
  month : text;
  day : Z;
  hour : Z;
  minute : Z
}.

Definition row_of (d : Timestamp) (s t : text) : Row :=
  {| date := d; Sender := s; Message := t;
     year := ts_year d; month := month_name d; day := ts_day d;
     hour := ts_hour d; minute := ts_minute d |}.

Definition lit (s : string) : regex :=
  match str s with
  | [c] => Atom (CLit c)
  | _ => EndOfText
  end.

Definition digits (lo hi : nat) : regex := Repeat true lo (Some hi) CDigit.

(** The entry pattern, compiled with [re.IGNORECASE | re.DOTALL]:
<<
  (\d{1,2}/\d{1,2}/\d{2,4},\s\d{1,2}:\d{2}\s(?:am|pm))
  \s-\s
  ([^:]+?):
  \s
  (.+?)(?=(?:\n\d{1,2}/\d{1,2}/\d{2,4},)|\Z)
>> *)
Definition am_pm : regex := Alt (Seq (lit "a") (lit "m")) (Seq (lit "p") (lit "m")).

Definition next_date : regex :=
  seq_of [Atom (CLit NEWLINE); digits 1 2; lit "/"; digits 1 2; lit "/"; digits 2 4]
         (lit ",").

(** The body of group 1: the date, the time and the marker. *)
Definition date_time : regex :=
  seq_of [digits 1 2; lit "/"; digits 1 2; lit "/"; digits 2 4; lit ",";
          Atom CSpace; digits 1 2; lit ":"; digits 2 2; Atom CSpace]
         am_pm.

Definition pattern : regex :=
  seq_of
    [ Group 1 date_time;
      Atom CSpace; lit "-"; Atom CSpace;
      Group 2 (Repeat false 1 None (CNot COLON)); lit ":";
      Atom CSpace;
      Group 3 (Repeat false 1 None CAny) ]
    (LookAhead (Alt next_date EndOfText)).

(** The pattern [strptime] compiles (with [re.IGNORECASE]) from the format
    ['%d/%m/%y, %I:%M %p']: each directive by its entry in the table of
    [_strptime.TimeRE], a run of white space in the format as [\s+].
<<
  %d  (?P<d>3[0-1]|[1-2]\d|0[1-9]|[1-9]| [1-9])
  %m  (?P<m>1[0-2]|0[1-9]|[1-9])
  %y  (?P<y>\d\d)
  %I  (?P<I>1[0-2]|0[1-9]|[1-9])
  %M  (?P<M>[0-5]\d|\d)
  %p  (?P<p>am|pm)
>> *)
Definition rng (a b : string) : regex :=
  match str a, str b with
  | [x], [y] => Atom (CRange x y)
  | _, _ => EndOfText
  end.

Definition G_d := 1%nat.
Definition G_m := 2%nat.
Definition G_y := 3%nat.
Definition G_I := 4%nat.
Definition G_M := 5%nat.
Definition G_p := 6%nat.

Definition re_d : regex :=
  Group G_d (Alt (Seq (lit "3") (rng "0" "1"))
            (Alt (Seq (rng "1" "2") (Atom CDigit))
            (Alt (Seq (lit "0") (rng "1" "9"))
            (Alt (rng "1" "9")
                 (Seq (lit " ") (rng "1" "9")))))).

Definition re_m : regex :=
  Group G_m (Alt (Seq (lit "1") (rng "0" "2"))
            (Alt (Seq (lit "0") (rng "1" "9"))
                 (rng "1" "9"))).

Definition re_y : regex := Group G_y (Seq (Atom CDigit) (Atom CDigit)).

Definition re_I : regex :=
  Group G_I (Alt (Seq (lit "1") (rng "0" "2"))
            (Alt (Seq (lit "0") (rng "1" "9"))
                 (rng "1" "9"))).

Definition re_M : regex :=
  Group G_M (Alt (Seq (rng "0" "5") (Atom CDigit)) (Atom CDigit)).

Definition re_p : regex := Group G_p am_pm.

Definition spaces : regex := Repeat true 1 None CSpace.

Definition format_regex : regex :=
  seq_of [re_d; lit "/"; re_m; lit "/"; re_y; lit ","; spaces;
          re_I; lit ":"; re_M; spaces]
         re_p.

Definition group_notification : text := str "group_notification".
Definition separator : text := str ": ".

(** The loop of [preprocess] over one ["sender: message"] string. *)
Definition split_user_message (msg : text) : text * text :=
  if contains separator msg
  then match split_once separator msg with
       | Some (sender, txt) => (sender, txt)
       | None => (msg, [])
       end
  else (group_notification, msg).

Fixpoint all_some {A : Type} (l : list (option A)) : option (list A) :=
  match l with
  | [] => Some []
  | None :: _ => None
  | Some x :: l' =>
      match all_some l' with
      | Some xs => Some (x :: xs)
      | None => None
      end
  end.

Section Parser.

(** The Unicode database of the interpreter: the characters of category
    Nd, which [\d] matches, and the value of each as a digit, which
    [int] reads. *)
Variable Nd : char -> bool.
Variable digit_value : char -> Z.

(** [int(s)] on the text of a numeric group (white space around the
    digits is ignored). *)
Definition int_of (s : text) : Z :=
  fold_left (fun acc c => if is_space c then acc else (10 * acc + digit_value c)%Z) s 0%Z.

(** The fields of a match of [format_regex] as a timestamp; [None] is the
    [ValueError] of a day the month does not have. *)
Definition timestamp_of (found : captures) : option Timestamp :=
  let y := int_of (group G_y found) in
  let y := (if y <=? 68 then y + 2000 else y + 1900)%Z in
  let m := int_of (group G_m found) in
  let d := int_of (group G_d found) in
  let h := int_of (group G_I found) in
  let ampm := map ascii_lower (group G_p found) in
  let h :=
    if text_eqb ampm [] || text_eqb ampm (str "am")
    then (if h =? 12 then 0 else h)%Z
    else if text_eqb ampm (str "pm")
         then (if h =? 12 then h else h + 12)%Z
         else h in
  let mi := int_of (group G_M found) in
  if (d <=? days_in_month y m)%Z then Some (mkTimestamp y m d h mi) else None.

(** [pd.to_datetime(val, format='%d/%m/%y, %I:%M %p')] on one string:
    the pattern must match at the start and leave nothing unconverted. *)
Definition to_datetime (val : text) : option Timestamp :=
  match match_here Nd format_regex val with
  | Some (found, []) => timestamp_of found
  | Some (_, _ :: _) => None
  | None => None
  end.

(** [preprocess(data)]; [None] is the [ValueError] that [pd.to_datetime]
    raises. *)
Definition preprocess (data : text) : option (list Row) :=
  let data := replace NNBSP SPACE data in
  let matches := findall Nd pattern data in
  let dates := map (group 1) matches in
  let senders := map (group 2) matches in
  let msg := map (fun m => strip (group 3 m)) matches in
  let messages := map (fun st => fst st ++ separator ++ snd st) (combine senders msg) in
  match all_some (map to_datetime dates) with
  | None => None
  | Some dates' =>
      let split := map split_user_message messages in
      Some (map (fun ds => row_of (fst ds) (fst (snd ds)) (snd (snd ds)))
                (combine dates' split))
  end.

End Parser.

(** The ASCII part of the Unicode tables: the digits [0] to [9]. *)
Definition ascii_Nd (c : char) : bool := in_range 48 57 c.
Definition ascii_digit_value (c : char) : Z := (Z.of_N c - 48)%Z.

(* ------------------------------------------------------------------ *)
(** ** The analytics: [helper.py]

    A frame is the list of its rows, in order; its [Sender] and
    [Message] columns hold text and its [date] column timestamps, as in
    every frame that [preprocess] returns with a row in it and in every
    selection of rows of such a frame (also an empty one).  The frame
    [preprocess] returns for a transcript without any entry is another
    matter: its columns are made from empty lists and are not text
    columns, so the [.str] accessor is not there for them; that frame is
    not one of the model, see [text_columns].  The collaborators that
    are not part of the repository are parameters: the URL extractor,
    the emoji table, the analyzer of the count vectorizer, the text
    processing and the layout of the word cloud, the polarity of a text,
    the mean of a list of scores, and the algorithm behind
    [sort_values] and [value_counts] (pandas sorts with NumPy's
    [quicksort], which is not stable: a sorted permutation, no more, is
    assumed of it). *)

Definition MEDIA : text := str "<Media omitted>".
Definition OVERALL : text := str "Overall".

(** [filter_media(df)]. *)
Definition filter_media (df : list Row) : list Row :=
  filter (fun r => negb (contains MEDIA (Message r))
                   && negb (text_eqb (Message r) [])
                   && negb (text_eqb (Message r) (str ".")
                            || text_eqb (Message r) (str "?")))
         df.

(** Python's order on strings: lexicographic by code point. *)
Fixpoint text_cmp (a b : text) : comparison :=
  match a, b with
  | [], [] => Eq
  | [], _ :: _ => Lt
  | _ :: _, [] => Gt
  | x :: a', y :: b' =>
      match N.compare x y with
      | Eq => text_cmp a' b'
      | c => c
      end
  end.

Fixpoint insert_key (s : text) (l : list text) : list text :=
  match l with
  | [] => [s]
  | k :: l' =>
      match text_cmp s k with
      | Lt => s :: l
      | Eq => l
      | Gt => k :: insert_key s l'
      end
  end.

(** The keys of a [groupby]: each value once, in ascending order. *)
Definition sorted_keys (l : list text) : list text := fold_right insert_key [] l.

Fixpoint insert_Z (s : Z) (l : list Z) : list Z :=
  match l with
  | [] => [s]
  | k :: l' =>
      match Z.compare s k with
      | Lt => s :: l
      | Eq => l
      | Gt => k :: insert_Z s l'
      end
  end.

Definition sorted_Z (l : list Z) : list Z := fold_right insert_Z [] l.

(** The values of a list, each once, in the order of first appearance. *)
Fixpoint distinct_from {K : Type} (eqb : K -> K -> bool) (seen l : list K) : list K :=
  match l with
  | [] => []
  | x :: l' =>
      if existsb (eqb x) seen then distinct_from eqb seen l'
      else x :: distinct_from eqb (x :: seen) l'
  end.

Definition distinct {K : Type} (eqb : K -> K -> bool) (l : list K) : list K :=
  distinct_from eqb [] l.

Definition occurrences {K : Type} (eqb : K -> K -> bool) (k : K) (l : list K) : nat :=
  length (filter (eqb k) l).

(** The table of a pivot: row labels, column labels, cells by row. *)
Record Pivot : Type := mkPivot {
  index : list Z;
  columns : list text;
  cells : list (list nat)
}.

(** A sort by count, largest first, that keeps rows of equal count in
    their order (by insertion): one algorithm with the property
    [sorts_desc] below.  It is not the algorithm of pandas, whose order
    among equal counts is another; it stands for the sort only where the
    statement holds for any algorithm with [sorts_desc], or in an example
    whose rows pandas orders the same way. *)
Fixpoint insert_desc {K : Type} (x : K * nat) (l : list (K * nat)) : list (K * nat) :=
  match l with
  | [] => [x]
  | y :: l' => if snd y <=? snd x then x :: l else y :: insert_desc x l'
  end.

Definition stable_sort_desc (K : Type) (l : list (K * nat)) : list (K * nat) :=
  fold_right insert_desc [] l.

Definition descending {K : Type} (l : list (K * nat)) : Prop :=
  StronglySorted (fun a b => snd b <= snd a) l.

Definition sorts_desc (sort : forall K : Type, list (K * nat) -> list (K * nat)) : Prop :=
  forall K (l : list (K * nat)), Permutation (sort K l) l /\ descending (sort K l).

(** The share of [count] in [total] as hundredths of a percent, rounded
    to the nearest, a half upwards: one formatting with the property
    [prints_share] below.  It is not the arithmetic of Python, which
    formats the binary value of [count / total * 100] and rounds a half
    to the even digit (1 of 32 prints as 3.12, here 313); it stands for
    the formatting only in examples where no half occurs. *)
Definition exact_percent_2f (count total : nat) : Z :=
  ((20000 * Z.of_nat count + Z.of_nat total) / (2 * Z.of_nat total))%Z.

(** What is assumed of the floating-point computation and formatting of a
    share: the printed value is within 0.01 of the exact share. *)
Definition prints_share (percent_2f : nat -> nat -> Z) : Prop :=
  forall count total, 0 < total -> count <= total ->
    (Z.abs (percent_2f count total * Z.of_nat total - 10000 * Z.of_nat count)
     < Z.of_nat total)%Z.

Section Helper.

Variable find_urls : text -> list text.
Variable is_emoji : char -> bool.
Variable sort_desc : forall K : Type, list (K * nat) -> list (K * nat).
Variable percent_2f : nat -> nat -> Z.
Variable analyze : text -> list text.
Variable score : Type.
Variable polarity : text -> score.
Variable mean : list score -> score.
Variable cloud : Type.
Variable process_text : text -> list (text * nat).
Variable layout : list (text * nat) -> cloud.

Definition is_media (r : Row) : bool := contains MEDIA (Message r).

(** [df[df['Sender'] == selected_user]], the whole frame for "Overall". *)
Definition scope (selected_user : text) (df : list Row) : list Row :=
  if text_eqb selected_user OVERALL then df
  else filter (fun r => text_eqb (Sender r) selected_user) df.

(** [fetch_stats(selected_user, df)]: messages, words, media, emojis,
    links. *)
Definition fetch_stats (selected_user : text) (df : list Row)
  : nat * nat * nat * nat * nat :=
  let subset := scope selected_user df in
  let total_messages := length subset in
  let total_media := length (filter is_media subset) in
  let text_df := filter_media subset in
  let total_words := list_sum (map (fun r => length (split_ws (Message r))) text_df) in
  let total_emojis :=
    list_sum (map (fun r => length (filter is_emoji (Message r))) text_df) in
  let y := flat_map (fun r => find_urls (Message r)) df in
  (total_messages, total_words, total_media, total_emojis, length y).

(** [df.groupby('Sender').size()]: the senders in ascending order, each
    with the number of its rows. *)
Definition size_by_sender (df : list Row) : list (text * nat) :=
  map (fun s => (s, length (filter (fun r => text_eqb (Sender r) s) df)))
      (sorted_keys (map Sender df)).

(** [messages_per_user(df)]. *)
Definition messages_per_user (df : list Row) : list (text * nat) :=
  let text_df := filter_media df in
  firstn 10 (sort_desc _ (size_by_sender text_df)).

(** [s.value_counts()]: each value with its count, sorted by count. *)
Definition value_counts {K : Type} (eqb : K -> K -> bool) (l : list K) : list (K * nat) :=
  sort_desc _ (map (fun k => (k, occurrences eqb k l)) (distinct eqb l)).

(** [avg_msg_per_user(df)]: each sender with its share, in hundredths
    of a percent (the string shown is that number with two decimals and
    a percent sign). *)
Definition avg_msg_per_user (df : list Row) : list (text * Z) :=
  let total_messages := length df in
  let counts := value_counts text_eqb (map Sender df) in
  map (fun sc => (fst sc, percent_2f (snd sc) total_messages)) counts.

(** [activity_heatmap(df)]: the count of every (weekday, hour) pair that
    occurs, pivoted with the hours that occur as rows, in ascending
    order, and the weekdays that occur as columns; [fillna(0)] fills the
    pairs that do not occur.  The column labels are the level of a
    categorical with the categories [days]: when every weekday occurs
    they are [days], in that order; when some weekday does not occur,
    [pivot] drops the unused categories and keeps the others in the order
    in which they first appear in [heat], and [groupby] has sorted
    [heat] by the name of the weekday. *)
Definition activity_heatmap (df : list Row) : Pivot :=
  let text_df := filter_media df in
  let hours := sorted_Z (map (fun r => ts_hour (date r)) text_df) in
  let weekdays := map (fun r => day_name (date r)) text_df in
  let cols := if forallb (fun d => existsb (text_eqb d) weekdays) days
              then days
              else sorted_keys weekdays in
  mkPivot hours cols
    (map (fun h =>
            map (fun d =>
                   length (filter (fun r => (ts_hour (date r) =? h)%Z
                                            && text_eqb (day_name (date r)) d)
                                  text_df))
                cols)
         hours).

Definition min_list (l : list Z) (d : Z) : Z := fold_right Z.min d l.
Definition max_list (l : list Z) (d : Z) : Z := fold_right Z.max d l.

(** [resample] on a frame indexed by date: the bins of [width] units
    from the one of the first row to the one of the last, each with its
    rows.  [unit_of] is the day (or month) number of a timestamp. *)
Definition resample (unit_of : Timestamp -> Z) (width : Z) (df : list Row)
  : list (Z * list Row) :=
  match df with
  | [] => []
  | r0 :: _ =>
      let units := map (fun r => unit_of (date r)) df in
      let first := min_list units (unit_of (date r0)) in
      let last := max_list units (unit_of (date r0)) in
      map (fun k =>
             let lo := (first + width * Z.of_nat k)%Z in
             (lo, filter (fun r => (lo <=? unit_of (date r))%Z
                                   && (unit_of (date r) <? lo + width)%Z) df))
          (seq 0 (S (Z.to_nat ((last - first) / width))))
  end.

(** [daily_volume(df)]: a row per calendar day (days from the epoch). *)
Definition daily_volume (df : list Row) : list (Z * nat) :=
  map (fun b => (fst b, length (snd b))) (resample ts_days 1 (filter_media df)).

Definition ts_months (t : Timestamp) : Z := (ts_year t * 12 + (ts_month t - 1))%Z.

(** [monthly_volume(df)]: a row per calendar month (months from year 0). *)
Definition monthly_volume (df : list Row) : list (Z * nat) :=
  map (fun b => (fst b, length (snd b))) (resample ts_months 1 (filter_media df)).

Definition term_counts (terms : list text) : list (text * nat) :=
  map (fun t => (t, occurrences text_eqb t terms)) (sorted_keys terms).

(** [top_n_words(df, n)]; [None] is a [ValueError]: the one of
    [CountVectorizer] for a [max_features] that is not positive, or the
    one of [fit_transform] on an empty vocabulary. *)
Definition top_n_words (df : list Row) (n : nat) : option (list (text * nat)) :=
  let text_df := filter_media df in
  let terms := flat_map (fun r => analyze (Message r)) text_df in
  match n, terms with
  | O, _ => None
  | _, [] => None
  | S _, _ :: _ =>
      let vocabulary := term_counts terms in
      let kept := firstn n (sort_desc _ vocabulary) in
      Some (filter (fun tc => existsb (fun k => text_eqb (fst k) (fst tc)) kept)
                   vocabulary)
  end.

Fixpoint join (sep : text) (l : list text) : text :=
  match l with
  | [] => []
  | [x] => x
  | x :: l' => x ++ sep ++ join sep l'
  end.

(** [generate_wordcloud(df)]; [None] is the [ValueError] of
    [WordCloud.generate] on a text without words. *)
Definition generate_wordcloud (df : list Row) : option cloud :=
  let txt := join [SPACE] (map Message (filter_media df)) in
  match process_text txt with
  | [] => None
  | freqs => Some (layout freqs)
  end.

(** [message_type_counts(df)]. *)
Definition message_type_counts (df : list Row) : nat * nat * nat :=
  let media := length (filter is_media df) in
  let links := length (filter (fun r => contains (str "http") (Message r)) df) in
  let text_msgs := length df - media in
  (text_msgs, media, links).

(** [sentiment_time_series(df)] with the window of 7 days: a row per
    window, with the mean polarity of its messages, [None] (NaN) for a
    window without messages. *)
Definition sentiment_time_series (df : list Row) : list (Z * option score) :=
  let text_df := filter_media df in
  map (fun b =>
         (fst b,
          match snd b with
          | [] => None
          | rows => Some (mean (map (fun r => polarity (Message r)) rows))
          end))
      (resample ts_days 7 text_df).

(** [top_emojis(df, n)]. *)
Definition top_emojis (df : list Row) (n : nat) : list (char * nat) :=
  let text_df := filter_media df in
  let all_ems := flat_map (fun r => filter is_emoji (Message r)) text_df in
  firstn n (value_counts N.eqb all_ems).

End Helper.

(* ------------------------------------------------------------------ *)
(** ** Definitions for the statements and the proofs *)

(** What the development assumes of the table of decimal digits: no
    digit is white space, and the ASCII digits are [0] to [9]. *)
Definition decimal_table (Nd : char -> bool) : Prop :=
  forall c, Nd c = true ->
    is_space c = false /\ ((c < 128)%N -> in_range 48 57 c = true).

(* ------------------------------------------------------------------ *)
(** ** The entry pattern as a scanner

    Each quantifier of the entry pattern is followed by something that
    cannot start with a character of its class, so the pattern has at most
    one way to match up to the message text, and the message text ends at
    the first place where the look-ahead holds.  [entry_at] is that scan,
    written as a function; [match_here_pattern] below proves that it is
    what the matcher computes on [pattern]. *)

Inductive step : Type :=
| One (c : cclass)
| Many (lo hi : nat) (c : cclass).

Definition step_re (s : step) : regex :=
  match s with
  | One c => Atom c
  | Many lo hi c => Repeat true lo (Some hi) c
  end.

Definition date_steps : list step :=
  [Many 1 2 CDigit; One (CLit 47); Many 1 2 CDigit; One (CLit 47);
   Many 2 4 CDigit; One (CLit 44)].

Definition time_steps : list step :=
  [One CSpace; Many 1 2 CDigit; One (CLit 58); Many 2 2 CDigit; One CSpace].

Section EntryScanner.

Variable Nd : char -> bool.

Fixpoint steps_run (ss : list step) (l : text) : option text :=
  match ss with
  | [] => Some l
  | One c :: ss' =>
      match l with
      | x :: l' => if cmatch Nd c x then steps_run ss' l' else None
      | [] => None
      end
  | Many lo hi c :: ss' =>
      let m := span Nd c hi l in
      if lo <=? m then steps_run ss' (skipn m l) else None
  end.

(** [(?:am|pm)] under [re.IGNORECASE]. *)
Definition marker_at (l : text) : option text :=
  match l with
  | x :: y :: l' =>
      if ((ascii_lower x =? 97)%N || (ascii_lower x =? 112)%N)
         && (ascii_lower y =? 109)%N
      then Some l' else None
  | _ => None
  end.

(** Group 1: the date and time with the marker. *)
Definition datetime_prefix (l : text) : option text :=
  match steps_run (date_steps ++ time_steps) l with
  | Some r => marker_at r
  | None => None
  end.

(** The first alternative of the look-ahead: a new line and a date. *)
Definition entry_start (l : text) : bool :=
  match steps_run (One (CLit NEWLINE) :: date_steps) l with
  | Some _ => true
  | None => false
  end.

(** The text up to the first place where the look-ahead holds (the end
    of the text at the latest), and the text from there on. *)
Fixpoint body_end (l : text) : text * text :=
  match l with
  | [] => ([], [])
  | x :: l' =>
      if entry_start l then ([], l)
      else let br := body_end l' in (x :: fst br, snd br)
  end.

Definition entry_at (l : text) : option (captures * text) :=
  match datetime_prefix l with
  | None => None
  | Some r1 =>
      match steps_run [One CSpace; One (CLit 45); One CSpace] r1 with
      | None => None
      | Some r2 =>
          let m := span Nd (CNot COLON) (length r2) r2 in
          if 1 <=? m then
            match steps_run [One (CLit 58); One CSpace] (skipn m r2) with
            | None => None
            | Some [] => None
            | Some (x :: r4) =>
                let br := body_end r4 in
                Some ([(3, x :: fst br); (2, firstn m r2);
                       (1, firstn (length l - length r1) l)], snd br)
            end
          else None
      end
  end.

(** [c]-characters cannot start a match of [r]. *)
Definition rejects (c : cclass) (r : regex) : Prop :=
  forall caps x l, cmatch Nd c x = true -> run Nd r caps (x :: l) = [].

Fixpoint delimited (ss : list step) (last : regex) : Prop :=
  match ss with
  | [] => True
  | One _ :: ss' => delimited ss' last
  | Many _ _ c :: ss' =>
      rejects c (seq_of (map step_re ss') last) /\ delimited ss' last
  end.

End EntryScanner.

(** Every quantifier of the list is followed by a one-character step. *)
Fixpoint anchored (ss : list step) : bool :=
  match ss with
  | [] => true
  | One _ :: ss' => anchored ss'
  | Many _ _ _ :: ss' =>
      match ss' with
      | One _ :: _ => anchored ss'
      | _ => false
      end
  end.

(* ------------------------------------------------------------------ *)
(** ** Synthetic transcripts *)

(** One entry of a transcript as it is written: the date and time with
    the marker, the sender and the message text. *)
Record Entry : Type := mkEntry {
  e_time : text;
  e_sender : text;
  e_body : text
}.

Definition render_entry (e : Entry) : text :=
  e_time e ++ str " - " ++ e_sender e ++ separator ++ e_body e.

(** The entries one per line. *)
Fixpoint render (es : list Entry) : text :=
  match es with
  | [] => []
  | e :: es' =>
      match es' with
      | [] => render_entry e
      | _ :: _ => render_entry e ++ NEWLINE :: render es'
      end
  end.

Definition is_nil {A : Type} (l : list A) : bool :=
  match l with [] => true | _ :: _ => false end.

Definition is_some {A : Type} (o : option A) : bool :=
  match o with Some _ => true | None => false end.

Definition no_char (c : char) (l : text) : bool :=
  forallb (fun x => negb (x =? c)%N) l.

Section WellFormed.

Variable Nd : char -> bool.
Variable digit_value : char -> Z.

(** [re.fullmatch]. *)
Definition fullmatch (r : regex) (l : text) : bool :=
  existsb (fun m => is_nil (snd m)) (run Nd r [] l).

(** The date and time are written in the fixed format: the text is what
    group 1 of the entry pattern matches, and the format string reads
    it. *)
Definition time_ok (t : text) : bool :=
  fullmatch date_time t && is_some (to_datetime Nd digit_value t).

Definition sender_ok (s : text) : bool :=
  negb (is_nil s) && no_char COLON s && no_char NNBSP s.

(** The message text is not empty, has no white space at its ends, and
    no line of it after the first character starts with a date. *)
Definition body_ok (b : text) : bool :=
  negb (is_nil b) && text_eqb (strip b) b && no_char NNBSP b
  && forallb (fun k => negb (is_some (match_here Nd next_date (skipn k b))))
             (seq 1 (length b - 1)).

Definition well_formed (e : Entry) : bool :=
  time_ok (replace NNBSP SPACE (e_time e)) && sender_ok (e_sender e)
  && body_ok (e_body e).

End WellFormed.

(** [pattern.finditer]: the matches of [findall] with the offset at which
    each starts. *)
Fixpoint finditer_from (Nd : char -> bool) (fuel pos : nat) (r : regex) (l : text)
  : list (nat * captures) :=
  match fuel with
  | O => []
  | S fuel' =>
      let next := match l with
                  | [] => []
                  | _ :: l' => finditer_from Nd fuel' (S pos) r l'
                  end in
      match match_here Nd r l with
      | Some (caps, rest) =>
          (pos, caps)
          :: (if length rest <? length l
              then finditer_from Nd fuel' (pos + (length l - length rest)) r rest
              else next)
      | None => next
      end
  end.

Definition finditer (Nd : char -> bool) (r : regex) (l : text) : list (nat * captures) :=
  finditer_from Nd (S (length l)) 0 r l.

Definition caps_of (e : Entry) : captures :=
  [(3, e_body e); (2, e_sender e); (1, e_time e)].

Definition entry_wf (Nd : char -> bool) (e : Entry) : Prop :=
  datetime_prefix Nd (e_time e) = Some []
  /\ e_sender e <> [] /\ no_char COLON (e_sender e) = true
  /\ e_body e <> []
  /\ (forall k, 1 <= k < length (e_body e) -> entry_start Nd (skipn k (e_body e)) = false).

(** The entry as the parser sees it: U+202F in the date and time replaced
    by a space. *)
Definition normal (e : Entry) : Entry :=
  mkEntry (replace NNBSP SPACE (e_time e)) (e_sender e) (e_body e).

Definition epoch : Timestamp := mkTimestamp 1970 1 1 0 0.

(** The row a well-formed entry is read as. *)
Definition row_of_entry (Nd : char -> bool) (digit_value : char -> Z) (e : Entry) : Row :=
  row_of match to_datetime Nd digit_value (replace NNBSP SPACE (e_time e)) with
         | Some t => t
         | None => epoch
         end
         (e_sender e) (e_body e).

(** The ["sender: message"] string that [preprocess] builds from a match. *)
Definition user_message (m : captures) : text :=
  group 2 m ++ separator ++ strip (group 3 m).

(** What the rows of [preprocess] are computed from. *)
Definition key (Nd : char -> bool) (digit_value : char -> Z) (m : captures)
  : option Timestamp * text :=
  (to_datetime Nd digit_value (group 1 m), user_message m).

(** Two characters that differ at most in letter case. *)
Definition ci (x y : char) : Prop := ascii_lower x = ascii_lower y.

(** Classes that do not tell an upper-case letter from its lower case. *)
Definition caseless (c : cclass) : bool :=
  match c with
  | CNot a => negb (in_range 65 90 a || in_range 97 122 a)
  | CRange lo hi => (hi <? 65)%N || (122 <? lo)%N
  | _ => true
  end.

Fixpoint caseless_re (r : regex) : bool :=
  match r with
  | Atom c => caseless c
  | Seq r1 r2 | Alt r1 r2 => caseless_re r1 && caseless_re r2
  | Repeat _ _ _ c => caseless c
  | Group _ r1 | LookAhead r1 => caseless_re r1
  | EndOfText => true
  end.

(** [l] and [l'] are the same text but for the letter case of their last
    [n] characters. *)
Definition alike (n : nat) (l l' : text) : Prop :=
  Forall2 ci l l' /\ firstn (length l - n) l = firstn (length l - n) l'.

(** Two results of the matcher on alike texts: what is left is alike,
    and the captures are the same when the match stayed out of the
    part where the texts differ. *)
Definition rel (n : nat) (m m' : captures * text) : Prop :=
  alike n (snd m) (snd m') /\ (n <= length (snd m) -> fst m = fst m').

Definition format_prefix : regex :=
  seq_of [re_d; lit "/"; re_m; lit "/"; re_y; lit ","; spaces; re_I; lit ":"; re_M]
         spaces.


Definition url_count (stats : nat * nat * nat * nat * nat) : nat := snd stats.

Definition sumZ (l : list Z) : Z := fold_right Z.add 0%Z l.

Definition in_window (lo : Z) (r : Row) : Prop :=
  (lo <= ts_days (date r) < lo + 7)%Z.

(** Frames and transcripts the statements are tried on. *)
Definition monday_10 : Timestamp := mkTimestamp 2023 1 2 10 0.


Definition sample_entries : list Entry :=
  [ mkEntry (str "1/1/23, 10:00 am") (str "Alice") (str "Hello");
    mkEntry (str "1/1/23, 10:05" ++ NNBSP :: str "PM") (str "Bob")
            (str "two
lines");
    mkEntry (str "28/2/23, 12:06 am") (str "Alice") (str "?") ].

Definition bob_then_alice : list Row :=
  [ row_of monday_10 (str "Bob") (str "hi");
    row_of monday_10 (str "Alice") (str "yo") ].

Definition three_rows : list Row :=
  [ row_of monday_10 (str "Alice") (str "one");
    row_of monday_10 (str "Bob") (str "<Media omitted>");
    row_of monday_10 (str "Alice") (str "two") ].

Definition far_apart : list Row :=
  [ row_of (mkTimestamp 2023 1 1 10 0) (str "Alice") (str "good");
    row_of (mkTimestamp 2023 1 20 9 30) (str "Bob") (str "fine") ].

Definition media_only : list Row :=
  [ row_of monday_10 (str "Bob") (str "<Media omitted>") ].

Definition words_of (t : text) : list (text * nat) :=
  map (fun w => (w, 1)) (split_ws t).

(* ------------------------------------------------------------------ *)
(** ** The selection of [app.py] and more definitions for statements *)

(** The columns [Sender] and [Message] of the frame [preprocess] returns
    hold text when the frame has a row (lines 43 and 44 assign Python
    lists of [str]); made from empty lists they hold none, and the
    helpers, which all go through [.str], are not defined on that
    frame. *)
Definition text_columns (df : list Row) : bool := negb (is_nil df).

(** The choices of the sender box of [app.py]:
    [['Overall'] + sorted(df['Sender'].unique().tolist())]. *)
Definition users (df : list Row) : list text :=
  OVERALL :: sorted_keys (map Sender df).

(** The five numbers of [fetch_stats]. *)
Definition total_messages (st : nat * nat * nat * nat * nat) : nat := fst (fst (fst (fst st))).
Definition total_words (st : nat * nat * nat * nat * nat) : nat := snd (fst (fst (fst st))).
Definition total_media (st : nat * nat * nat * nat * nat) : nat := snd (fst (fst st)).
Definition total_emojis (st : nat * nat * nat * nat * nat) : nat := snd (fst st).

(** The three numbers of [message_type_counts]. *)
Definition text_count (c : nat * nat * nat) : nat := fst (fst c).
Definition media_count (c : nat * nat * nat) : nat := snd (fst c).
Definition link_count (c : nat * nat * nat) : nat := snd c.

Definition text_lt (a b : text) : Prop := text_cmp a b = Lt.

(** What the development assumes of the digit values of the Unicode
    database: a decimal digit has a value from 0 to 9, and the ASCII
    digits have their own. *)
Definition digit_values (Nd : char -> bool) (digit_value : char -> Z) : Prop :=
  (forall c, Nd c = true -> (0 <= digit_value c <= 9)%Z)
  /\ (forall c, in_range 48 57 c = true -> digit_value c = (Z.of_N c - 48)%Z).

(** A timestamp of the calendar, in the years that [%y] can give. *)
Definition valid_timestamp (t : Timestamp) : Prop :=
  (1969 <= ts_year t <= 2068)%Z
  /\ (1 <= ts_month t <= 12)%Z
  /\ (1 <= ts_day t <= days_in_month (ts_year t) (ts_month t))%Z
  /\ (0 <= ts_hour t < 24)%Z
  /\ (0 <= ts_minute t < 60)%Z.

(** A digit that reads as a number between [lo] and [hi]. *)
Definition reads (Nd : char -> bool) (digit_value : char -> Z) (lo hi : Z) (x : char)
  : Prop :=
  is_space x = false /\ (lo <= digit_value x <= hi)%Z
  /\ (Nd x = true \/ in_range 48 57 x = true).

(** The text of a numeric field of a date and time: one or two
    characters, digits or a space, that [int] reads as a number between
    [lo] and [hi]. *)
Definition field (Nd : char -> bool) (digit_value : char -> Z) (lo hi : Z) (t : text)
  : Prop :=
  (lo <= int_of digit_value t <= hi)%Z
  /\ Forall (fun x => x = SPACE \/ Nd x = true \/ in_range 48 57 x = true) t
  /\ 1 <= length t <= 2.

(** A run of white space. *)
Definition blank (sp : text) : bool := negb (is_nil sp) && forallb is_space sp.

(** The marker [am] or [pm], in any letter case. *)
Definition is_marker (t : text) : bool :=
  text_eqb (map ascii_lower t) (str "am") || text_eqb (map ascii_lower t) (str "pm").

(** The year of [%y]: 69 to 99 are 1969 to 1999, 0 to 68 are 2000 to 2068. *)
Definition year_of (y : Z) : Z := (if y <=? 68 then y + 2000 else y + 1900)%Z.

(** The hour of the 24-hour clock from the hour of the 12-hour clock and
    the marker. *)
Definition hour_24 (h : Z) (marker : text) : Z :=
  (h mod 12 + (if text_eqb (map ascii_lower marker) (str "pm") then 12 else 0))%Z.

(** The text after the dash of a line, cut at its first colon into [s]
    and [rest], is no message: there is no colon, or no sender before
    it, or no white space and then a text after it. *)
Definition no_message (s rest : text) : bool :=
  match rest with
  | [] => true
  | _ :: rest' =>
      is_nil s
      || match rest' with
         | [] => true
         | x :: t => negb (is_space x) || is_nil t
         end
  end.

(** [rest] is empty or starts with a colon. *)
Definition at_colon (rest : text) : bool :=
  match rest with
  | [] => true
  | c :: _ => (c =? COLON)%N
  end.

(** A message text of one of the kinds [filter_media] drops besides the
    media messages: empty, ["."] or ["?"]. *)
Definition is_trivial (r : Row) : bool :=
  text_eqb (Message r) [] || text_eqb (Message r) (str ".") || text_eqb (Message r) (str "?").

(** The words chart of [app.py]:
    [helper.top_n_words(df_sel).sort_values('count', ascending=False).head(20)];
    [sort_vec] is the order behind [max_features], [sort_values] the one
    of the frame. *)
Definition top_20 (sort_vec sort_values : forall K : Type, list (K * nat) -> list (K * nat))
           (analyze : text -> list text) (df_sel : list Row) : option (list (text * nat)) :=
  match top_n_words sort_vec analyze df_sel 20 with
  | Some topw => Some (firstn 20 (sort_values _ topw))
  | None => None
  end.

(** The test of the [k]-th bin of [resample]. *)
Definition in_bin (first width : Z) (u : Z) (k : nat) : bool :=
  ((first + width * Z.of_nat k <=? u) && (u <? first + width * Z.of_nat k + width))%Z.

(** A series with one row per unit of time (day or month) from the one
    of the earliest row of [text_df] to the one of the latest, each with
    the number of the rows of that unit. *)
Definition one_row_per_unit (unit_of : Timestamp -> Z) (text_df : list Row)
           (rows : list (Z * nat)) : Prop :=
  (text_df = [] -> rows = [])
  /\ (text_df <> [] ->
      exists first last,
        In first (map (fun r => unit_of (date r)) text_df)
        /\ In last (map (fun r => unit_of (date r)) text_df)
        /\ (forall r, In r text_df -> (first <= unit_of (date r) <= last)%Z)
        /\ map fst rows
           = map (fun i => (first + Z.of_nat i)%Z) (seq 0 (S (Z.to_nat (last - first))))
        /\ (forall d c, In (d, c) rows ->
              c = length (filter (fun r => (unit_of (date r) =? d)%Z) text_df))).

(* ------------------------------------------------------------------ *)
(** ** Facts about the matcher *)

Lemma text_eqb_eq a b : text_eqb a b = true <-> a = b.
Proof. unfold text_eqb. destruct (list_eq_dec N.eq_dec a b); split; congruence. Qed.

Lemma text_eqb_refl a : text_eqb a a = true.
Proof. now apply text_eqb_eq. Qed.

Lemma flat_map_nil_all {A B : Type} (f : A -> list B) (l : list A) :
  (forall x, In x l -> f x = []) -> flat_map f l = [].
Proof.
  induction l as [|a l IH]; simpl; intros H; [reflexivity|].
  rewrite (H a) by now left. apply IH. intros x Hx. apply H. now right.
Qed.

Lemma flat_map_map {A B C : Type} (g : A -> B) (f : B -> list C) (l : list A) :
  flat_map f (map g l) = flat_map (fun x => f (g x)) l.
Proof. induction l as [|a l IH]; simpl; [reflexivity|]. now rewrite IH. Qed.

Lemma map_flat_map {A B C : Type} (f : A -> list B) (g : B -> C) (l : list A) :
  map g (flat_map f l) = flat_map (fun x => map g (f x)) l.
Proof. induction l as [|a l IH]; simpl; [reflexivity|]. now rewrite map_app, IH. Qed.

(** A continuation that fails everywhere but at [m] sees only [m]. *)
Lemma flat_map_only {B : Type} (F : nat -> list B) (m : nat) (ks : list nat) :
  NoDup ks -> (forall k, In k ks -> k <> m -> F k = []) ->
  flat_map F ks = if in_dec Nat.eq_dec m ks then F m else [].
Proof.
  induction ks as [|k ks IH]; intros Hnd Hf; simpl; [reflexivity|].
  inversion Hnd as [|? ? Hk Hnd']; subst.
  destruct (Nat.eq_dec k m) as [->|Hkm].
  - rewrite flat_map_nil_all, app_nil_r; [reflexivity|].
    intros x Hx. apply Hf; [now right|]. intros ->. contradiction.
  - rewrite (Hf k) by (auto; now left). simpl.
    rewrite IH by (auto; intros; apply Hf; auto; now right).
    destruct (in_dec Nat.eq_dec m ks) as [Hin|Hin]; [reflexivity|reflexivity].
Qed.

Section MatcherFacts.

Variable Nd : char -> bool.

Lemma span_le c cap l : span Nd c cap l <= cap /\ span Nd c cap l <= length l.
Proof.
  revert l; induction cap as [|cap IH]; intros [|x l]; simpl; try lia.
  destruct (cmatch Nd c x); simpl; [|lia]. specialize (IH l). lia.
Qed.

(** Inside the span every character is of the class. *)
Lemma span_inside c cap l k :
  k < span Nd c cap l -> exists x l', skipn k l = x :: l' /\ cmatch Nd c x = true.
Proof.
  revert l k; induction cap as [|cap IH]; intros [|x l] k; simpl; try lia.
  destruct (cmatch Nd c x) eqn:E; [|lia].
  destruct k as [|k]; simpl; [eauto|]. intros H. apply IH. lia.
Qed.

Lemma counts_NoDup g lo hi c l : NoDup (counts Nd g lo hi c l).
Proof.
  unfold counts. destruct g; [apply NoDup_rev|]; apply seq_NoDup.
Qed.

Lemma counts_In g lo hi c l k :
  In k (counts Nd g lo hi c l) <->
  lo <= k <= span Nd c (match hi with Some h => h | None => length l end) l.
Proof.
  unfold counts. destruct g; [rewrite <- in_rev|]; rewrite in_seq; lia.
Qed.

(** A quantifier whose continuation cannot start with a character of its
    class has one way to match: the whole run of such characters. *)
Lemma flat_map_counts {B : Type} (F : nat -> list B) g lo hi c l :
  let m := span Nd c (match hi with Some h => h | None => length l end) l in
  (forall k, k < m -> F k = []) ->
  flat_map F (counts Nd g lo hi c l) = if lo <=? m then F m else [].
Proof.
  intros m HF.
  rewrite (@flat_map_only _ F m) by
    (try apply counts_NoDup; intros k Hk Hne; apply HF; apply counts_In in Hk; fold m in Hk; lia).
  destruct (in_dec Nat.eq_dec m (counts Nd g lo hi c l)) as [Hin|Hin];
    rewrite counts_In in Hin; fold m in Hin; destruct (Nat.leb_spec lo m); auto; lia.
Qed.

(** What [run] leaves is a suffix of what it was given. *)
Lemma run_suffix r : forall caps l m,
  In m (run Nd r caps l) -> exists pre, l = pre ++ snd m.
Proof.
  induction r as [c|r1 IH1 r2 IH2|r1 IH1 r2 IH2|g lo hi c|n r1 IH1|r1 IH1|];
    intros caps l m; simpl.
  - destruct l as [|x l]; [intros []|]. destruct (cmatch Nd c x); [|intros []].
    intros [<-|[]]. now exists [x].
  - rewrite in_flat_map. intros [m1 [H1 H2]].
    apply IH1 in H1 as [p1 ->]. apply IH2 in H2 as [p2 E]. rewrite E.
    exists (p1 ++ p2). now rewrite app_assoc.
  - rewrite in_app_iff. intros [H|H]; eauto.
  - rewrite in_map_iff. intros [k [<- _]]. simpl. exists (firstn k l).
    now rewrite firstn_skipn.
  - rewrite in_map_iff. intros [m1 [<- H]]. simpl. eauto.
  - destruct (run Nd r1 caps l); [intros []|]. intros [<-|[]]. now exists [].
  - destruct l; [|intros []]. intros [<-|[]]. now exists [].
Qed.

Lemma run_length r caps l m : In m (run Nd r caps l) -> length (snd m) <= length l.
Proof.
  intros H. apply run_suffix in H as [pre ->]. rewrite length_app. lia.
Qed.

(** The captures of a match are put on top of those it started with. *)
Lemma run_caps r : forall caps l,
  run Nd r caps l = map (fun m => (fst m ++ caps, snd m)) (run Nd r [] l).
Proof.
  induction r as [c|r1 IH1 r2 IH2|r1 IH1 r2 IH2|g lo hi c|n r1 IH1|r1 IH1|];
    intros caps l; simpl.
  - destruct l as [|x l]; [reflexivity|]. now destruct (cmatch Nd c x).
  - rewrite (IH1 caps), flat_map_map, map_flat_map. simpl.
    apply flat_map_ext. intros m.
    rewrite (IH2 (fst m ++ caps)), (IH2 (fst m)), map_map. simpl.
    apply map_ext. intros m'. now rewrite app_assoc.
  - now rewrite map_app, <- IH1, <- IH2.
  - rewrite map_map. reflexivity.
  - rewrite (IH1 caps), !map_map. reflexivity.
  - rewrite (IH1 caps). destruct (run Nd r1 [] l); reflexivity.
  - destruct l; reflexivity.
Qed.

End MatcherFacts.

(* ------------------------------------------------------------------ *)
(** ** Facts about the entry scanner *)

Section EntryScan.

Variable Nd : char -> bool.

Lemma steps_sound ss last : delimited Nd ss last -> forall caps l,
  run Nd (seq_of (map step_re ss) last) caps l =
  match steps_run Nd ss l with
  | Some l' => run Nd last caps l'
  | None => []
  end.
Proof.
  induction ss as [|[c|lo hi c] ss IH]; simpl; intros Hd caps l.
  - reflexivity.
  - destruct l as [|x l]; [reflexivity|].
    destruct (cmatch Nd c x); [|reflexivity]. simpl. rewrite app_nil_r. now apply IH.
  - destruct Hd as [Hr Hd]. rewrite flat_map_map. simpl.
    rewrite (flat_map_counts Nd (fun k => run Nd (seq_of (map step_re ss) last) caps (skipn k l))).
    + destruct (lo <=? span Nd c hi l); [now apply IH|reflexivity].
    + intros k Hk. apply span_inside in Hk as [x [l' [-> Hx]]]. now apply Hr.
Qed.

Lemma steps_run_app ss1 ss2 l :
  steps_run Nd (ss1 ++ ss2) l =
  match steps_run Nd ss1 l with
  | Some r => steps_run Nd ss2 r
  | None => None
  end.
Proof.
  revert l; induction ss1 as [|[c|lo hi c] ss1 IH]; simpl; intros l.
  - reflexivity.
  - destruct l as [|x l]; [reflexivity|]. destruct (cmatch Nd c x); auto.
  - destruct (lo <=? span Nd c hi l); auto.
Qed.

Lemma steps_run_suffix ss : forall l r, steps_run Nd ss l = Some r -> exists pre, l = pre ++ r.
Proof.
  induction ss as [|[c|lo hi c] ss IH]; simpl; intros l r H.
  - inversion H. now exists [].
  - destruct l as [|x l]; [discriminate|]. destruct (cmatch Nd c x); [|discriminate].
    apply IH in H as [pre ->]. now exists (x :: pre).
  - destruct (lo <=? span Nd c hi l); [|discriminate].
    apply IH in H as [pre E]. exists (firstn (span Nd c hi l) l ++ pre).
    rewrite <- app_assoc, <- E. now rewrite firstn_skipn.
Qed.

Lemma rejects_atom c q :
  (forall x, cmatch Nd c x = true -> cmatch Nd q x = false) -> rejects Nd c (Atom q).
Proof. intros H caps x l Hx. simpl. now rewrite (H x Hx). Qed.

Lemma rejects_seq_atom c q r :
  (forall x, cmatch Nd c x = true -> cmatch Nd q x = false) -> rejects Nd c (Seq (Atom q) r).
Proof. intros H caps x l Hx. simpl. now rewrite (H x Hx). Qed.

End EntryScan.

Ltac char_cases :=
  repeat match goal with
  | |- context [N.leb ?a ?b] => destruct (N.leb_spec a b); simpl; try lia
  | |- context [N.eqb ?a ?b] => destruct (N.eqb_spec a b); simpl; try lia
  | |- context [N.ltb ?a ?b] => destruct (N.ltb_spec a b); simpl; try lia
  | H : context [N.leb ?a ?b] |- _ => destruct (N.leb_spec a b); simpl in H; try lia
  | H : context [N.eqb ?a ?b] |- _ => destruct (N.eqb_spec a b); simpl in H; try lia
  | H : context [N.ltb ?a ?b] |- _ => destruct (N.ltb_spec a b); simpl in H; try lia
  end; try congruence; try reflexivity.

Ltac char_solve :=
  char_cases; cbn in *; try lia; try congruence; try discriminate; try reflexivity.

Lemma ascii_lower_fix (x : char) : in_range 65 90 x = false -> ascii_lower x = x.
Proof. unfold ascii_lower. now intros ->. Qed.

Section PatternScan.

Variable Nd : char -> bool.
Hypothesis Nd_ok : decimal_table Nd.

Lemma digit_not_space x : Nd x = true -> is_space x = false.
Proof. intros H. now destruct (Nd_ok x H). Qed.

(** A digit is none of the ASCII characters outside [0]..[9]. *)
Lemma digit_not_ascii x a :
  Nd x = true -> (a < 128)%N -> in_range 48 57 a = false -> x <> a.
Proof.
  intros H Ha Hr ->. destruct (Nd_ok a H) as [_ H2]. rewrite (H2 Ha) in Hr. discriminate.
Qed.

Lemma digit_lower x : Nd x = true -> ascii_lower x = x.
Proof.
  intros H. apply ascii_lower_fix. destruct (Nd_ok x H) as [_ H2].
  unfold in_range in *. destruct (N.ltb_spec x 128) as [Hlt|Hge].
  - specialize (H2 Hlt). char_cases.
  - char_cases.
Qed.

Lemma digit_not_lit x a :
  Nd x = true -> (ascii_lower a < 128)%N -> in_range 48 57 (ascii_lower a) = false ->
  cmatch Nd (CLit a) x = false.
Proof.
  intros H Ha Hr. simpl. rewrite (digit_lower x H).
  apply N.eqb_neq. now apply digit_not_ascii.
Qed.

Lemma rejects_digit_lit a r :
  (ascii_lower a < 128)%N -> in_range 48 57 (ascii_lower a) = false ->
  rejects Nd CDigit (Seq (Atom (CLit a)) r).
Proof. intros Ha Hr. apply rejects_seq_atom. intros x Hx. now apply digit_not_lit. Qed.

Lemma rejects_digit_space r : rejects Nd CDigit (Seq (Atom CSpace) r).
Proof. apply rejects_seq_atom. intros x Hx. now apply digit_not_space. Qed.

Lemma delimited_datetime last :
  delimited Nd (date_steps ++ time_steps) last.
Proof.
  simpl. repeat split;
    first [ apply rejects_digit_space | apply rejects_digit_lit; [reflexivity|reflexivity] ].
Qed.

Lemma run_am_pm caps l :
  run Nd am_pm caps l =
  match marker_at l with
  | Some r => [(caps, r)]
  | None => []
  end.
Proof.
  destruct l as [|x [|y l]]; cbn.
  - reflexivity.
  - destruct (ascii_lower x =? 97)%N, (ascii_lower x =? 112)%N; reflexivity.
  - change (ascii_lower 97%N) with 97%N. change (ascii_lower 112%N) with 112%N.
    change (ascii_lower 109%N) with 109%N.
    destruct (N.eqb_spec (ascii_lower x) 97) as [E|E];
      destruct (N.eqb_spec (ascii_lower x) 112) as [E'|E'];
      try (rewrite E in E'; discriminate);
      cbn; destruct (ascii_lower y =? 109)%N; reflexivity.
Qed.

Lemma run_datetime caps l :
  run Nd (seq_of (map step_re (date_steps ++ time_steps)) am_pm) caps l =
  match datetime_prefix Nd l with
  | Some r => [(caps, r)]
  | None => []
  end.
Proof.
  rewrite steps_sound by apply delimited_datetime.
  unfold datetime_prefix.
  destruct (steps_run Nd (date_steps ++ time_steps) l); [apply run_am_pm|reflexivity].
Qed.

Lemma run_next_date caps l :
  run Nd next_date caps l =
  if entry_start Nd l then
    match steps_run Nd (One (CLit NEWLINE) :: date_steps) l with
    | Some r => [(caps, r)]
    | None => []
    end
  else [].
Proof.
  change next_date with
    (seq_of (map step_re [One (CLit NEWLINE); Many 1 2 CDigit; One (CLit 47);
                          Many 1 2 CDigit; One (CLit 47); Many 2 4 CDigit])
            (Atom (CLit 44))).
  rewrite steps_sound.
  - unfold entry_start.
    change (One (CLit NEWLINE) :: date_steps) with
      ([One (CLit NEWLINE); Many 1 2 CDigit; One (CLit 47);
        Many 1 2 CDigit; One (CLit 47); Many 2 4 CDigit] ++ [One (CLit 44)]).
    rewrite steps_run_app.
    destruct (steps_run Nd _ l) as [r|]; [|reflexivity].
    simpl. destruct r as [|x r]; [reflexivity|].
    destruct (ascii_lower x =? ascii_lower 44%N)%N; reflexivity.
  - simpl. repeat split;
      first [ apply rejects_digit_lit; [reflexivity|reflexivity]
            | apply rejects_atom; intros x Hx; apply digit_not_lit; auto; reflexivity ].
Qed.

(** The look-ahead holds at an entry start and at the end of the text. *)
Lemma run_lookahead caps l :
  run Nd (LookAhead (Alt next_date EndOfText)) caps l =
  if entry_start Nd l || match l with [] => true | _ => false end
  then [(caps, l)] else [].
Proof.
  cbn [run]. rewrite run_next_date.
  unfold entry_start.
  destruct (steps_run Nd (One (CLit NEWLINE) :: date_steps) l) as [r|]; cbn [orb app].
  - reflexivity.
  - destruct l; reflexivity.
Qed.

End PatternScan.

Section PatternEntry.

Variable Nd : char -> bool.
Hypothesis Nd_ok : decimal_table Nd.

Lemma span_any l : span Nd CAny (length l) l = length l.
Proof. induction l as [|x l IH]; simpl; [reflexivity|]. now rewrite IH. Qed.

Lemma body_end_app l : fst (body_end Nd l) ++ snd (body_end Nd l) = l.
Proof.
  induction l as [|x l IH]; [reflexivity|]. cbn [body_end].
  destruct (entry_start Nd (x :: l)); simpl; [reflexivity|]. now rewrite IH.
Qed.

(** The lazy [(.+?)] before the look-ahead: the shortest text, of one
    character at least, after which the look-ahead holds. *)
Lemma body_scan s : forall pre caps,
  hd_error
    (flat_map
       (fun k => run Nd (LookAhead (Alt next_date EndOfText))
                   ((3, firstn (length (pre ++ s) - length (skipn k (pre ++ s))) (pre ++ s))
                      :: caps)
                   (skipn k (pre ++ s)))
       (seq (length pre) (S (length s)))) =
  Some ((3, pre ++ fst (body_end Nd s)) :: caps, snd (body_end Nd s)).
Proof.
  induction s as [|x s IH]; intros pre caps.
  - cbn [length seq flat_map]. rewrite run_lookahead by assumption.
    rewrite !app_nil_r, skipn_all. cbn. now rewrite Nat.sub_0_r, firstn_all.
  - change (seq (length pre) (S (length (x :: s))))
      with (length pre :: seq (S (length pre)) (S (length s))).
    cbn [flat_map]. rewrite run_lookahead by assumption.
    assert (E : skipn (length pre) (pre ++ x :: s) = x :: s).
    { rewrite skipn_app, skipn_all, Nat.sub_diag. reflexivity. }
    rewrite E. cbn [body_end]. rewrite orb_false_r.
    destruct (entry_start Nd (x :: s)).
    + cbn. rewrite length_app. cbn [length].
      replace (length pre + S (length s) - S (length s)) with (length pre) by lia.
      rewrite firstn_app, firstn_all, Nat.sub_diag. cbn. now rewrite !app_nil_r.
    + cbn [app fst snd].
      specialize (IH (pre ++ [x]) caps).
      replace ((pre ++ [x]) ++ s) with (pre ++ x :: s) in IH
        by (now rewrite <- app_assoc).
      replace (length (pre ++ [x])) with (S (length pre)) in IH
        by (rewrite length_app; simpl; lia).
      rewrite <- app_assoc in IH. exact IH.
Qed.

Lemma run_body caps l :
  hd_error (run Nd (Seq (Group 3 (Repeat false 1 None CAny))
                        (LookAhead (Alt next_date EndOfText))) caps l) =
  match l with
  | [] => None
  | x :: l' => Some ((3, x :: fst (body_end Nd l')) :: caps, snd (body_end Nd l'))
  end.
Proof.
  cbn [run]. rewrite !flat_map_map. cbn [fst snd].
  unfold counts. rewrite span_any.
  destruct l as [|x l'].
  - reflexivity.
  - cbn [length]. replace (S (S (length l')) - 1) with (S (length l')) by lia.
    exact (body_scan l' [x] caps).
Qed.

Lemma pattern_unfold :
  pattern =
  Seq (Group 1 (seq_of (map step_re (date_steps ++ time_steps)) am_pm))
      (seq_of (map step_re [One CSpace; One (CLit 45); One CSpace])
         (Seq (Group 2 (Repeat false 1 None (CNot COLON)))
            (seq_of (map step_re [One (CLit 58); One CSpace])
               (Seq (Group 3 (Repeat false 1 None CAny))
                    (LookAhead (Alt next_date EndOfText)))))).
Proof. reflexivity. Qed.

(** The sender: everything up to the first colon. *)
Lemma run_sender r caps l :
  run Nd (Seq (Group 2 (Repeat false 1 None (CNot COLON)))
              (Seq (Atom (CLit 58)) r)) caps l =
  let m := span Nd (CNot COLON) (length l) l in
  if 1 <=? m
  then run Nd (Seq (Atom (CLit 58)) r) ((2, firstn m l) :: caps) (skipn m l)
  else [].
Proof.
  cbn zeta. cbn [run]. rewrite !flat_map_map. cbn [fst snd].
  rewrite (flat_map_counts Nd
    (fun k => flat_map (fun m => run Nd r (fst m) (snd m))
       match skipn k l with
       | [] => []
       | x :: l' =>
           if cmatch Nd (CLit 58) x
           then [((2, firstn (length l - length (skipn k l)) l) :: caps, l')]
           else []
       end)).
  - destruct (1 <=? span Nd (CNot COLON) (length l) l); [|reflexivity].
    rewrite length_skipn.
    replace (length l - (length l - span Nd (CNot COLON) (length l) l))
      with (span Nd (CNot COLON) (length l) l)
      by (pose proof (span_le Nd (CNot COLON) (length l) l); lia).
    reflexivity.
  - intros k Hk. apply span_inside in Hk as [x [l' [-> Hx]]].
    replace (cmatch Nd (CLit 58) x) with false; [reflexivity|].
    simpl in Hx. simpl. unfold COLON in Hx.
    destruct (N.eqb_spec x 58) as [->|Hne]; [discriminate|].
    symmetry. apply N.eqb_neq. change (ascii_lower 58%N) with 58%N.
    unfold ascii_lower, in_range. char_cases.
Qed.

(** The matcher on the entry pattern is the scan [entry_at]. *)
Lemma match_here_pattern l : match_here Nd pattern l = entry_at Nd l.
Proof.
  unfold match_here, entry_at. rewrite pattern_unfold.
  match goal with |- context [Seq (Group 1 _) ?R] => set (rest := R) end.
  cbn [run]. rewrite run_datetime by assumption.
  destruct (datetime_prefix Nd l) as [r1|]; [|reflexivity].
  cbn [map flat_map fst snd]. rewrite app_nil_r.
  subst rest. rewrite steps_sound by exact I.
  destruct (steps_run Nd [One CSpace; One (CLit 45); One CSpace] r1) as [r2|];
    [|reflexivity].
  match goal with |- context [seq_of (map step_re [One (CLit 58); One CSpace]) ?R] =>
    change (seq_of (map step_re [One (CLit 58); One CSpace]) R)
      with (Seq (Atom (CLit 58)) (Seq (Atom CSpace) R))
  end.
  rewrite run_sender. cbn zeta.
  destruct (1 <=? span Nd (CNot COLON) (length r2) r2); [|reflexivity].
  match goal with |- context [Seq (Atom (CLit 58)) (Seq (Atom CSpace) ?R)] =>
    change (Seq (Atom (CLit 58)) (Seq (Atom CSpace) R))
      with (seq_of (map step_re [One (CLit 58); One CSpace]) R)
  end.
  rewrite steps_sound by exact I.
  destruct (steps_run Nd [One (CLit 58); One CSpace] _) as [r3|]; [|reflexivity].
  rewrite run_body. destruct r3; reflexivity.
Qed.

End PatternEntry.

(* ------------------------------------------------------------------ *)
(** ** Facts about the scan *)

Section ScanFacts.

Variable Nd : char -> bool.
Variable r : regex.

Lemma findall_fuel : forall fuel1 fuel2 l,
  length l < fuel1 -> length l < fuel2 ->
  findall_from Nd fuel1 r l = findall_from Nd fuel2 r l.
Proof.
  induction fuel1 as [|f1 IH]; intros [|f2] l H1 H2; try lia.
  cbn [findall_from].
  assert (Hn : match l with [] => [] | _ :: l' => findall_from Nd f1 r l' end =
               match l with [] => [] | _ :: l' => findall_from Nd f2 r l' end).
  { destruct l as [|x l']; [reflexivity|]. simpl in *. apply IH; lia. }
  destruct (match_here Nd r l) as [[caps rest]|]; [|exact Hn].
  destruct (Nat.ltb_spec (length rest) (length l)); [|now rewrite Hn].
  f_equal. apply IH; lia.
Qed.

Lemma findall_from_S fuel l :
  findall_from Nd (S fuel) r l =
  let next := match l with [] => [] | _ :: l' => findall_from Nd fuel r l' end in
  match match_here Nd r l with
  | Some (caps, rest) =>
      caps :: (if length rest <? length l then findall_from Nd fuel r rest else next)
  | None => next
  end.
Proof. reflexivity. Qed.

Lemma findall_nil : findall Nd r [] =
  match match_here Nd r [] with Some (caps, _) => [caps] | None => [] end.
Proof.
  unfold findall. cbn [length findall_from].
  destruct (match_here Nd r []) as [[caps rest]|]; [|reflexivity].
  destruct (length rest <? 0); [destruct rest|]; reflexivity.
Qed.

Lemma findall_skip x l :
  match_here Nd r (x :: l) = None -> findall Nd r (x :: l) = findall Nd r l.
Proof.
  intros H. unfold findall. cbn [length findall_from]. rewrite H.
  reflexivity.
Qed.

Lemma findall_match l caps rest :
  match_here Nd r l = Some (caps, rest) -> length rest < length l ->
  findall Nd r l = caps :: findall Nd r rest.
Proof.
  intros H Hlt. unfold findall. rewrite findall_from_S. cbn zeta. rewrite H.
  destruct (Nat.ltb_spec (length rest) (length l)); [|lia].
  f_equal. apply findall_fuel; lia.
Qed.

End ScanFacts.

Section ScanExtension.

Variable Nd : char -> bool.

Lemma span_app_inside c cap l t :
  span Nd c cap l < length l -> span Nd c cap (l ++ t) = span Nd c cap l.
Proof.
  revert l; induction cap as [|cap IH]; intros [|x l]; simpl; try lia; try reflexivity.
  destruct (cmatch Nd c x); [|reflexivity]. intros H. f_equal. apply IH. lia.
Qed.

Lemma span_app_stop c cap s x t :
  cmatch Nd c x = false -> span Nd c cap (s ++ x :: t) = span Nd c cap s.
Proof.
  intros Hx. revert s; induction cap as [|cap IH]; intros [|y s]; simpl; try reflexivity.
  - now rewrite Hx.
  - destruct (cmatch Nd c y); [|reflexivity]. f_equal. apply IH.
Qed.

Lemma span_all c s cap :
  forallb (cmatch Nd c) s = true -> length s <= cap -> span Nd c cap s = length s.
Proof.
  revert cap; induction s as [|y s IH]; intros [|cap]; simpl; try lia; try reflexivity.
  rewrite andb_true_iff. intros [-> H] Hle. f_equal. apply IH; [assumption|lia].
Qed.

(** More text after a successful anchored scan changes nothing. *)
Lemma steps_run_ext ss : anchored ss = true -> forall l r t,
  steps_run Nd ss l = Some r -> steps_run Nd ss (l ++ t) = Some (r ++ t).
Proof.
  induction ss as [|[c|lo hi c] ss IH]; intros Ha l r t; cbn [steps_run].
  - intros E. now inversion E.
  - destruct l as [|x l]; [discriminate|]. cbn [app].
    destruct (cmatch Nd c x); [|discriminate]. now apply IH.
  - cbn [anchored] in Ha. destruct ss as [|[q|? ? ?] ss']; try discriminate.
    destruct (lo <=? span Nd c hi l) eqn:Elo; [|discriminate].
    intros E.
    assert (Hin : span Nd c hi l < length l).
    { cbn [steps_run] in E.
      destruct (skipn (span Nd c hi l) l) as [|y l'] eqn:Es; [discriminate|].
      assert (length (skipn (span Nd c hi l) l) = S (length l')) by now rewrite Es.
      rewrite length_skipn in H. lia. }
    rewrite span_app_inside by assumption. rewrite Elo.
    rewrite skipn_app.
    replace (span Nd c hi l - length l) with 0 by lia. cbn [skipn].
    now apply IH.
Qed.

(** A failed scan stays failed when the text goes on with a character
    that no step accepts. *)
Lemma steps_run_ext_fail ss x : Forall (fun s =>
    match s with One c | Many _ _ c => cmatch Nd c x = false end) ss ->
  forall l t, steps_run Nd ss l = None -> steps_run Nd ss (l ++ x :: t) = None.
Proof.
  induction ss as [|[c|lo hi c] ss IH]; intros Hx l t; cbn [steps_run].
  - discriminate.
  - inversion Hx as [|? ? Hc Hss]; subst.
    destruct l as [|y l]; cbn [app].
    + now rewrite Hc.
    + destruct (cmatch Nd c y); [|reflexivity]. now apply IH.
  - inversion Hx as [|? ? Hc Hss]; subst.
    rewrite span_app_stop by assumption.
    destruct (lo <=? span Nd c hi l); [|reflexivity].
    rewrite skipn_app.
    replace (span Nd c hi l - length l) with 0
      by (pose proof (span_le Nd c hi l); lia).
    cbn [skipn]. now apply IH.
Qed.

Lemma marker_at_ext l t : marker_at l = Some [] -> marker_at (l ++ t) = Some t.
Proof.
  destruct l as [|x [|y l]]; try discriminate. cbn.
  destruct (_ && _); [|discriminate]. intros E. now inversion E.
Qed.

Lemma datetime_prefix_ext l t :
  datetime_prefix Nd l = Some [] -> datetime_prefix Nd (l ++ t) = Some t.
Proof.
  unfold datetime_prefix.
  destruct (steps_run Nd (date_steps ++ time_steps) l) as [r|] eqn:E; [|discriminate].
  intros Hm. rewrite (steps_run_ext (date_steps ++ time_steps) eq_refl l r t E).
  now apply marker_at_ext.
Qed.

(** A text that group 1 matches starts with a date. *)
Lemma datetime_prefix_date l t :
  datetime_prefix Nd l = Some [] -> exists r, steps_run Nd date_steps (l ++ t) = Some r.
Proof.
  unfold datetime_prefix. rewrite steps_run_app.
  destruct (steps_run Nd date_steps l) as [r|] eqn:E; [|discriminate].
  intros _. exists (r ++ t). now apply (steps_run_ext date_steps eq_refl).
Qed.

End ScanExtension.

(* ------------------------------------------------------------------ *)
(** ** Facts about the text operations *)

Lemma separator_eq : separator = [COLON; SPACE].
Proof. reflexivity. Qed.

Lemma starts_with_sep l :
  starts_with separator l = true <-> exists t, l = COLON :: SPACE :: t.
Proof.
  rewrite separator_eq. cbn [starts_with].
  destruct l as [|x [|y l]].
  - split; [discriminate|]. intros [t E]. discriminate.
  - rewrite andb_false_r. split; [discriminate|]. intros [t E]. discriminate.
  - rewrite andb_true_r, andb_true_iff, !N.eqb_eq. split.
    + intros [<- <-]. now exists l.
    + intros [t E]. inversion E. auto.
Qed.

Lemma split_once_sep l : forall a b,
  split_once separator l = Some (a, b) ->
  l = a ++ separator ++ b /\ contains separator (a ++ [COLON]) = false.
Proof.
  induction l as [|x l IH]; intros a b; cbn [split_once].
  - destruct (starts_with separator []) eqn:Es; [|discriminate].
    apply starts_with_sep in Es as [t E]. discriminate.
  - destruct (starts_with separator (x :: l)) eqn:Es.
    + intros E. apply starts_with_sep in Es as [t Et]. inversion Et; subst.
      inversion E; subst. split; reflexivity.
    + destruct (split_once separator l) as [[a' b']|]; [|discriminate].
      intros E. inversion E; subst. destruct (IH a' b eq_refl) as [-> Hc].
      split; [reflexivity|].
      cbn [app contains]. rewrite Hc, orb_false_r.
      destruct (starts_with separator (x :: a' ++ [COLON])) eqn:Es'; [|reflexivity].
      apply starts_with_sep in Es' as [t Et]. rewrite <- Es. symmetry.
      apply starts_with_sep.
      destruct a' as [|y a']; inversion Et; subst.
      rewrite separator_eq. cbn. eauto.
Qed.

Lemma split_once_contains l :
  contains separator l = match split_once separator l with Some _ => true | None => false end.
Proof.
  induction l as [|x l IH].
  - cbn [contains split_once]. destruct (starts_with separator []); reflexivity.
  - cbn [contains split_once]. destruct (starts_with separator (x :: l)); [reflexivity|].
    cbn [orb]. rewrite IH. now destruct (split_once separator l) as [[? ?]|].
Qed.

Lemma split_once_first s t :
  no_char COLON s = true -> split_once separator (s ++ separator ++ t) = Some (s, t).
Proof.
  induction s as [|x s IH]; cbn [no_char forallb]; intros H.
  - reflexivity.
  - apply andb_true_iff in H as [Hx Hs]. cbn [app split_once].
    destruct (starts_with separator (x :: s ++ separator ++ t)) eqn:Es.
    + apply starts_with_sep in Es as [u E]. inversion E; subst.
      now rewrite N.eqb_refl in Hx.
    + now rewrite (IH Hs).
Qed.

Lemma split_user_message_first s t :
  no_char COLON s = true -> split_user_message (s ++ separator ++ t) = (s, t).
Proof.
  intros H. unfold split_user_message.
  now rewrite split_once_contains, (split_once_first s t H).
Qed.

Lemma replace_app a b l1 l2 : replace a b (l1 ++ l2) = replace a b l1 ++ replace a b l2.
Proof. apply map_app. Qed.

Lemma replace_id a b l : no_char a l = true -> replace a b l = l.
Proof.
  induction l as [|x l IH]; [reflexivity|].
  cbn [no_char forallb replace map]. rewrite andb_true_iff. intros [Hx Hl].
  fold (replace a b l). rewrite (IH Hl).
  now destruct (x =? a)%N.
Qed.

Lemma combine_map {A B C : Type} (f : A -> B) (g : A -> C) (l : list A) :
  combine (map f l) (map g l) = map (fun x => (f x, g x)) l.
Proof. induction l as [|x l IH]; cbn; [reflexivity|]. now rewrite IH. Qed.

Lemma all_some_map {A B : Type} (f : A -> option B) (g : A -> B) (l : list A) :
  (forall x, In x l -> f x = Some (g x)) -> all_some (map f l) = Some (map g l).
Proof.
  induction l as [|x l IH]; cbn; intros H; [reflexivity|].
  rewrite (H x) by now left. rewrite IH by (intros; apply H; now right). reflexivity.
Qed.

Lemma all_some_length {A : Type} (l : list (option A)) : forall xs,
  all_some l = Some xs -> length xs = length l.
Proof.
  induction l as [|[x|] l IH]; cbn; intros xs E; try discriminate.
  - now inversion E.
  - destruct (all_some l) as [ys|]; [|discriminate]. inversion E; subst.
    cbn. f_equal. now apply IH.
Qed.

Lemma all_some_none {A : Type} (l : list (option A)) :
  all_some l = None <-> Exists (fun o => o = None) l.
Proof.
  induction l as [|[x|] l IH]; cbn.
  - split; [discriminate|]. intros H. inversion H.
  - destruct (all_some l) as [ys|].
    + split; [discriminate|]. intros H. inversion H as [? ? E|? ? E]; subst;
        [discriminate|]. apply IH in E. discriminate.
    + split; [|reflexivity]. intros _. right. now apply IH.
  - split; [|reflexivity]. intros _. now left.
Qed.

(* ------------------------------------------------------------------ *)
(** ** The scan of a synthetic transcript *)

Section RenderScan.

Variable Nd : char -> bool.
Hypothesis Nd_ok : decimal_table Nd.

Lemma Nd_newline : Nd NEWLINE = false.
Proof.
  destruct (Nd NEWLINE) eqn:E; [|reflexivity].
  destruct (Nd_ok NEWLINE E) as [H _]. discriminate.
Qed.

Lemma match_here_next_date l :
  is_some (match_here Nd next_date l) = entry_start Nd l.
Proof.
  unfold match_here. rewrite run_next_date by assumption.
  unfold entry_start.
  destruct (steps_run Nd (One (CLit NEWLINE) :: date_steps) l); reflexivity.
Qed.

Lemma fullmatch_date_time t :
  fullmatch Nd date_time t = true -> datetime_prefix Nd t = Some [].
Proof.
  unfold fullmatch.
  change date_time with (seq_of (map step_re (date_steps ++ time_steps)) am_pm).
  rewrite run_datetime by assumption.
  destruct (datetime_prefix Nd t) as [[|x r]|]; cbn; try discriminate. reflexivity.
Qed.

(** The look-ahead does not reach across a line end into what follows. *)
Lemma entry_start_ext s tail :
  s <> [] -> entry_start Nd s = false ->
  tail = [] \/ (exists t, tail = NEWLINE :: t) ->
  entry_start Nd (s ++ tail) = false.
Proof.
  intros Hs Hf [->|[t ->]]; [now rewrite app_nil_r|].
  destruct s as [|y s]; [contradiction|].
  unfold entry_start in *. cbn [steps_run app] in *.
  destruct (cmatch Nd (CLit NEWLINE) y); [|reflexivity].
  destruct (steps_run Nd date_steps s) as [r|] eqn:E; [discriminate|].
  rewrite (steps_run_ext_fail Nd date_steps NEWLINE); [reflexivity| |exact E].
  pose proof Nd_newline as Hn.
  unfold date_steps. repeat constructor; try exact Hn; reflexivity.
Qed.

Lemma entry_start_newline l r :
  steps_run Nd date_steps l = Some r -> entry_start Nd (NEWLINE :: l) = true.
Proof.
  intros E. unfold entry_start. cbn [steps_run].
  change (cmatch Nd (CLit NEWLINE) NEWLINE) with true. cbn iota. now rewrite E.
Qed.

Lemma body_end_render b tail :
  (forall k, k < length b -> entry_start Nd (skipn k b ++ tail) = false) ->
  tail = [] \/ entry_start Nd tail = true ->
  body_end Nd (b ++ tail) = (b, tail).
Proof.
  intros Hb Ht. induction b as [|y b IH].
  - cbn [app]. destruct tail as [|z tail]; [reflexivity|].
    destruct Ht as [Ht|Ht]; [discriminate|]. cbn [body_end]. now rewrite Ht.
  - cbn [app body_end].
    assert (H0 : entry_start Nd (skipn 0 (y :: b) ++ tail) = false)
      by (apply Hb; cbn; lia).
    cbn [skipn app] in H0. rewrite H0. rewrite IH; [reflexivity|].
    intros k Hk. apply (Hb (S k)). cbn. lia.
Qed.

(** An entry in the fixed format, followed by the end of the text or by
    a new line and a date, is matched whole. *)
Lemma entry_at_render e tail :
  datetime_prefix Nd (e_time e) = Some [] ->
  e_sender e <> [] -> no_char COLON (e_sender e) = true ->
  e_body e <> [] ->
  (forall k, 1 <= k < length (e_body e) ->
             entry_start Nd (skipn k (e_body e)) = false) ->
  tail = [] \/ (exists t, tail = NEWLINE :: t /\ entry_start Nd tail = true) ->
  entry_at Nd (render_entry e ++ tail) = Some (caps_of e, tail).
Proof.
  intros Ht Hs Hc Hb Hk Htail.
  destruct e as [tm sd bd]. cbn [e_time e_sender e_body] in *.
  unfold render_entry, caps_of. cbn [e_time e_sender e_body].
  unfold entry_at. rewrite <- !app_assoc.
  rewrite (datetime_prefix_ext Nd tm _ Ht).
  change (str " - ") with [SPACE; 45%N; SPACE]. cbn [app steps_run].
  change (cmatch Nd CSpace SPACE) with true.
  change (cmatch Nd (CLit 45) 45%N) with true. cbn iota.
  rewrite separator_eq. cbn [app].
  assert (Hspan : span Nd (CNot COLON)
                    (length (sd ++ COLON :: SPACE :: bd ++ tail))
                    (sd ++ COLON :: SPACE :: bd ++ tail) = length sd).
  { rewrite span_app_stop by reflexivity.
    apply span_all; [exact Hc|]. rewrite length_app. lia. }
  rewrite Hspan.
  destruct (Nat.leb_spec 1 (length sd)) as [_|Hlen];
    [|destruct sd; [contradiction|cbn [length] in Hlen; lia]].
  rewrite skipn_app, skipn_all, firstn_app, firstn_all, Nat.sub_diag.
  cbn [app skipn firstn steps_run].
  change (cmatch Nd (CLit 58) COLON) with true.
  change (cmatch Nd CSpace SPACE) with true. cbn iota.
  destruct bd as [|b0 bd]; [contradiction|]. cbn [app].
  rewrite body_end_render.
  - cbn [fst snd]. rewrite app_nil_r. repeat f_equal.
    rewrite !length_app. cbn [length]. rewrite !length_app. cbn [length].
    match goal with |- firstn ?n _ = _ => replace n with (length tm) by lia end.
    now rewrite firstn_app, firstn_all, Nat.sub_diag, app_nil_r.
  - intros k Hlt. apply entry_start_ext.
    + intros E. assert (length (skipn k bd) = 0) by now rewrite E.
      rewrite length_skipn in H. lia.
    + apply (Hk (S k)). cbn [length]. lia.
    + destruct Htail as [->|[t [-> _]]]; eauto.
  - destruct Htail as [->|[t [-> H]]]; auto.
Qed.

End RenderScan.

Section RenderFindall.

Variable Nd : char -> bool.
Hypothesis Nd_ok : decimal_table Nd.

Lemma render_starts e es : exists X, render (e :: es) = e_time e ++ X.
Proof.
  destruct es as [|e2 es]; cbn [render]; unfold render_entry;
    rewrite <- ?app_assoc; eauto.
Qed.

Lemma render_entry_length e : 0 < length (render_entry e).
Proof.
  unfold render_entry. rewrite !length_app.
  change (length (str " - ")) with 3. lia.
Qed.

Lemma entry_at_newline l : entry_at Nd (NEWLINE :: l) = None.
Proof.
  unfold entry_at, datetime_prefix. cbn [date_steps app steps_run span].
  cbn [cmatch]. now rewrite (Nd_newline Nd Nd_ok).
Qed.

Lemma findall_render es :
  Forall (entry_wf Nd) es -> findall Nd pattern (render es) = map caps_of es.
Proof.
  induction es as [|e es IH]; intros Hwf.
  - cbn [render map]. rewrite findall_nil, match_here_pattern by assumption.
    reflexivity.
  - inversion Hwf as [|? ? [Ht [Hs [Hc [Hb Hk]]]] Hes]; subst.
    destruct es as [|e2 es].
    + cbn [render map].
      rewrite (findall_match Nd pattern (render_entry e) (caps_of e) []).
      * now rewrite findall_nil, match_here_pattern by assumption.
      * rewrite match_here_pattern by assumption.
        rewrite <- (app_nil_r (render_entry e)).
        apply entry_at_render; auto.
      * apply render_entry_length.
    + change (render (e :: e2 :: es))
        with (render_entry e ++ NEWLINE :: render (e2 :: es)).
      rewrite (findall_match Nd pattern _ (caps_of e) (NEWLINE :: render (e2 :: es))).
      * rewrite findall_skip
          by (rewrite match_here_pattern by assumption; apply entry_at_newline).
        cbn [map]. f_equal. now apply IH.
      * rewrite match_here_pattern by assumption.
        apply entry_at_render; auto.
        right. eexists. split; [reflexivity|].
        destruct (render_starts e2 es) as [X ->].
        inversion Hes as [|? ? [Ht2 _] _]; subst.
        destruct (datetime_prefix_date Nd (e_time e2) X Ht2) as [r Hr].
        now apply (entry_start_newline Nd _ r).
      * rewrite length_app. pose proof (render_entry_length e). lia.
Qed.

Lemma replace_render es :
  Forall (fun e => no_char NNBSP (e_sender e) = true /\ no_char NNBSP (e_body e) = true) es ->
  replace NNBSP SPACE (render es) = render (map normal es).
Proof.
  induction es as [|e es IH]; intros H; [reflexivity|].
  inversion H as [|? ? [Hs Hb] Hes]; subst.
  assert (He : replace NNBSP SPACE (render_entry e) = render_entry (normal e)).
  { unfold render_entry. rewrite !replace_app.
    rewrite (replace_id NNBSP SPACE (e_sender e) Hs).
    rewrite (replace_id NNBSP SPACE (e_body e) Hb). reflexivity. }
  destruct es as [|e2 es].
  - exact He.
  - change (render (e :: e2 :: es))
      with (render_entry e ++ NEWLINE :: render (e2 :: es)).
    change (render (map normal (e :: e2 :: es)))
      with (render_entry (normal e) ++ NEWLINE :: render (map normal (e2 :: es))).
    rewrite replace_app, He. f_equal.
    change (replace NNBSP SPACE (NEWLINE :: render (e2 :: es)))
      with (NEWLINE :: replace NNBSP SPACE (render (e2 :: es))).
    f_equal. now apply IH.
Qed.

End RenderFindall.

Section RoundTrip.

Variable Nd : char -> bool.
Variable digit_value : char -> Z.
Hypothesis Nd_ok : decimal_table Nd.

Lemma well_formed_wf e :
  well_formed Nd digit_value e = true ->
  entry_wf Nd (normal e)
  /\ (exists t, to_datetime Nd digit_value (replace NNBSP SPACE (e_time e)) = Some t)
  /\ no_char NNBSP (e_sender e) = true /\ no_char NNBSP (e_body e) = true
  /\ strip (e_body e) = e_body e.
Proof.
  unfold well_formed, time_ok, sender_ok, body_ok.
  rewrite !andb_true_iff, !negb_true_iff.
  intros [[[Hfm Hdt] [[Hs Hc] Hsn]] [[[Hb Hstrip] Hbn] Hk]].
  repeat split; cbn [normal e_time e_sender e_body]; auto.
  - now apply fullmatch_date_time.
  - intros E. now rewrite E in Hs.
  - intros E. now rewrite E in Hb.
  - intros k Hk1. rewrite forallb_forall in Hk.
    specialize (Hk k). rewrite in_seq in Hk.
    rewrite <- match_here_next_date by assumption.
    apply negb_true_iff. apply Hk. lia.
  - destruct (to_datetime Nd digit_value _); [eauto|discriminate].
  - now apply text_eqb_eq.
Qed.

Lemma preprocess_render es :
  forallb (well_formed Nd digit_value) es = true ->
  preprocess Nd digit_value (render es) = Some (map (row_of_entry Nd digit_value) es).
Proof.
  intros Hwf. rewrite forallb_forall in Hwf.
  assert (Hall : forall e, In e es ->
            entry_wf Nd (normal e)
            /\ (exists t, to_datetime Nd digit_value (replace NNBSP SPACE (e_time e)) = Some t)
            /\ no_char NNBSP (e_sender e) = true /\ no_char NNBSP (e_body e) = true
            /\ strip (e_body e) = e_body e)
    by (intros e He; apply well_formed_wf; auto).
  unfold preprocess.
  rewrite replace_render
    by (apply Forall_forall; intros e He; destruct (Hall e He) as [_ [_ [? [? _]]]]; auto).
  rewrite findall_render
    by (auto; apply Forall_forall; intros e' He'; apply in_map_iff in He' as [e [<- He]];
        now destruct (Hall e He)).
  rewrite !map_map. cbn [caps_of group Nat.eqb normal e_time e_sender e_body].
  rewrite combine_map, map_map. cbn [fst snd].
  rewrite (all_some_map _
    (fun e => match to_datetime Nd digit_value (replace NNBSP SPACE (e_time e)) with
              | Some t => t
              | None => epoch
              end)).
  - f_equal. rewrite combine_map, map_map. cbn [fst snd].
    apply map_ext_in. intros e He.
    destruct (Hall e He) as [[_ [_ [Hc _]]] [_ [_ [_ Hstrip]]]].
    cbn [normal e_sender] in Hc. rewrite Hstrip.
    rewrite (split_user_message_first _ _ Hc). reflexivity.
  - intros e He. destruct (Hall e He) as [_ [[t ->] _]]. reflexivity.
Qed.

End RoundTrip.

(* ------------------------------------------------------------------ *)
(** ** The parser: properties *)

Lemma ascii_table_ok : decimal_table ascii_Nd.
Proof.
  intros c H. split; [|auto].
  unfold ascii_Nd, is_space, in_range in *. char_cases.
Qed.

Lemma Forall2_combine_map {A B C D : Type} (P : A -> D -> Prop)
      (F : B * C -> D) (g : A -> C) (l : list A) : forall ds : list B,
  length ds = length l -> (forall d x, P x (F (d, g x))) ->
  Forall2 P l (map F (combine ds (map g l))).
Proof.
  induction l as [|x l IH]; intros [|d ds] Hlen HP; try discriminate; cbn.
  - constructor.
  - constructor; [apply HP|]. apply IH; auto.
Qed.

Lemma preprocess_rows Nd dv data rows :
  preprocess Nd dv data = Some rows ->
  exists dates,
    all_some (map (fun m => to_datetime Nd dv (group 1 m))
                  (findall Nd pattern (replace NNBSP SPACE data))) = Some dates
    /\ rows = map (fun ds => row_of (fst ds) (fst (snd ds)) (snd (snd ds)))
                  (combine dates
                     (map (fun m => split_user_message (user_message m))
                          (findall Nd pattern (replace NNBSP SPACE data)))).
Proof.
  unfold preprocess. rewrite !map_map, combine_map, !map_map. cbn [fst snd].
  destruct (all_some _) as [dates|]; [|discriminate].
  intros E. inversion E. exists dates. split; reflexivity.
Qed.

Lemma contains_separator s t : contains separator (s ++ separator ++ t) = true.
Proof.
  induction s as [|x s IH].
  - cbn [app contains]. replace (starts_with separator (separator ++ t)) with true;
      [reflexivity|]. symmetry. apply starts_with_sep. rewrite separator_eq. cbn. eauto.
  - cbn [app contains]. rewrite IH. apply orb_true_r.
Qed.

(** The string built from a match always holds the separator: the branch
    of [preprocess] that assigns [group_notification] is never taken. *)
Lemma user_message_has_separator m : contains separator (user_message m) = true.
Proof. apply contains_separator. Qed.

(** *** [strip] *)

Lemma drop_while_fix (p : char -> bool) l :
  match l with [] => True | x :: _ => p x = false end -> drop_while p l = l.
Proof. destruct l as [|x l]; cbn; [reflexivity|]. now intros ->. Qed.

Lemma drop_while_head (p : char -> bool) l :
  match drop_while p l with [] => True | x :: _ => p x = false end.
Proof.
  induction l as [|x l IH]; cbn; [exact I|]. destruct (p x) eqn:E; [exact IH|exact E].
Qed.

Lemma drop_while_suffix (p : char -> bool) l : exists pre, l = pre ++ drop_while p l.
Proof.
  induction l as [|x l [pre IH]]; cbn; [now exists []|].
  destruct (p x); [|now exists []]. exists (x :: pre). cbn. now f_equal.
Qed.

(** What [strip] returns neither starts nor ends with white space. *)
Lemma strip_ends l :
  match strip l with [] => True | x :: _ => is_space x = false end
  /\ match rev (strip l) with [] => True | x :: _ => is_space x = false end.
Proof.
  unfold strip. rewrite rev_involutive. split; [|apply drop_while_head].
  set (a := drop_while is_space l).
  pose proof (drop_while_head is_space l) as Ha. fold a in Ha.
  destruct (drop_while_suffix is_space (rev a)) as [pre E].
  set (b := drop_while is_space (rev a)) in *.
  assert (Ea : a = rev b ++ rev pre).
  { rewrite <- (rev_involutive a), E, rev_app_distr. reflexivity. }
  destruct (rev b) as [|x t] eqn:Eb; [exact I|].
  rewrite Ea in Ha. exact Ha.
Qed.

Lemma strip_fix l :
  match l with [] => True | x :: _ => is_space x = false end ->
  match rev l with [] => True | x :: _ => is_space x = false end ->
  strip l = l.
Proof.
  intros H1 H2. unfold strip. rewrite (drop_while_fix _ l H1), (drop_while_fix _ _ H2).
  apply rev_involutive.
Qed.

Lemma strip_idempotent l : strip (strip l) = strip l.
Proof. destruct (strip_ends l). now apply strip_fix. Qed.

(** *** The matches of the entry pattern *)

Lemma findall_from_In Nd r fuel : forall l m,
  In m (findall_from Nd fuel r l) ->
  exists l' rest, match_here Nd r l' = Some (m, rest).
Proof.
  induction fuel as [|fuel IH]; intros l m; [contradiction|].
  rewrite findall_from_S. cbv zeta.
  assert (Hnext : In m match l with [] => [] | _ :: l' => findall_from Nd fuel r l' end ->
                  exists l' rest, match_here Nd r l' = Some (m, rest)).
  { destruct l as [|x l']; [contradiction|]. apply IH. }
  destruct (match_here Nd r l) as [[caps rest]|] eqn:E; [|exact Hnext].
  intros [<-|Hin]; [eauto|].
  destruct (length rest <? length l); [now apply IH in Hin|now apply Hnext].
Qed.

Lemma span_firstn Nd c cap l :
  forallb (cmatch Nd c) (firstn (span Nd c cap l) l) = true.
Proof.
  revert l. induction cap as [|cap IH]; intros [|x l]; cbn; try reflexivity.
  destruct (cmatch Nd c x) eqn:E; cbn; [|reflexivity]. now rewrite E, IH.
Qed.

(** A match of the entry pattern has a non-empty sender without a colon
    and a non-empty message text. *)
Lemma entry_at_groups Nd l m rest :
  entry_at Nd l = Some (m, rest) ->
  group 2 m <> [] /\ no_char COLON (group 2 m) = true /\ group 3 m <> [].
Proof.
  unfold entry_at.
  destruct (datetime_prefix Nd l) as [r1|]; [|discriminate].
  destruct (steps_run Nd _ r1) as [r2|]; [|discriminate].
  set (k := span Nd (CNot COLON) (length r2) r2).
  destruct (Nat.leb_spec 1 k) as [Hk|Hk]; [|discriminate].
  destruct (steps_run Nd _ (skipn k r2)) as [[|x r4]|]; try discriminate.
  intros E. injection E as <- _. cbn [group Nat.eqb].
  split; [|split; [|discriminate]].
  - intros Hnil. apply (f_equal (@length char)) in Hnil.
    rewrite length_firstn in Hnil. cbn [length] in Hnil.
    pose proof (span_le Nd (CNot COLON) (length r2) r2) as [_ Hle]. fold k in Hle. lia.
  - unfold k. exact (span_firstn Nd (CNot COLON) (length r2) r2).
Qed.

Lemma all_some_Forall2 {A B C D : Type} (P : A -> D -> Prop) (f : A -> option B)
      (F : B * C -> D) (g : A -> C) (l : list A) : forall ds,
  all_some (map f l) = Some ds ->
  (forall x d, In x l -> f x = Some d -> P x (F (d, g x))) ->
  Forall2 P l (map F (combine ds (map g l))).
Proof.
  induction l as [|x l IH]; cbn [map all_some]; intros ds E HP.
  - injection E as <-. constructor.
  - destruct (f x) as [d|] eqn:Ex; [|discriminate].
    destruct (all_some (map f l)) as [ds'|] eqn:El; [|discriminate].
    injection E as <-. cbn [combine map]. constructor.
    + apply HP; [now left|assumption].
    + apply IH; [reflexivity|]. intros y dy Hy. apply HP. now right.
Qed.

Lemma Forall2_weaken {A B : Type} (P Q : A -> B -> Prop) (l : list A) (l' : list B) :
  (forall x y, P x y -> Q x y) -> Forall2 P l l' -> Forall2 Q l l'.
Proof. intros H. induction 1; constructor; auto. Qed.

(** The rows of [preprocess], match by match. *)
Lemma rows_of_entries Nd dv data rows :
  decimal_table Nd ->
  preprocess Nd dv data = Some rows ->
  Forall2
    (fun m r => (exists l rest, entry_at Nd l = Some (m, rest))
                /\ to_datetime Nd dv (group 1 m) = Some (date r)
                /\ r = row_of (date r) (group 2 m) (strip (group 3 m)))
    (findall Nd pattern (replace NNBSP SPACE data)) rows.
Proof.
  intros Hok H. apply preprocess_rows in H as [dates [Hd ->]].
  apply (all_some_Forall2 _ (fun m => to_datetime Nd dv (group 1 m)) _ _ _ dates Hd).
  intros m d Hm Hdate.
  unfold findall in Hm. apply findall_from_In in Hm as [l' [rest Hm]].
  rewrite (match_here_pattern Nd Hok) in Hm. split; [eauto|].
  pose proof (entry_at_groups Nd l' m rest Hm) as [_ [Hcolon _]].
  unfold user_message. rewrite (split_user_message_first _ _ Hcolon).
  cbn [fst snd row_of date]. split; [assumption|reflexivity].
Qed.

(** C1, as amended: for every entry the scan matches, the string that
    [preprocess] tests is built from the sender and the stripped message
    text with [": "] between them, so it always holds the separator and
    the branch that assigns [group_notification] is never taken.  The
    row's sender is the text of group 2 (what stands between the dash and
    the first colon), its message the text of group 3 without the white
    space at its ends, and they are the two parts of the string at its
    first [": "].  The sender is [group_notification] exactly when the
    transcript has that word as the sender. *)
Theorem sender_split Nd dv data rows :
  decimal_table Nd ->
  preprocess Nd dv data = Some rows ->
  Forall2
    (fun m r =>
       let frag := user_message m in
       contains separator frag = true
       /\ frag = Sender r ++ separator ++ Message r
       /\ contains separator (Sender r ++ [COLON]) = false
       /\ Sender r = group 2 m
       /\ Message r = strip (group 3 m)
       /\ (Sender r = group_notification <-> group 2 m = group_notification))
    (findall Nd pattern (replace NNBSP SPACE data)) rows.
Proof.
  intros Hok H. apply (rows_of_entries Nd dv data rows Hok) in H.
  eapply Forall2_weaken; [|exact H]. cbv beta zeta.
  intros m r [[l [rest Hm]] [_ Er]].
  apply entry_at_groups in Hm as [_ [Hcolon _]].
  assert (Es : Sender r = group 2 m) by (rewrite Er; reflexivity).
  assert (Em : Message r = strip (group 3 m)) by (rewrite Er; reflexivity).
  split; [apply user_message_has_separator|].
  split; [unfold user_message; now rewrite Es, Em|].
  split; [|split; [exact Es|split; [exact Em|now rewrite Es]]].
  rewrite Es. clear -Hcolon. unfold no_char in Hcolon.
  induction (group 2 m) as [|x s IH]; [reflexivity|].
  cbn [forallb] in Hcolon. apply andb_true_iff in Hcolon as [Hx Hs].
  cbn [app contains]. rewrite (IH Hs), orb_false_r.
  rewrite separator_eq. cbn [starts_with].
  apply negb_true_iff in Hx. rewrite N.eqb_sym, Hx. reflexivity.
Qed.

Lemma sender_split_witness :
  let data := str "1/1/23, 10:00 am - Alice: Hello" in
  preprocess ascii_Nd ascii_digit_value data
  = Some [row_of (mkTimestamp 2023 1 1 10 0) (str "Alice") (str "Hello")]
  /\ Forall2
       (fun m r =>
          let frag := user_message m in
          contains separator frag = true
          /\ frag = Sender r ++ separator ++ Message r
          /\ contains separator (Sender r ++ [COLON]) = false
          /\ Sender r = group 2 m
          /\ Message r = strip (group 3 m)
          /\ (Sender r = group_notification <-> group 2 m = group_notification))
       (findall ascii_Nd pattern (replace NNBSP SPACE data))
       [row_of (mkTimestamp 2023 1 1 10 0) (str "Alice") (str "Hello")].
Proof.
  split; [vm_compute; reflexivity|].
  apply (sender_split ascii_Nd ascii_digit_value _ _ ascii_table_ok).
  vm_compute. reflexivity.
Defined.

(** C1 as stated fails in both directions.  An entry with a tab after the
    colon of the sender is matched whole, its text holds no [": "], and
    its row has the sender of the transcript, not [group_notification];
    and an entry whose sender is itself [group_notification] gives a row
    with that sender although its text holds the separator. *)
Lemma sender_not_by_separator :
  let tabbed := str "1/1/23, 10:00 am - Alice:" ++ 9%N :: str "hello" in
  let named := str "1/1/23, 10:00 am - group_notification: hi" in
  (option_map snd (match_here ascii_Nd pattern tabbed) = Some []
   /\ contains separator tabbed = false
   /\ option_map (map (fun r => (Sender r, Message r)))
        (preprocess ascii_Nd ascii_digit_value tabbed)
      = Some [(str "Alice", str "hello")])
  /\ (option_map snd (match_here ascii_Nd pattern named) = Some []
      /\ contains separator named = true
      /\ option_map (map (fun r => (Sender r, Message r)))
           (preprocess ascii_Nd ascii_digit_value named)
         = Some [(group_notification, str "hi")]).
Proof. repeat split; vm_compute; reflexivity. Qed.

(** C3, as amended: [preprocess] fails exactly when the date and time of
    some matched entry does not parse with the fixed format; otherwise it
    returns one row for every matched entry (none for a transcript with
    no entry). *)
Theorem parse_failure Nd dv data :
  (preprocess Nd dv data = None <->
   Exists (fun m => to_datetime Nd dv (group 1 m) = None)
          (findall Nd pattern (replace NNBSP SPACE data)))
  /\ (forall rows, preprocess Nd dv data = Some rows ->
        length rows = length (findall Nd pattern (replace NNBSP SPACE data))).
Proof.
  split.
  - unfold preprocess. rewrite !map_map.
    destruct (all_some _) as [dates|] eqn:E.
    + split; [discriminate|]. intros Hex.
      assert (Hn : all_some
                (map (fun x => to_datetime Nd dv (group 1 x))
                   (findall Nd pattern (replace NNBSP SPACE data))) = None).
      { apply all_some_none. apply Exists_exists in Hex as [m [Hm Hf]].
        apply Exists_exists. exists None. split; [|reflexivity].
        apply in_map_iff. eauto. }
      congruence.
    + split; [|reflexivity]. intros _.
      apply all_some_none in E. apply Exists_exists in E as [o [Ho ->]].
      apply in_map_iff in Ho as [m [Hm Hin]].
      apply Exists_exists. eauto.
  - intros rows H. apply preprocess_rows in H as [dates [Hd ->]].
    apply all_some_length in Hd. rewrite length_map in Hd.
    rewrite length_map, length_combine, length_map. lia.
Qed.

(** C3 as stated fails: a transcript with no entry parses to the empty
    frame. *)
Lemma no_entry_no_failure :
  findall ascii_Nd pattern (replace NNBSP SPACE (str "hello world")) = []
  /\ preprocess ascii_Nd ascii_digit_value (str "hello world") = Some [].
Proof. split; vm_compute; reflexivity. Qed.

(** A matched entry whose date the format does not read fails the whole
    transcript: a four-digit year, a day the month does not have. *)
Example bad_date_fails :
  preprocess ascii_Nd ascii_digit_value
    (str "1/1/23, 10:00 am - Alice: Hello
1/1/2023, 10:05 am - Bob: Hi") = None
  /\ preprocess ascii_Nd ascii_digit_value (str "31/2/23, 10:00 am - Alice: Hello") = None.
Proof. split; vm_compute; reflexivity. Qed.

(** The example of the specification: three entries, one of them a media
    placeholder and one a lone question mark. *)
Example three_messages :
  let df := preprocess ascii_Nd ascii_digit_value
              (str "1/1/23, 10:00 am - Alice: Hello
1/1/23, 10:05 am - Bob: <Media omitted>
1/1/23, 10:06 am - Alice: ?") in
  option_map (map (fun r => (Sender r, Message r))) df
  = Some [ (str "Alice", str "Hello"); (str "Bob", str "<Media omitted>");
           (str "Alice", str "?") ]
  /\ option_map (fun d => message_type_counts d) df = Some (2, 1, 0)
  /\ option_map (messages_per_user stable_sort_desc) df = Some [(str "Alice", 1)].
Proof. repeat split; vm_compute; reflexivity. Qed.

(** C9, as amended: a transcript of entries in the fixed format, one per
    line, each with a date and time the format reads, a non-empty sender
    without a colon, and a non-empty message text without white space at
    its ends and without a line that starts with a date, parses to as many
    rows as there are entries, and each row has the sender, the message
    text and the timestamp of its entry. *)
Theorem parse_round_trip Nd dv es :
  decimal_table Nd ->
  forallb (well_formed Nd dv) es = true ->
  option_map (map (fun r => (Sender r, Message r))) (preprocess Nd dv (render es))
  = Some (map (fun e => (e_sender e, e_body e)) es)
  /\ option_map (map (fun r => Some (date r))) (preprocess Nd dv (render es))
     = Some (map (fun e => to_datetime Nd dv (replace NNBSP SPACE (e_time e))) es)
  /\ option_map (@length Row) (preprocess Nd dv (render es)) = Some (length es).
Proof.
  intros Hok Hwf. rewrite (preprocess_render Nd dv Hok es Hwf). cbn [option_map].
  rewrite !map_map, length_map. repeat split.
  f_equal. apply map_ext_in. intros e He. unfold row_of_entry, row_of. cbn [date].
  rewrite forallb_forall in Hwf.
  destruct (well_formed_wf Nd dv Hok e (Hwf e He)) as [_ [[t ->] _]]. reflexivity.
Qed.

Lemma parse_round_trip_witness :
  option_map (map (fun r => (Sender r, Message r)))
    (preprocess ascii_Nd ascii_digit_value (render sample_entries))
  = Some (map (fun e => (e_sender e, e_body e)) sample_entries)
  /\ option_map (map (fun r => Some (date r)))
       (preprocess ascii_Nd ascii_digit_value (render sample_entries))
     = Some (map (fun e => to_datetime ascii_Nd ascii_digit_value
                             (replace NNBSP SPACE (e_time e))) sample_entries)
  /\ option_map (@length Row)
       (preprocess ascii_Nd ascii_digit_value (render sample_entries))
     = Some (length sample_entries).
Proof.
  apply (parse_round_trip ascii_Nd ascii_digit_value sample_entries ascii_table_ok).
  vm_compute. reflexivity.
Defined.

(** C9 as stated fails: an entry with an empty message text takes the
    next entry as its text, and two entries parse to one row. *)
Lemma empty_body_swallows_next :
  option_map (map (fun r => (Sender r, Message r)))
    (preprocess ascii_Nd ascii_digit_value
       (render [ mkEntry (str "1/1/23, 10:00 am") (str "Alice") [];
                 mkEntry (str "1/1/23, 10:05 am") (str "Bob") (str "hi") ]))
  = Some [(str "Alice", str "1/1/23, 10:05 am - Bob: hi")].
Proof. vm_compute. reflexivity. Qed.

(* ------------------------------------------------------------------ *)
(** ** Letter case and the matcher *)

Lemma ci_cases x y :
  ci x y -> x = y \/ (in_range 65 90 x = true /\ in_range 97 122 y = true)
            \/ (in_range 97 122 x = true /\ in_range 65 90 y = true).
Proof.
  unfold ci, ascii_lower, in_range.
  destruct (N.eq_dec x y) as [->|Hne]; [now left|]. intros H. right.
  char_cases;
    cbn in H; first [lia | left; split; reflexivity | right; split; reflexivity].
Qed.

Lemma Forall2_skipn {A B : Type} (R : A -> B -> Prop) k : forall l l',
  Forall2 R l l' -> Forall2 R (skipn k l) (skipn k l').
Proof.
  induction k as [|k IH]; intros l l' H; [assumption|].
  destruct H; cbn; [constructor|]. now apply IH.
Qed.

Lemma Forall2_firstn {A B : Type} (R : A -> B -> Prop) k : forall l l',
  Forall2 R l l' -> Forall2 R (firstn k l) (firstn k l').
Proof.
  induction k as [|k IH]; intros l l' H; [constructor|].
  destruct H; cbn; constructor; auto.
Qed.

Lemma Forall2_flat_map {A B C D : Type} (P : A -> B -> Prop) (Q : C -> D -> Prop)
      (f : A -> list C) (g : B -> list D) l l' :
  Forall2 P l l' -> (forall x y, In x l -> P x y -> Forall2 Q (f x) (g y)) ->
  Forall2 Q (flat_map f l) (flat_map g l').
Proof.
  induction 1 as [|x y l l' Hxy Hl IH]; intros H; cbn; [constructor|].
  apply Forall2_app; [apply H; auto; now left|].
  apply IH. intros; apply H; auto; now right.
Qed.

Lemma Forall2_map_both {A B C D : Type} (Q : C -> D -> Prop)
      (f : A -> C) (g : B -> D) (P : A -> B -> Prop) l l' :
  Forall2 P l l' -> (forall x y, In x l -> P x y -> Q (f x) (g y)) ->
  Forall2 Q (map f l) (map g l').
Proof.
  induction 1 as [|x y l l' Hxy Hl IH]; intros H; cbn; constructor.
  - apply H; auto; now left.
  - apply IH. intros; apply H; auto; now right.
Qed.

Lemma alike_length n l l' : alike n l l' -> length l' = length l.
Proof. intros [H _]. symmetry. now apply Forall2_length in H. Qed.

Lemma alike_refl n l : alike n l l.
Proof.
  split; [|reflexivity]. induction l; constructor; auto. reflexivity.
Qed.

Lemma alike_skipn n k l l' : alike n l l' -> alike n (skipn k l) (skipn k l').
Proof.
  intros [Hci Hf]. split; [now apply Forall2_skipn|].
  rewrite length_skipn.
  replace (length l - k - n) with (length l - n - k) by lia.
  rewrite <- !skipn_firstn_comm. now rewrite Hf.
Qed.

Lemma alike_firstn n k l l' :
  alike n l l' -> k + n <= length l -> firstn k l = firstn k l'.
Proof.
  intros [_ Hf] Hk.
  replace k with (Nat.min k (length l - n)) by lia.
  rewrite <- !firstn_firstn. now rewrite Hf.
Qed.

Section CaseFacts.

Variable Nd : char -> bool.
Hypothesis Nd_ok : decimal_table Nd.

Lemma letter_not_digit x :
  in_range 65 90 x = true \/ in_range 97 122 x = true -> Nd x = false.
Proof.
  intros H. destruct (Nd x) eqn:E; [|reflexivity].
  destruct (Nd_ok x E) as [_ H2]. unfold in_range in *.
  assert (Hlt : (x < 128)%N) by (destruct H as [H|H]; char_cases).
  specialize (H2 Hlt). destruct H as [H|H]; char_cases.
Qed.

Lemma cmatch_ci c x y : caseless c = true -> ci x y -> cmatch Nd c x = cmatch Nd c y.
Proof.
  intros Hc Hxy. destruct (ci_cases x y Hxy) as [->|Hl]; [reflexivity|].
  destruct c as [|a| | |a|lo hi]; cbn [cmatch caseless] in *.
  - reflexivity.
  - unfold ci in Hxy. now rewrite Hxy.
  - rewrite !letter_not_digit; tauto.
  - unfold is_space, in_range in *. destruct Hl as [[H1 H2]|[H1 H2]]; char_solve.
  - unfold in_range in *. destruct Hl as [[H1 H2]|[H1 H2]]; char_solve.
  - unfold in_range in *. destruct Hl as [[H1 H2]|[H1 H2]]; char_solve.
Qed.

Lemma span_ci c cap : caseless c = true -> forall l l',
  Forall2 ci l l' -> span Nd c cap l = span Nd c cap l'.
Proof.
  intros Hc. induction cap as [|cap IH]; intros l l' H; destruct H; cbn;
    try reflexivity.
  rewrite (cmatch_ci c x y Hc H). destruct (cmatch Nd c y); [|reflexivity].
  f_equal. now apply IH.
Qed.

Lemma counts_ci g lo hi c l l' :
  caseless c = true -> Forall2 ci l l' ->
  counts Nd g lo hi c l = counts Nd g lo hi c l'.
Proof.
  intros Hc H. unfold counts.
  rewrite (Forall2_length H), (span_ci c _ Hc l l' H). reflexivity.
Qed.

Lemma run_alike n r : caseless_re r = true -> forall l l',
  alike n l l' -> Forall2 (rel n) (run Nd r [] l) (run Nd r [] l').
Proof.
  induction r as [c|r1 IH1 r2 IH2|r1 IH1 r2 IH2|g lo hi c|k r1 IH1|r1 IH1|];
    cbn [caseless_re run]; intros Hc l l' Hl.
  - destruct Hl as [Hci Hf]. destruct Hci as [|x y l l' Hxy Hci]; [constructor|].
    rewrite (cmatch_ci c x y Hc Hxy). destruct (cmatch Nd c y); constructor; [|constructor].
    split; [|reflexivity]. cbn [snd].
    apply (alike_skipn n 1 (x :: l) (y :: l')). split; [now constructor|assumption].
  - apply andb_true_iff in Hc as [Hc1 Hc2].
    apply Forall2_flat_map with (P := rel n); [now apply IH1|].
    intros m m' Hin [Ha Hcaps].
    rewrite (run_caps Nd r2 (fst m)), (run_caps Nd r2 (fst m')).
    apply Forall2_map_both with (P := rel n); [now apply IH2|].
    intros m2 m2' Hin2 [Ha2 Hcaps2]. split; [exact Ha2|]. cbn [fst snd].
    intros Hn. apply run_length in Hin2.
    f_equal; [apply Hcaps2; assumption|apply Hcaps].
    exact (Nat.le_trans _ _ _ Hn Hin2).
  - apply andb_true_iff in Hc as [Hc1 Hc2].
    apply Forall2_app; auto.
  - rewrite (counts_ci g lo hi c l l' Hc (proj1 Hl)).
    induction (counts Nd g lo hi c l') as [|j js IHj]; cbn; constructor; auto.
    split; [|reflexivity]. now apply alike_skipn.
  - apply Forall2_map_both with (P := rel n); [now apply IH1|].
    intros m m' Hin [Ha Hcaps]. split; [exact Ha|]. cbn [fst snd].
    intros Hn. apply run_length in Hin.
    pose proof (alike_length n _ _ Ha) as E1.
    pose proof (alike_length n _ _ Hl) as E2.
    f_equal; [|apply Hcaps; assumption].
    apply (f_equal (pair k)).
    transitivity (firstn (length l - length (snd m)) l').
    + apply (alike_firstn n); [assumption|].
      unfold captures, text, char in *. lia.
    + f_equal. unfold captures, text, char in *. lia.
  - specialize (IH1 Hc l l' Hl).
    destruct IH1; constructor; [|constructor]. split; [exact Hl|reflexivity].
  - destruct Hl as [Hci Hf]. destruct Hci; constructor; [|constructor].
    split; [apply alike_refl|reflexivity].
Qed.

Lemma match_here_alike n r l l' :
  caseless_re r = true -> alike n l l' ->
  match match_here Nd r l, match_here Nd r l' with
  | None, None => True
  | Some m, Some m' => rel n m m'
  | _, _ => False
  end.
Proof.
  intros Hc Hl. unfold match_here.
  destruct (run_alike n r Hc l l' Hl); cbn; auto.
Qed.

End CaseFacts.

Lemma flat_map_flat_map {A B C : Type} (f : A -> list B) (g : B -> list C) (l : list A) :
  flat_map g (flat_map f l) = flat_map (fun x => flat_map g (f x)) l.
Proof.
  induction l as [|x l IH]; cbn; [reflexivity|]. now rewrite flat_map_app, IH.
Qed.

Lemma map_lower_ci a : forall b,
  map ascii_lower a = map ascii_lower b -> Forall2 ci a b.
Proof.
  induction a as [|x a IH]; intros [|y b] H; try discriminate; constructor.
  - now inversion H.
  - apply IH. now inversion H.
Qed.

Lemma ci_map_lower a b : Forall2 ci a b -> map ascii_lower a = map ascii_lower b.
Proof. induction 1 as [|x y a b Hxy _ IH]; cbn; [reflexivity|]. now rewrite Hxy, IH. Qed.

Lemma Forall2_ci_refl l : Forall2 ci l l.
Proof. induction l; constructor; auto. reflexivity. Qed.

Lemma alike_marker P mk mk' :
  map ascii_lower mk' = map ascii_lower mk ->
  alike (length mk) (P ++ mk) (P ++ mk').
Proof.
  intros H. split.
  - apply Forall2_app; [apply Forall2_ci_refl|]. apply map_lower_ci. now symmetry.
  - rewrite length_app. replace (length P + length mk - length mk) with (length P) by lia.
    now rewrite !firstn_app, !firstn_all, Nat.sub_diag, !app_nil_r.
Qed.

Section DateCase.

Variable Nd : char -> bool.
Variable digit_value : char -> Z.
Hypothesis Nd_ok : decimal_table Nd.

Lemma run_seq_of_snoc rs : forall r last caps l,
  run Nd (seq_of (rs ++ [r]) last) caps l =
  flat_map (fun m => run Nd last (fst m) (snd m)) (run Nd (seq_of rs r) caps l).
Proof.
  induction rs as [|r0 rs IH]; intros r last caps l; cbn [app seq_of run].
  - reflexivity.
  - rewrite flat_map_flat_map. apply flat_map_ext. intros m. apply IH.
Qed.

Lemma run_re_p caps t :
  run Nd re_p caps t =
  match marker_at t with
  | Some r => [((G_p, firstn (length t - length r) t) :: caps, r)]
  | None => []
  end.
Proof.
  unfold re_p. cbn [run]. rewrite run_am_pm.
  destruct (marker_at t); reflexivity.
Qed.

Lemma marker_at_ci t t' :
  Forall2 ci t t' ->
  match marker_at t, marker_at t' with
  | Some r, Some r' => Forall2 ci r r' /\ length t = 2 + length r
  | None, None => True
  | _, _ => False
  end.
Proof.
  intros H. destruct H as [|x x' t t' Hx H]; [exact I|].
  destruct H as [|y y' t t' Hy H]; [exact I|].
  cbn [marker_at]. unfold ci in Hx, Hy. rewrite Hx, Hy.
  destruct (_ && _); [|exact I]. split; [assumption|reflexivity].
Qed.

Lemma timestamp_of_marker a a' found :
  map ascii_lower a = map ascii_lower a' ->
  timestamp_of digit_value ((G_p, a) :: found)
  = timestamp_of digit_value ((G_p, a') :: found).
Proof.
  intros H. unfold timestamp_of. cbn [group G_p G_y G_m G_d G_I G_M Nat.eqb].
  now rewrite H.
Qed.

Lemma format_regex_split :
  format_regex =
  seq_of ([re_d; lit "/"; re_m; lit "/"; re_y; lit ","; spaces; re_I; lit ":"; re_M]
            ++ [spaces]) re_p.
Proof. reflexivity. Qed.

(** The letter case of the marker does not change the timestamp read. *)
Lemma to_datetime_marker P mk mk' :
  length mk = 2 -> map ascii_lower mk' = map ascii_lower mk ->
  to_datetime Nd digit_value (P ++ mk') = to_datetime Nd digit_value (P ++ mk).
Proof.
  intros Hlen Hmk. unfold to_datetime, match_here.
  rewrite format_regex_split, !run_seq_of_snoc. fold format_prefix.
  assert (HF : Forall2
            (fun x y => (snd x = [] <-> snd y = [])
                        /\ timestamp_of digit_value (fst x) = timestamp_of digit_value (fst y))
            (flat_map (fun m => run Nd re_p (fst m) (snd m)) (run Nd format_prefix [] (P ++ mk)))
            (flat_map (fun m => run Nd re_p (fst m) (snd m)) (run Nd format_prefix [] (P ++ mk')))).
  { apply Forall2_flat_map with (P := rel 2).
    - apply run_alike; [assumption|reflexivity|].
      rewrite <- Hlen. now apply alike_marker.
    - intros m m' _ [Ha Hcaps]. rewrite !run_re_p.
      pose proof (marker_at_ci (snd m) (snd m') (proj1 Ha)) as Hm.
      destruct (marker_at (snd m)) as [r|], (marker_at (snd m')) as [r'|];
        try contradiction; constructor; [|constructor].
      destruct Hm as [Hr Hl]. cbn [fst snd]. split.
      + apply Forall2_length in Hr.
        destruct r, r'; try discriminate; split; intros; try reflexivity; discriminate.
      + rewrite <- Hcaps by (unfold captures, text, char in *; lia).
        apply timestamp_of_marker. apply ci_map_lower.
        rewrite (alike_length 2 _ _ Ha).
        replace (length r') with (length r) by (now apply Forall2_length in Hr).
        apply Forall2_firstn. exact (proj1 Ha). }
  destruct HF as [|[f1 r1] [f2 r2] ? ? [Hnil Hts] _]; cbn [hd_error fst snd] in *.
  - reflexivity.
  - destruct r1 as [|x1 r1], r2 as [|x2 r2]; auto.
    + destruct Hnil as [Hnil _]. specialize (Hnil eq_refl). discriminate.
    + destruct Hnil as [_ Hnil]. specialize (Hnil eq_refl). discriminate.
Qed.

End DateCase.

(* ------------------------------------------------------------------ *)
(** ** The scan up to one entry *)

Lemma app_eq_length {A : Type} (a : list A) : forall b c d,
  a ++ b = c ++ d -> length b = length d -> a = c /\ b = d.
Proof.
  induction a as [|x a IH]; intros b [|y c] d E Hl; cbn in *.
  - auto.
  - subst b. cbn in Hl. rewrite length_app in Hl. lia.
  - subst d. cbn in Hl. rewrite length_app in Hl. lia.
  - inversion E; subst. destruct (IH b c d H1 Hl) as [-> ->]. auto.
Qed.

Lemma app_split_suffix {A : Type} (pre0 : list A) : forall a T rest,
  a ++ T = pre0 ++ rest -> length T <= length rest ->
  exists a2, a = pre0 ++ a2 /\ rest = a2 ++ T.
Proof.
  induction pre0 as [|x pre0 IH]; intros a T rest E Hl; cbn in *.
  - exists a. auto.
  - destruct a as [|y a]; cbn in E.
    + subst T. cbn in Hl. rewrite length_app in Hl. lia.
    + inversion E; subst. destruct (IH a T rest H1 Hl) as [a2 [-> ->]].
      exists a2. auto.
Qed.

Section ScanOffsets.

Variable Nd : char -> bool.
Variable r : regex.

Lemma match_here_suffix l caps rest :
  match_here Nd r l = Some (caps, rest) -> exists pre, l = pre ++ rest.
Proof.
  unfold match_here. intros H.
  destruct (run Nd r [] l) as [|m ms] eqn:E; [discriminate|].
  inversion H; subst.
  apply (run_suffix Nd r [] l (caps, rest)). rewrite E. now left.
Qed.

Lemma finditer_from_S fuel pos l :
  finditer_from Nd (S fuel) pos r l =
  let next := match l with
              | [] => []
              | _ :: l' => finditer_from Nd fuel (S pos) r l'
              end in
  match match_here Nd r l with
  | Some (caps, rest) =>
      (pos, caps)
      :: (if length rest <? length l
          then finditer_from Nd fuel (pos + (length l - length rest)) r rest
          else next)
  | None => next
  end.
Proof. reflexivity. Qed.

(** A match found from offset [pos] on starts at [pos] or later. *)
Lemma finditer_offsets fuel : forall pos l o caps,
  In (o, caps) (finditer_from Nd fuel pos r l) -> pos <= o.
Proof.
  induction fuel as [|fuel IH]; intros pos l o caps; [intros []|].
  rewrite finditer_from_S. cbn zeta.
  assert (Hnext : In (o, caps) match l with
                               | [] => []
                               | _ :: l' => finditer_from Nd fuel (S pos) r l'
                               end -> pos <= o).
  { destruct l as [|x l']; [intros []|]. intros H. apply IH in H. lia. }
  destruct (match_here Nd r l) as [[c rest]|]; [|exact Hnext].
  intros [E|H]; [inversion E; lia|].
  destruct (length rest <? length l); [|auto].
  apply IH in H. lia.
Qed.

End ScanOffsets.

Lemma replace_ci a b :
  map ascii_lower a = map ascii_lower b ->
  map ascii_lower (replace NNBSP SPACE a) = map ascii_lower (replace NNBSP SPACE b).
Proof.
  revert b; induction a as [|x a IH]; intros [|y b] H; try discriminate; [reflexivity|].
  inversion H as [[Hx Ha]]. cbn [replace map]. fold (replace NNBSP SPACE a).
  fold (replace NNBSP SPACE b). rewrite (IH b Ha). f_equal.
  unfold ascii_lower, in_range, NNBSP, SPACE in *. char_solve.
Qed.

Section MarkerScan.

Variable Nd : char -> bool.
Variable digit_value : char -> Z.
Hypothesis Nd_ok : decimal_table Nd.

Lemma preprocess_key data data' :
  map (key Nd digit_value) (findall Nd pattern (replace NNBSP SPACE data'))
  = map (key Nd digit_value) (findall Nd pattern (replace NNBSP SPACE data)) ->
  preprocess Nd digit_value data' = preprocess Nd digit_value data.
Proof.
  intros H. unfold preprocess. rewrite !map_map, !combine_map, !map_map.
  cbn [fst snd]. fold user_message.
  change (map (fun x => to_datetime Nd digit_value (group 1 x)))
    with (map (fun x => fst (key Nd digit_value x))).
  change (map (fun x => split_user_message (user_message x)))
    with (map (fun x => split_user_message (snd (key Nd digit_value x)))).
  rewrite <- !(map_map (key Nd digit_value) (fun k => fst k)).
  rewrite <- !(map_map (key Nd digit_value) (fun k => split_user_message (snd k))).
  now rewrite H.
Qed.

Lemma datetime_prefix_suffix l r :
  datetime_prefix Nd l = Some r -> exists pre, l = pre ++ r.
Proof.
  unfold datetime_prefix.
  destruct (steps_run Nd (date_steps ++ time_steps) l) as [r0|] eqn:E; [|discriminate].
  apply steps_run_suffix in E as [pre ->].
  destruct r0 as [|x [|y r0]]; cbn; try discriminate.
  destruct (_ && _); [|discriminate]. intros H. inversion H; subst.
  exists (pre ++ [x; y]). now rewrite <- app_assoc.
Qed.

Lemma datetime_prefix_marker P mk mk' q :
  datetime_prefix Nd (P ++ mk ++ q) = Some q ->
  map ascii_lower mk' = map ascii_lower mk ->
  datetime_prefix Nd (P ++ mk' ++ q) = Some q.
Proof.
  intros H Hmk.
  assert (Hal : alike (length (mk ++ q)) (P ++ mk ++ q) (P ++ mk' ++ q)).
  { split.
    - apply Forall2_app; [apply Forall2_ci_refl|].
      apply Forall2_app; [|apply Forall2_ci_refl]. apply map_lower_ci. now symmetry.
    - rewrite !length_app.
      replace (length P + (length mk + length q) - (length mk + length q))
        with (length P) by lia.
      now rewrite !firstn_app, !firstn_all, Nat.sub_diag, !app_nil_r. }
  pose proof (run_alike Nd Nd_ok (length (mk ++ q))
                (seq_of (map step_re (date_steps ++ time_steps)) am_pm)
                eq_refl _ _ Hal) as HF.
  rewrite !run_datetime in HF by assumption. rewrite H in HF.
  destruct (datetime_prefix Nd (P ++ mk' ++ q)) as [r'|] eqn:E; [|inversion HF].
  inversion HF as [|? ? ? ? [Ha _] _]; subst. cbn [snd] in Ha.
  apply alike_length in Ha.
  apply datetime_prefix_suffix in E as [pre E].
  assert (Hmk' : length mk' = length mk).
  { apply (f_equal (@length char)) in Hmk. now rewrite !length_map in Hmk. }
  rewrite !app_assoc in E. apply app_eq_length in E as [_ ->]; auto.
Qed.

(** The entry whose marker is rewritten: same sender, same message
    text, same rest, and the date and time with the new marker. *)
Lemma entry_at_marker P mk mk' q caps rest :
  entry_at Nd (P ++ mk ++ q) = Some (caps, rest) ->
  group 1 caps = P ++ mk ->
  length mk = 2 -> map ascii_lower mk' = map ascii_lower mk ->
  exists caps',
    entry_at Nd (P ++ mk' ++ q) = Some (caps', rest)
    /\ key Nd digit_value caps' = key Nd digit_value caps /\ length rest < length (P ++ mk ++ q).
Proof.
  intros H Hg Hlen Hmk.
  assert (Hmk' : length mk' = length mk).
  { apply (f_equal (@length char)) in Hmk. now rewrite !length_map in Hmk. }
  unfold entry_at in H.
  destruct (datetime_prefix Nd (P ++ mk ++ q)) as [r1|] eqn:E1; [|discriminate].
  assert (r1 = q /\ firstn (length (P ++ mk ++ q) - length r1) (P ++ mk ++ q) = P ++ mk)
    as [-> Hf].
  { destruct (datetime_prefix_suffix _ _ E1) as [pre1 Ep].
    assert (Hpre : firstn (length (P ++ mk ++ q) - length r1) (P ++ mk ++ q) = pre1).
    { rewrite Ep, length_app.
      replace (length pre1 + length r1 - length r1) with (length pre1) by lia.
      now rewrite firstn_app, firstn_all, Nat.sub_diag, app_nil_r. }
    destruct (steps_run Nd [One CSpace; One (CLit 45); One CSpace] r1) as [r2|];
      [|discriminate].
    destruct (1 <=? span Nd (CNot COLON) (length r2) r2); [|discriminate].
    destruct (steps_run Nd [One (CLit 58); One CSpace] _) as [[|x r4]|];
      try discriminate.
    inversion H; subst caps. cbn [group Nat.eqb] in Hg.
    rewrite Hpre in Hg. subst pre1. rewrite Hpre.
    split; [|reflexivity].
    rewrite app_assoc in Ep. now apply app_inv_head in Ep. }
  unfold entry_at. rewrite (datetime_prefix_marker P mk mk' q E1 Hmk).
  destruct (steps_run Nd [One CSpace; One (CLit 45); One CSpace] q) as [r2|] eqn:E2;
    [|discriminate].
  destruct (1 <=? span Nd (CNot COLON) (length r2) r2); [|discriminate].
  destruct (steps_run Nd [One (CLit 58); One CSpace] _) as [[|x r4]|] eqn:E3;
    try discriminate.
  inversion H; subst caps rest. eexists. split; [reflexivity|]. split.
  - unfold key, user_message. cbn [group Nat.eqb]. f_equal.
    rewrite Hf.
    replace (firstn (length (P ++ mk' ++ q) - length q) (P ++ mk' ++ q))
      with (P ++ mk').
    + now apply to_datetime_marker.
    + rewrite app_assoc, length_app.
      replace (length (P ++ mk') + length q - length q) with (length (P ++ mk')) by lia.
      now rewrite firstn_app, firstn_all, Nat.sub_diag, app_nil_r.
  - apply steps_run_suffix in E2 as [p2 E2].
    apply steps_run_suffix in E3 as [p3 E3].
    pose proof (body_end_app Nd r4) as Hb.
    apply (f_equal (@length char)) in E2, E3, Hb.
    rewrite length_app in E2, E3, Hb. cbn [length] in E3.
    rewrite length_skipn in E3. rewrite !length_app.
    unfold text, char in *. lia.
Qed.

End MarkerScan.

Lemma alike_app a b b' : Forall2 ci b b' -> alike (length b) (a ++ b) (a ++ b').
Proof.
  intros H. split.
  - apply Forall2_app; [apply Forall2_ci_refl|assumption].
  - rewrite length_app. replace (length a + length b - length b) with (length a) by lia.
    now rewrite !firstn_app, !firstn_all, Nat.sub_diag, !app_nil_r.
Qed.

Section MarkerCase.

Variable Nd : char -> bool.
Variable digit_value : char -> Z.
Hypothesis Nd_ok : decimal_table Nd.

Variables P mk mk' q : text.
Hypothesis Hlen : length mk = 2.
Hypothesis Hmk : map ascii_lower mk' = map ascii_lower mk.

Let T := P ++ mk ++ q.
Let T' := P ++ mk' ++ q.

Lemma T_length : length T' = length T.
Proof.
  unfold T, T'. rewrite !length_app.
  apply (f_equal (@length char)) in Hmk. rewrite !length_map in Hmk. lia.
Qed.

Lemma T_alike a : alike (length (mk ++ q)) (a ++ T) (a ++ T').
Proof.
  unfold T, T'. rewrite !(app_assoc a P).
  replace (length (mk ++ q)) with (length (mk ++ q)) by reflexivity.
  apply alike_app. apply Forall2_app; [|apply Forall2_ci_refl].
  apply map_lower_ci. now symmetry.
Qed.

(** The scan of the text with the marker rewritten finds the same
    entries, provided the scan reaches the entry of the marker. *)
Lemma scan_marker fuel : forall a pos caps,
  length (a ++ T) < fuel ->
  In (pos + length a, caps) (finditer_from Nd fuel pos pattern (a ++ T)) ->
  group 1 caps = P ++ mk ->
  map (key Nd digit_value) (findall_from Nd fuel pattern (a ++ T'))
  = map (key Nd digit_value) (findall_from Nd fuel pattern (a ++ T)).
Proof.
  induction fuel as [|f IH]; intros a pos caps Hfuel Hin Hg; [lia|].
  rewrite !findall_from_S. rewrite finditer_from_S in Hin. cbn zeta in *.
  pose proof (match_here_alike Nd Nd_ok (length (mk ++ q)) pattern
                (a ++ T) (a ++ T') eq_refl (T_alike a)) as Hm.
  assert (HlT : length (a ++ T') = length (a ++ T))
    by (rewrite !length_app, T_length; reflexivity).
  destruct a as [|x a'].
  - cbn [app length] in *. rewrite Nat.add_0_r in Hin.
    destruct (match_here Nd pattern T) as [[c0 rest]|] eqn:E.
    + assert (caps = c0).
      { destruct Hin as [Ein|Hin]; [now inversion Ein|]. exfalso.
        destruct (Nat.ltb_spec (length rest) (length T)).
        - apply finditer_offsets in Hin. lia.
        - destruct T; [destruct Hin|]. apply finditer_offsets in Hin. lia. }
      subst c0. rewrite match_here_pattern in E by assumption.
      destruct (entry_at_marker Nd digit_value Nd_ok P mk mk' q caps rest E Hg Hlen Hmk)
        as [caps' [E' [Hk Hlt]]].
      rewrite match_here_pattern by assumption. fold T' in E'. rewrite E'.
      rewrite HlT. fold T in Hlt.
      destruct (Nat.ltb_spec (length rest) (length T)); [|lia].
      cbn [map]. now rewrite Hk.
    + exfalso. destruct T; [destruct Hin|]. apply finditer_offsets in Hin. lia.
  - cbn [app] in *.
    destruct (match_here Nd pattern (x :: a' ++ T)) as [[c rest]|] eqn:E;
      destruct (match_here Nd pattern (x :: a' ++ T')) as [[c' rest']|] eqn:E';
      try contradiction.
    + destruct Hm as [Ha Hc]. cbn [fst snd] in Ha, Hc.
      pose proof (alike_length _ _ _ Ha) as Hlr.
      destruct Hin as [Ein|Hin]; [inversion Ein; cbn [length] in *; lia|].
      rewrite Hlr, HlT.
      destruct (Nat.ltb_spec (length rest) (length (x :: a' ++ T))) as [Hlt|Hge].
      * pose proof (finditer_offsets _ _ _ _ _ _ _ Hin) as Hoff.
        destruct (match_here_suffix Nd pattern _ _ _ E) as [pre0 Epre].
        assert (Hp0 : length (x :: a' ++ T) = length pre0 + length rest)
          by (rewrite Epre at 1; apply length_app).
        destruct (app_split_suffix pre0 (x :: a') T rest Epre) as [a2 [Ea2 Er]].
        { cbn [length] in *. rewrite length_app in Hp0, Hoff. lia. }
        assert (Er' : rest' = a2 ++ T').
        { destruct (match_here_suffix Nd pattern _ _ _ E') as [pre0' Epre'].
          change (x :: a' ++ T') with ((x :: a') ++ T') in Epre'.
          rewrite Ea2, <- app_assoc in Epre'.
          apply app_eq_length in Epre' as [_ Epre']; [now symmetry|].
          rewrite Hlr, Er, !length_app, T_length. reflexivity. }
        assert (Hcc : c = c').
        { apply Hc. rewrite Er, length_app. unfold T. rewrite !length_app. lia. }
        subst c' rest rest'. cbn [map]. f_equal.
        apply (IH a2 (pos + length pre0) caps).
        -- cbn [length] in *. lia.
        -- replace (pos + length pre0 + length a2) with (pos + length (x :: a')).
           ++ replace (pos + length pre0)
                with (pos + (length (x :: a' ++ T) - length (a2 ++ T))) by lia.
              exact Hin.
           ++ rewrite Ea2, length_app. lia.
        -- exact Hg.
      * assert (Hcc : c = c').
        { apply Hc. cbn [length] in Hge. rewrite length_app in Hge. unfold T in Hge.
          rewrite !length_app in *. lia. }
        subst c'. cbn [map]. f_equal.
        apply (IH a' (S pos) caps); [cbn [length] in *; lia| |exact Hg].
        replace (S pos + length a') with (pos + length (x :: a')) by (cbn; lia).
        exact Hin.
    + apply (IH a' (S pos) caps); [cbn [length] in *; lia| |exact Hg].
      replace (S pos + length a') with (pos + length (x :: a')) by (cbn; lia).
      exact Hin.
Qed.

End MarkerCase.

(** C10: the marker of a matched entry (the last two characters of its
    date and time, at offset [length pre] of the transcript) can be
    written in any letter case: the rows parsed, timestamps included, are
    the same. *)
Theorem marker_case_insensitive Nd dv pre P mk mk' post caps :
  decimal_table Nd ->
  In (length pre, caps)
     (finditer Nd pattern (replace NNBSP SPACE (pre ++ P ++ mk ++ post))) ->
  group 1 caps = replace NNBSP SPACE (P ++ mk) ->
  length mk = 2 ->
  map ascii_lower mk' = map ascii_lower mk ->
  preprocess Nd dv (pre ++ P ++ mk' ++ post) = preprocess Nd dv (pre ++ P ++ mk ++ post).
Proof.
  intros Hok Hin Hg Hlen Hmk. apply preprocess_key.
  rewrite !replace_app in *. unfold findall, finditer in *.
  assert (Hl : length (replace NNBSP SPACE mk') = length (replace NNBSP SPACE mk)).
  { unfold replace. rewrite !length_map.
    apply (f_equal (@length char)) in Hmk. now rewrite !length_map in Hmk. }
  replace (length (replace NNBSP SPACE pre ++ replace NNBSP SPACE P
                   ++ replace NNBSP SPACE mk' ++ replace NNBSP SPACE post))
    with (length (replace NNBSP SPACE pre ++ replace NNBSP SPACE P
                  ++ replace NNBSP SPACE mk ++ replace NNBSP SPACE post))
    by (rewrite !length_app, Hl; reflexivity).
  apply (scan_marker Nd dv Hok (replace NNBSP SPACE P) (replace NNBSP SPACE mk)
           (replace NNBSP SPACE mk') (replace NNBSP SPACE post))
    with (pos := 0) (caps := caps).
  - unfold replace. now rewrite length_map.
  - now apply replace_ci.
  - lia.
  - cbn [Nat.add]. unfold replace at 1. rewrite length_map. exact Hin.
  - exact Hg.
Qed.

Lemma marker_case_insensitive_witness :
  preprocess ascii_Nd ascii_digit_value
    (str "1/1/23, 9:59 am - Ann: first
" ++ str "1/1/23, 10:05 " ++ str "Pm" ++ str " - Bob: I am here")
  = preprocess ascii_Nd ascii_digit_value
    (str "1/1/23, 9:59 am - Ann: first
" ++ str "1/1/23, 10:05 " ++ str "pm" ++ str " - Bob: I am here").
Proof.
  apply (marker_case_insensitive ascii_Nd ascii_digit_value
           (str "1/1/23, 9:59 am - Ann: first
") (str "1/1/23, 10:05 ") (str "pm") (str "Pm") (str " - Bob: I am here")
           [(3, str "I am here"); (2, str "Bob"); (1, str "1/1/23, 10:05 pm")]
           ascii_table_ok).
  - vm_compute. right. left. reflexivity.
  - reflexivity.
  - reflexivity.
  - reflexivity.
Defined.

Example marker_case_rows :
  preprocess ascii_Nd ascii_digit_value (str "1/1/23, 10:05 PM - Bob: I am here")
  = Some [row_of (mkTimestamp 2023 1 1 22 5) (str "Bob") (str "I am here")]
  /\ preprocess ascii_Nd ascii_digit_value (str "1/1/23, 10:05 pM - Bob: I am here")
     = Some [row_of (mkTimestamp 2023 1 1 22 5) (str "Bob") (str "I am here")].
Proof. split; vm_compute; reflexivity. Qed.

(* ------------------------------------------------------------------ *)
(** ** The analytics: properties *)

(** C6 fails on the code: the links are extracted from the messages of
    the whole frame, not of the selected sender, so every scope gets the
    count of "Overall". *)
Theorem url_count_ignores_scope (find_urls : text -> list text) (is_emoji : char -> bool)
        (selected_user : text) (df : list Row) :
  url_count (fetch_stats find_urls is_emoji selected_user df)
  = url_count (fetch_stats find_urls is_emoji OVERALL df)
  /\ url_count (fetch_stats find_urls is_emoji selected_user df)
     = length (flat_map (fun r => find_urls (Message r)) df).
Proof. split; reflexivity. Qed.

(** With only Alice selected, the links of Bob's message are counted. *)
Example url_count_of_other_sender (find_urls : text -> list text) (is_emoji : char -> bool) :
  fetch_stats find_urls is_emoji (str "Alice")
    [ row_of monday_10 (str "Alice") (str "hi");
      row_of monday_10 (str "Bob") (str "see http://x.com") ]
  = (1, 1, 0, length (filter is_emoji (str "hi")) + 0,
     length (find_urls (str "hi") ++ find_urls (str "see http://x.com") ++ [])).
Proof. reflexivity. Qed.

Lemma insert_Z_In s l h : In h (insert_Z s l) <-> h = s \/ In h l.
Proof.
  induction l as [|k l IH]; cbn.
  - intuition.
  - destruct (Z.compare_spec s k) as [->|Hlt|Hgt]; cbn; rewrite ?IH; intuition.
Qed.

Lemma sorted_Z_In l h : In h (sorted_Z l) <-> In h l.
Proof.
  induction l as [|x l IH]; cbn; [reflexivity|].
  rewrite insert_Z_In, IH. intuition.
Qed.

Lemma insert_Z_sorted s l :
  StronglySorted Z.lt l -> StronglySorted Z.lt (insert_Z s l).
Proof.
  induction 1 as [|k l Hs IH Hk]; cbn.
  - repeat constructor.
  - destruct (Z.compare_spec s k) as [->|Hlt|Hgt].
    + now constructor.
    + constructor; [now constructor|]. constructor; [assumption|].
      eapply Forall_impl; [|exact Hk]. cbn. intros; lia.
    + constructor; [assumption|]. apply Forall_forall. intros h Hh.
      apply insert_Z_In in Hh as [->|Hh]; [lia|].
      rewrite Forall_forall in Hk. auto.
Qed.

Lemma sorted_Z_sorted l : StronglySorted Z.lt (sorted_Z l).
Proof.
  induction l as [|x l IH]; cbn; [constructor|]. now apply insert_Z_sorted.
Qed.

(** An increasing list of integers between [lo] and [hi] has at most
    [hi - lo] elements. *)
Lemma sorted_range_length l : forall lo hi,
  StronglySorted Z.lt l -> Forall (fun h => (lo <= h < hi)%Z) l ->
  (Z.of_nat (length l) <= Z.max 0 (hi - lo))%Z.
Proof.
  induction l as [|x l IH]; intros lo hi Hs Hr; cbn [length]; [lia|].
  inversion Hs as [|? ? Hs' Hx]; subst. inversion Hr as [|? ? Hx' Hr']; subst.
  specialize (IH (x + 1)%Z hi Hs').
  assert (Forall (fun h => (x + 1 <= h < hi)%Z) l).
  { rewrite Forall_forall in *. intros h Hh. specialize (Hx h Hh). specialize (Hr' h Hh). lia. }
  specialize (IH H). lia.
Qed.

Lemma filter_length_le {A : Type} (f : A -> bool) (l : list A) :
  length (filter f l) <= length l.
Proof. induction l as [|x l IH]; cbn; [lia|]. destruct (f x); cbn; lia. Qed.

(* ---- sorting and counting ---- *)

Lemma insert_desc_perm {K : Type} (x : K * nat) l : Permutation (insert_desc x l) (x :: l).
Proof.
  induction l as [|y l IH]; cbn; [reflexivity|].
  destruct (snd y <=? snd x); [reflexivity|].
  rewrite IH. apply perm_swap.
Qed.

Lemma insert_desc_sorted {K : Type} (x : K * nat) l :
  descending l -> descending (insert_desc x l).
Proof.
  unfold descending. induction 1 as [|y l Hs IH Hy]; cbn.
  - repeat constructor.
  - destruct (Nat.leb_spec (snd y) (snd x)).
    + constructor; [now constructor|]. constructor; [assumption|].
      eapply Forall_impl; [|exact Hy]. cbn. intros; lia.
    + constructor; [assumption|].
      apply Forall_forall. intros z Hz.
      apply (Permutation_in _ (insert_desc_perm x l)) in Hz.
      destruct Hz as [<-|Hz]; [lia|]. rewrite Forall_forall in Hy. auto.
Qed.

Lemma stable_sort_sorts : sorts_desc stable_sort_desc.
Proof.
  intros K l. induction l as [|x l [IHp IHs]]; cbn.
  - split; [reflexivity|constructor].
  - split; [|now apply insert_desc_sorted].
    rewrite insert_desc_perm. now constructor.
Qed.

Lemma text_cmp_eq a : forall b, text_cmp a b = Eq -> a = b.
Proof.
  induction a as [|x a IH]; intros [|y b]; cbn; try discriminate; [reflexivity|].
  destruct (N.compare_spec x y) as [->|?|?]; try discriminate.
  intros H. now rewrite (IH b H).
Qed.

Lemma insert_key_In s l k : In k (insert_key s l) <-> k = s \/ In k l.
Proof.
  induction l as [|x l IH]; cbn.
  - intuition.
  - destruct (text_cmp s x) eqn:E; cbn; rewrite ?IH; [|intuition|intuition].
    apply text_cmp_eq in E. subst. intuition.
Qed.

Lemma sorted_keys_In l k : In k (sorted_keys l) <-> In k l.
Proof.
  induction l as [|x l IH]; cbn; [reflexivity|].
  rewrite insert_key_In, IH. intuition.
Qed.

Lemma In_firstn {A : Type} n (l : list A) y : In y (firstn n l) -> In y l.
Proof.
  intros H. rewrite <- (firstn_skipn n l). apply in_or_app. now left.
Qed.

Lemma descending_firstn {K : Type} n (l : list (K * nat)) :
  descending l -> descending (firstn n l).
Proof.
  unfold descending. revert l; induction n as [|n IH]; intros l H; [constructor|].
  destruct H as [|x l Hs Hx]; cbn; constructor; auto.
  apply Forall_forall. intros y Hy. rewrite Forall_forall in Hx.
  apply Hx. now apply In_firstn in Hy.
Qed.

Lemma StronglySorted_app_cross {A : Type} (R : A -> A -> Prop) (a b : list A) :
  StronglySorted R (a ++ b) -> forall x y, In x a -> In y b -> R x y.
Proof.
  induction a as [|z a IH]; cbn; intros H x y Hx Hy; [contradiction|].
  inversion H as [|? ? Hs Hz]; subst. destruct Hx as [->|Hx].
  - rewrite Forall_forall in Hz. apply Hz. apply in_or_app. now right.
  - now apply IH.
Qed.

Lemma filter_pos {A : Type} (f : A -> bool) (l : list A) x :
  In x l -> f x = true -> 0 < length (filter f l).
Proof.
  intros Hin Hf. assert (H : In x (filter f l)) by (apply filter_In; auto).
  destruct (filter f l); [contradiction|cbn; lia].
Qed.

(** C7, as amended: [messages_per_user] returns at most 10 senders, each
    with the count of its substantive messages, ordered by that count
    descending, and no sender left out has more messages than one
    returned.  Nothing is said of the order of senders with equal counts:
    the grouping lists the senders in sorted order and the sort by count
    is not a stable one. *)
Theorem messages_per_user_top
        (sort_desc : forall K : Type, list (K * nat) -> list (K * nat)) (df : list Row) :
  sorts_desc sort_desc ->
  let res := messages_per_user sort_desc df in
  let count s := length (filter (fun r => text_eqb (Sender r) s) (filter_media df)) in
  length res <= 10
  /\ descending res
  /\ (forall s c, In (s, c) res -> c = count s /\ 0 < c)
  /\ (forall s, In s (map Sender (filter_media df)) -> ~ In s (map fst res) ->
      forall s' c', In (s', c') res -> count s <= c').
Proof.
  intros Hsort. cbv zeta. unfold messages_per_user.
  destruct (Hsort _ (size_by_sender (filter_media df))) as [Hperm Hdesc].
  repeat split.
  - apply firstn_le_length.
  - now apply descending_firstn.
  - apply In_firstn in H. apply (Permutation_in _ Hperm) in H.
    unfold size_by_sender in H. apply in_map_iff in H as [k [E _]]. now inversion E.
  - apply In_firstn in H. apply (Permutation_in _ Hperm) in H.
    unfold size_by_sender in H. apply in_map_iff in H as [k [E Hk]].
    inversion E; subst. apply (proj1 (sorted_keys_In _ _)) in Hk.
    apply in_map_iff in Hk as [r [Hr Hin]].
    apply (filter_pos _ _ r Hin). rewrite Hr. apply text_eqb_refl.
  - intros s Hs Hnot s' c' Hin.
    set (count := length (filter (fun r => text_eqb (Sender r) s) (filter_media df))).
    assert (Hall : In (s, count) (sort_desc _ (size_by_sender (filter_media df)))).
    { apply (Permutation_in _ (Permutation_sym Hperm)).
      unfold size_by_sender. apply in_map_iff. exists s. split; [reflexivity|].
      now apply sorted_keys_In. }
    rewrite <- (firstn_skipn 10) in Hall, Hdesc.
    apply in_app_or in Hall as [Hf|Hsk].
    + exfalso. apply Hnot. apply in_map_iff. exists (s, count). auto.
    + apply (StronglySorted_app_cross _ _ _ Hdesc (s', c') (s, count) Hin Hsk).
Qed.

Lemma messages_per_user_top_witness :
  let res := messages_per_user stable_sort_desc bob_then_alice in
  let count s := length (filter (fun r => text_eqb (Sender r) s)
                                (filter_media bob_then_alice)) in
  length res <= 10
  /\ descending res
  /\ (forall s c, In (s, c) res -> c = count s /\ 0 < c)
  /\ (forall s, In s (map Sender (filter_media bob_then_alice)) -> ~ In s (map fst res) ->
      forall s' c', In (s', c') res -> count s <= c').
Proof.
  exact (messages_per_user_top stable_sort_desc bob_then_alice stable_sort_sorts).
Defined.

(** C7 as stated fails: Bob writes first and Alice second, one message
    each; even when the sort by count keeps the order of equal counts,
    Alice comes first, because the grouping has put the senders in
    sorted order. *)
Lemma tie_not_in_first_seen_order :
  map Sender (filter_media bob_then_alice) = [str "Bob"; str "Alice"]
  /\ messages_per_user stable_sort_desc bob_then_alice
     = [(str "Alice", 1); (str "Bob", 1)].
Proof. split; vm_compute; reflexivity. Qed.

(* ---- shares ---- *)

Lemma sumZ_perm l l' : Permutation l l' -> sumZ l = sumZ l'.
Proof. unfold sumZ. induction 1; cbn; lia. Qed.

Lemma list_sum_perm l l' : Permutation l l' -> list_sum l = list_sum l'.
Proof. unfold list_sum. induction 1; cbn; lia. Qed.

Section Distinct.

Variable K : Type.
Variable eqb : K -> K -> bool.
Hypothesis eqb_eq : forall x y, eqb x y = true <-> x = y.

Lemma existsb_eqb x seen : existsb (eqb x) seen = true <-> In x seen.
Proof.
  rewrite existsb_exists. split.
  - intros [y [Hy E]]. apply eqb_eq in E. now subst.
  - intros H. exists x. split; [assumption|]. now apply eqb_eq.
Qed.

Lemma distinct_from_In l : forall seen x,
  In x (distinct_from eqb seen l) <-> In x l /\ ~ In x seen.
Proof.
  induction l as [|y l IH]; intros seen x; cbn; [tauto|].
  destruct (existsb (eqb y) seen) eqn:E.
  - apply existsb_eqb in E. rewrite IH. split.
    + intros [H1 H2]. auto.
    + intros [[->|H1] H2]; [contradiction|auto].
  - assert (Hn : ~ In y seen) by (rewrite <- existsb_eqb, E; discriminate).
    cbn. rewrite IH. cbn. split.
    + intros [->|[H1 H2]]; auto.
    + intros [[->|H1] H2]; [now left|].
      destruct (eqb y x) eqn:Eyx; [apply eqb_eq in Eyx; now left|].
      right. split; [assumption|]. intros [->|H]; [|contradiction].
      assert (eqb x x = true) by now apply eqb_eq. congruence.
Qed.

Lemma distinct_from_NoDup l : forall seen, NoDup (distinct_from eqb seen l).
Proof.
  induction l as [|y l IH]; intros seen; cbn; [constructor|].
  destruct (existsb (eqb y) seen); [apply IH|].
  constructor; [|apply IH]. rewrite distinct_from_In. cbn. tauto.
Qed.

Lemma distinct_In l x : In x (distinct eqb l) <-> In x l.
Proof. unfold distinct. rewrite distinct_from_In. cbn. tauto. Qed.

Lemma occurrences_le k l : occurrences eqb k l <= length l.
Proof. apply filter_length_le. Qed.

Lemma list_sum_cons a l : list_sum (a :: l) = a + list_sum l.
Proof. reflexivity. Qed.

Lemma indicator_zero ks x :
  ~ In x ks -> list_sum (map (fun k => if eqb k x then 1 else 0) ks) = 0.
Proof.
  induction ks as [|k ks IH]; intros H; [reflexivity|].
  cbn [map]. rewrite list_sum_cons.
  destruct (eqb k x) eqn:E.
  - apply eqb_eq in E. subst. exfalso. apply H. now left.
  - rewrite IH; [reflexivity|]. intros Hin. apply H. now right.
Qed.

(** Over keys without repetition, one key at most is equal to [x]. *)
Lemma indicator_sum ks x :
  NoDup ks -> In x ks ->
  list_sum (map (fun k => if eqb k x then 1 else 0) ks) = 1.
Proof.
  induction 1 as [|k ks Hk Hnd IH]; [contradiction|].
  cbn [map]. rewrite list_sum_cons. intros [->|Hin].
  - replace (eqb x x) with true by (symmetry; now apply eqb_eq).
    now rewrite indicator_zero.
  - destruct (eqb k x) eqn:E.
    + apply eqb_eq in E. subst. contradiction.
    + now rewrite IH.
Qed.

(** The counts of the values of a list add up to its length. *)
Lemma occurrences_sum ks l :
  NoDup ks -> (forall x, In x l -> In x ks) ->
  list_sum (map (fun k => occurrences eqb k l) ks) = length l.
Proof.
  intros Hnd. induction l as [|x l IH]; intros Hall.
  - unfold occurrences. cbn [filter length]. clear.
    induction ks as [|k ks IHk]; [reflexivity|].
    cbn [map]. now rewrite list_sum_cons, IHk.
  - assert (E : list_sum (map (fun k => occurrences eqb k (x :: l)) ks)
                = list_sum (map (fun k => if eqb k x then 1 else 0) ks)
                  + list_sum (map (fun k => occurrences eqb k l) ks)).
    { clear. induction ks as [|k ks IHk]; [reflexivity|].
      cbn [map]. rewrite !list_sum_cons, IHk. unfold occurrences. cbn [filter].
      destruct (eqb k x); cbn [length]; lia. }
    rewrite E, IH by (intros; apply Hall; now right).
    rewrite (indicator_sum ks x Hnd) by (apply Hall; now left).
    reflexivity.
Qed.

End Distinct.

Lemma exact_percent_prints : prints_share exact_percent_2f.
Proof.
  intros c t Ht Hc. unfold exact_percent_2f.
  set (a := (20000 * Z.of_nat c + Z.of_nat t)%Z).
  set (b := (2 * Z.of_nat t)%Z).
  assert (Hb : (0 < b)%Z) by (unfold b; lia).
  pose proof (Z.div_mod a b ltac:(lia)) as Hdm.
  pose proof (Z.mod_pos_bound a b Hb) as Hm.
  unfold a, b in *. nia.
Qed.

Section Shares.

Variable percent_2f : nat -> nat -> Z.
Hypothesis prints : prints_share percent_2f.
Variable t : nat.
Hypothesis t_pos : 0 < t.

Lemma shares_error cs :
  (forall c, In c cs -> c <= t) ->
  (Z.abs (sumZ (map (fun c => percent_2f c t * Z.of_nat t - 10000 * Z.of_nat c)%Z cs))
   <= Z.of_nat (length cs) * Z.of_nat t)%Z.
Proof.
  induction cs as [|c cs IH]; intros H; cbn [map sumZ fold_right length].
  - cbn. lia.
  - fold (sumZ (map (fun c => percent_2f c t * Z.of_nat t - 10000 * Z.of_nat c)%Z cs)).
    pose proof (prints c t t_pos (H c (or_introl eq_refl))) as Hc.
    specialize (IH (fun c' Hc' => H c' (or_intror Hc'))). lia.
Qed.

Lemma shares_total cs :
  sumZ (map (fun c => percent_2f c t * Z.of_nat t - 10000 * Z.of_nat c)%Z cs)
  = (Z.of_nat t * sumZ (map (fun c => percent_2f c t) cs)
     - 10000 * Z.of_nat (list_sum cs))%Z.
Proof.
  induction cs as [|c cs IH]; cbn [map sumZ fold_right list_sum]; [cbn; lia|].
  fold (sumZ (map (fun c => percent_2f c t * Z.of_nat t - 10000 * Z.of_nat c)%Z cs)).
  fold (sumZ (map (fun c => percent_2f c t) cs)). fold (list_sum cs).
  rewrite IH. lia.
Qed.

Lemma shares_bound cs :
  (forall c, In c cs -> c <= t) -> list_sum cs = t ->
  (Z.abs (sumZ (map (fun c => percent_2f c t) cs) - 10000) <= Z.of_nat (length cs))%Z.
Proof.
  intros Hle Hsum. pose proof (shares_error cs Hle) as He.
  rewrite shares_total, Hsum in He. nia.
Qed.

End Shares.

(** C8: for a non-empty frame, the shares of [avg_msg_per_user] (in
    hundredths of a percent) add up to 100.00 within 0.01 for each
    sender listed. *)
Theorem shares_sum_to_100
        (sort_desc : forall K : Type, list (K * nat) -> list (K * nat))
        (percent_2f : nat -> nat -> Z) (df : list Row) :
  sorts_desc sort_desc -> prints_share percent_2f -> df <> [] ->
  let res := avg_msg_per_user sort_desc percent_2f df in
  (Z.abs (sumZ (map snd res) - 10000) <= Z.of_nat (length res))%Z.
Proof.
  intros Hsort Hprint Hne. cbv zeta. unfold avg_msg_per_user, value_counts.
  set (senders := map Sender df).
  set (base := map (fun k => (k, occurrences text_eqb k senders)) (distinct text_eqb senders)).
  destruct (Hsort _ base) as [Hperm _].
  rewrite map_map, length_map. cbn [snd].
  rewrite (sumZ_perm _ _ (Permutation_map (fun sc => percent_2f (snd sc) (length df)) Hperm)).
  rewrite (Permutation_length Hperm).
  replace (map (fun sc => percent_2f (snd sc) (length df)) base)
    with (map (fun c => percent_2f c (length df)) (map snd base))
    by (now rewrite map_map).
  replace (length base) with (length (map snd base)) by apply length_map.
  assert (Hcs : map snd base = map (fun k => occurrences text_eqb k senders)
                                   (distinct text_eqb senders))
    by (unfold base; now rewrite map_map).
  assert (Hlen : length senders = length df) by apply length_map.
  apply shares_bound.
  - assumption.
  - destruct df; [contradiction|cbn; lia].
  - intros c Hc. rewrite Hcs in Hc. apply in_map_iff in Hc as [k [<- _]].
    rewrite <- Hlen. apply occurrences_le.
  - rewrite Hcs, <- Hlen. apply (occurrences_sum text text_eqb text_eqb_eq).
    + apply distinct_from_NoDup. exact text_eqb_eq.
    + intros x Hx. now apply (distinct_In text text_eqb text_eqb_eq).
Qed.

Lemma shares_sum_to_100_witness :
  (Z.abs (sumZ (map snd (avg_msg_per_user stable_sort_desc exact_percent_2f three_rows))
          - 10000)
   <= Z.of_nat (length (avg_msg_per_user stable_sort_desc exact_percent_2f three_rows)))%Z.
Proof.
  apply (shares_sum_to_100 stable_sort_desc exact_percent_2f three_rows
           stable_sort_sorts exact_percent_prints).
  discriminate.
Defined.

Example shares_of_three_rows :
  avg_msg_per_user stable_sort_desc exact_percent_2f three_rows
  = [(str "Alice", 6667%Z); (str "Bob", 3333%Z)].
Proof. vm_compute. reflexivity. Qed.

(* ---- time series ---- *)

Lemma min_list_le l d : (min_list l d <= d)%Z /\ forall x, In x l -> (min_list l d <= x)%Z.
Proof.
  unfold min_list. induction l as [|y l [IH1 IH2]]; cbn; [split; [lia|contradiction]|].
  split; [lia|]. intros x [->|Hx]; [lia|]. specialize (IH2 x Hx). lia.
Qed.

Lemma max_list_ge l d : (d <= max_list l d)%Z /\ forall x, In x l -> (x <= max_list l d)%Z.
Proof.
  unfold max_list. induction l as [|y l [IH1 IH2]]; cbn; [split; [lia|contradiction]|].
  split; [lia|]. intros x [->|Hx]; [lia|]. specialize (IH2 x Hx). lia.
Qed.

Lemma min_list_In l d : In d l -> In (min_list l d) l.
Proof.
  unfold min_list. intros Hd.
  assert (H : forall l', In (fold_right Z.min d l') l' \/ fold_right Z.min d l' = d).
  { induction l' as [|y l' IH]; cbn; [now right|].
    destruct (Z.min_spec y (fold_right Z.min d l')) as [[_ ->]|[_ ->]]; [now left; left|].
    destruct IH; auto. }
  destruct (H l) as [H1|H1]; [assumption|now rewrite H1].
Qed.

Lemma max_list_In l d : In d l -> In (max_list l d) l.
Proof.
  unfold max_list. intros Hd.
  assert (H : forall l', In (fold_right Z.max d l') l' \/ fold_right Z.max d l' = d).
  { induction l' as [|y l' IH]; cbn; [now right|].
    destruct (Z.max_spec y (fold_right Z.max d l')) as [[_ ->]|[_ ->]]; [|now left; left].
    destruct IH; auto. }
  destruct (H l) as [H1|H1]; [assumption|now rewrite H1].
Qed.

Lemma nth_error_map_seq {A : Type} (f : nat -> A) n i :
  i < n -> nth_error (map f (seq 0 n)) i = Some (f i).
Proof.
  intros H. rewrite nth_error_map.
  rewrite (nth_error_nth' (seq 0 n) 0) by (now rewrite length_seq).
  rewrite seq_nth by assumption. reflexivity.
Qed.

Lemma resample_cons unit_of width r0 rest :
  resample unit_of width (r0 :: rest) =
  let units := map (fun r => unit_of (date r)) (r0 :: rest) in
  let first := min_list units (unit_of (date r0)) in
  let last := max_list units (unit_of (date r0)) in
  map (fun k =>
         let lo := (first + width * Z.of_nat k)%Z in
         (lo, filter (fun r => (lo <=? unit_of (date r))%Z
                               && (unit_of (date r) <? lo + width)%Z) (r0 :: rest)))
      (seq 0 (S (Z.to_nat ((last - first) / width)))).
Proof. reflexivity. Qed.

(** C5, as amended: the sentiment series is not sparse.  It has a row for
    each 7-day window from the one that starts on the day of the earliest
    substantive message to the one that holds the latest, in order and
    without gaps; every substantive message lies in one of them; and the
    row of a window without a substantive message is there all the same,
    with no mean (NaN). *)
Theorem sentiment_windows (score : Type) (polarity : text -> score)
        (mean : list score -> score) (df : list Row) :
  let text_df := filter_media df in
  let rows := sentiment_time_series score polarity mean df in
  let day_of := fun r => ts_days (date r) in
  (text_df = [] -> rows = [])
  /\ (text_df <> [] ->
      exists first last,
        In first (map day_of text_df) /\ In last (map day_of text_df)
        /\ (forall r, In r text_df -> (first <= day_of r <= last)%Z)
        /\ length rows = S (Z.to_nat ((last - first) / 7))
        /\ (forall i, i < length rows ->
              exists v, nth_error rows i = Some ((first + 7 * Z.of_nat i)%Z, v)
                        /\ (v = None <->
                            forall r, In r text_df ->
                                      ~ in_window (first + 7 * Z.of_nat i) r))
        /\ (forall r, In r text_df ->
              exists i, i < length rows /\ in_window (first + 7 * Z.of_nat i) r)).
Proof.
  cbv zeta. unfold sentiment_time_series.
  destruct (filter_media df) as [|r0 rest] eqn:Etd.
  - split; [reflexivity|]. intros H. contradiction.
  - split; [discriminate|]. intros _. rewrite resample_cons. cbv zeta.
    set (tdf := r0 :: rest). set (units := map (fun r => ts_days (date r)) tdf).
    assert (H0 : In (ts_days (date r0)) units) by (now left).
    exists (min_list units (ts_days (date r0))), (max_list units (ts_days (date r0))).
    pose proof (min_list_le units (ts_days (date r0))) as [_ Hmin].
    pose proof (max_list_ge units (ts_days (date r0))) as [_ Hmax].
    set (first := min_list units (ts_days (date r0))) in *.
    set (last := max_list units (ts_days (date r0))) in *.
    assert (Hrange : forall r, In r tdf -> (first <= ts_days (date r) <= last)%Z).
    { intros r Hr. assert (In (ts_days (date r)) units) by (apply in_map_iff; eauto).
      split; auto. }
    rewrite !length_map, length_seq.
    split; [now apply min_list_In|]. split; [now apply max_list_In|].
    split; [exact Hrange|]. split; [reflexivity|]. split.
    + intros i Hi. eexists. split.
      * rewrite map_map. rewrite nth_error_map_seq by assumption. cbn [fst snd]. reflexivity.
      * cbn [snd]. unfold in_window.
        set (w := filter _ tdf).
        assert (Hw : forall r, In r w <-> In r tdf /\
                       (first + 7 * Z.of_nat i <= ts_days (date r)
                        < first + 7 * Z.of_nat i + 7)%Z).
        { intros r. unfold w. rewrite filter_In, andb_true_iff, Z.leb_le, Z.ltb_lt.
          reflexivity. }
        destruct w as [|r w']; split; try discriminate; try reflexivity.
        -- intros _ r Hr Hin. apply (proj2 (Hw r)). auto.
        -- intros Hnone. exfalso. destruct (proj1 (Hw r) (or_introl eq_refl)) as [Hr Hin].
           exact (Hnone r Hr Hin).
    + intros r Hr. destruct (Hrange r Hr) as [Hlo Hhi].
      exists (Z.to_nat ((ts_days (date r) - first) / 7)).
      assert (Hq : (0 <= (ts_days (date r) - first) / 7 <= (last - first) / 7)%Z).
      { split; [apply Z.div_pos; lia|apply Z.div_le_mono; lia]. }
      split; [lia|]. unfold in_window. rewrite Z2Nat.id by lia.
      pose proof (Z.div_mod (ts_days (date r) - first) 7 ltac:(lia)) as Hdm.
      pose proof (Z.mod_pos_bound (ts_days (date r) - first) 7 ltac:(lia)) as Hm.
      lia.
Qed.

(** C5 as stated fails: with a message on 1 January and the next on 20
    January, the window of 8 to 14 January has no message and has a row
    (with no mean). *)
Lemma empty_window_has_row :
  sentiment_time_series Z (fun _ => 0%Z) (fun _ => 0%Z) far_apart
  = [ (days_from_civil 2023 1 1, Some 0%Z);
      (days_from_civil 2023 1 8, None);
      (days_from_civil 2023 1 15, Some 0%Z) ].
Proof. vm_compute. reflexivity. Qed.

(* ---- empty selections ---- *)

Lemma sort_nil (sort_desc : forall K : Type, list (K * nat) -> list (K * nat)) (K : Type) :
  sorts_desc sort_desc -> sort_desc K [] = [].
Proof.
  intros H. destruct (H K []) as [Hp _].
  apply Permutation_nil. now apply Permutation_sym.
Qed.

(** C2, as amended: take a full frame with a row in it (so that its
    columns hold text) and any selection of it without a substantive
    message, empty or not.  Then [fetch_stats] counts 0 words and 0
    emojis, and [messages_per_user], [activity_heatmap], [daily_volume],
    [monthly_volume], [sentiment_time_series] and [top_emojis] return
    empty tables; when the selection has no row at all,
    [avg_msg_per_user] returns an empty table, with no division made, and
    [message_type_counts] zeros.  [top_n_words] and [generate_wordcloud]
    do raise: the vectorizer has an empty vocabulary and the word cloud
    no word. *)
Theorem empty_selection
        (find_urls : text -> list text) (is_emoji : char -> bool)
        (sort_desc : forall K : Type, list (K * nat) -> list (K * nat))
        (percent_2f : nat -> nat -> Z) (analyze : text -> list text)
        (score : Type) (polarity : text -> score) (mean : list score -> score)
        (cloud : Type) (process_text : text -> list (text * nat))
        (layout : list (text * nat) -> cloud)
        (df0 : list Row) (selected_user : text) (n_emojis n_words : nat) :
  sorts_desc sort_desc ->
  process_text [] = [] ->
  text_columns df0 = true ->
  filter_media (scope selected_user df0) = [] ->
  let df := scope selected_user df0 in
  fetch_stats find_urls is_emoji selected_user df0
  = (length df, 0, length (filter is_media df), 0,
     length (flat_map (fun r => find_urls (Message r)) df0))
  /\ messages_per_user sort_desc df = []
  /\ activity_heatmap df = mkPivot [] [] []
  /\ daily_volume df = []
  /\ monthly_volume df = []
  /\ sentiment_time_series score polarity mean df = []
  /\ top_emojis is_emoji sort_desc df n_emojis = []
  /\ (df = [] ->
      avg_msg_per_user sort_desc percent_2f df = []
      /\ message_type_counts df = (0, 0, 0))
  /\ top_n_words sort_desc analyze df n_words = None
  /\ generate_wordcloud cloud process_text layout df = None.
Proof.
  intros Hsort Hpt _ Hempty. cbv zeta.
  split; [|split; [|split; [|split; [|split; [|split; [|split; [|split; [|split]]]]]]]].
  - unfold fetch_stats. now rewrite Hempty.
  - unfold messages_per_user. rewrite Hempty. cbn. now rewrite sort_nil.
  - unfold activity_heatmap. now rewrite Hempty.
  - unfold daily_volume. now rewrite Hempty.
  - unfold monthly_volume. now rewrite Hempty.
  - unfold sentiment_time_series. now rewrite Hempty.
  - unfold top_emojis, value_counts. rewrite Hempty. cbn.
    rewrite sort_nil by assumption. now destruct n_emojis.
  - intros ->. split; [|reflexivity].
    unfold avg_msg_per_user, value_counts. cbn. now rewrite sort_nil.
  - unfold top_n_words. rewrite Hempty. now destruct n_words.
  - unfold generate_wordcloud. rewrite Hempty. cbn. now rewrite Hpt.
Qed.

Lemma empty_selection_witness :
  (let df := scope (str "Bob") media_only in
   fetch_stats (fun _ => []) (fun _ => false) (str "Bob") media_only
   = (length df, 0, length (filter is_media df), 0,
      length (flat_map (fun r : Row => @nil text) media_only))
   /\ messages_per_user stable_sort_desc df = []
   /\ activity_heatmap df = mkPivot [] [] []
   /\ daily_volume df = []
   /\ monthly_volume df = []
   /\ sentiment_time_series Z (fun _ => 0%Z) (fun _ => 0%Z) df = []
   /\ top_emojis (fun _ => false) stable_sort_desc df 10 = []
   /\ (df = [] ->
       avg_msg_per_user stable_sort_desc exact_percent_2f df = []
       /\ message_type_counts df = (0, 0, 0))
   /\ top_n_words stable_sort_desc split_ws df 20 = None
   /\ generate_wordcloud (list (text * nat)) words_of (fun f => f) df = None)
  /\ (let df := scope (str "Zed") three_rows in
      fetch_stats (fun _ => []) (fun _ => false) (str "Zed") three_rows
      = (length df, 0, length (filter is_media df), 0,
         length (flat_map (fun r : Row => @nil text) three_rows))
      /\ messages_per_user stable_sort_desc df = []
      /\ activity_heatmap df = mkPivot [] [] []
      /\ daily_volume df = []
      /\ monthly_volume df = []
      /\ sentiment_time_series Z (fun _ => 0%Z) (fun _ => 0%Z) df = []
      /\ top_emojis (fun _ => false) stable_sort_desc df 10 = []
      /\ (df = [] ->
          avg_msg_per_user stable_sort_desc exact_percent_2f df = []
          /\ message_type_counts df = (0, 0, 0))
      /\ top_n_words stable_sort_desc split_ws df 20 = None
      /\ generate_wordcloud (list (text * nat)) words_of (fun f => f) df = None).
Proof.
  split.
  - apply (empty_selection (fun _ => []) (fun _ => false) stable_sort_desc exact_percent_2f
             split_ws Z (fun _ => 0%Z) (fun _ => 0%Z) (list (text * nat)) words_of
             (fun f => f) media_only (str "Bob") 10 20 stable_sort_sorts);
      reflexivity.
  - apply (empty_selection (fun _ => []) (fun _ => false) stable_sort_desc exact_percent_2f
             split_ws Z (fun _ => 0%Z) (fun _ => 0%Z) (list (text * nat)) words_of
             (fun f => f) three_rows (str "Zed") 10 20 stable_sort_sorts);
      reflexivity.
Defined.

(** C2 as stated fails: for a sender whose only message is a media
    placeholder, [top_n_words] and [generate_wordcloud] raise. *)
Lemma top_words_raise_on_empty :
  filter_media media_only = []
  /\ top_n_words stable_sort_desc split_ws media_only 20 = None
  /\ generate_wordcloud (list (text * nat)) words_of (fun f => f) media_only = None.
Proof. repeat split. Qed.


(* ------------------------------------------------------------------ *)
(** ** More properties of the analytics *)

Lemma filter_idem {A : Type} (f : A -> bool) (l : list A) :
  filter f (filter f l) = filter f l.
Proof.
  induction l as [|x l IH]; cbn; [reflexivity|].
  destruct (f x) eqn:E; cbn; rewrite ?E, IH; reflexivity.
Qed.

Lemma filter_comm {A : Type} (f g : A -> bool) (l : list A) :
  filter f (filter g l) = filter g (filter f l).
Proof.
  induction l as [|x l IH]; cbn; [reflexivity|].
  destruct (f x) eqn:Ef, (g x) eqn:Eg; cbn; rewrite ?Ef, ?Eg, IH; reflexivity.
Qed.

(** X1: [filter_media] is idempotent: a frame it has filtered is left as it
    is. *)
Theorem filter_media_idempotent (df : list Row) :
  filter_media (filter_media df) = filter_media df.
Proof. apply filter_idem. Qed.

Lemma filter_media_of_scope (selected_user : text) (df : list Row) :
  filter_media (scope selected_user df) = scope selected_user (filter_media df).
Proof.
  unfold scope. destruct (text_eqb selected_user OVERALL); [reflexivity|].
  apply filter_comm.
Qed.

(** X2: Selecting a sender and dropping the messages that are not substantive
    can be done in either order, and the substantive messages of a
    selection are among those of the whole frame. *)
Theorem filter_media_scope (selected_user : text) (df : list Row) :
  filter_media (scope selected_user df) = scope selected_user (filter_media df)
  /\ length (filter_media (scope selected_user df)) <= length (filter_media df).
Proof.
  split; [apply filter_media_of_scope|].
  rewrite filter_media_of_scope. unfold scope.
  destruct (text_eqb selected_user OVERALL); [lia|apply filter_length_le].
Qed.

(** X3: [message_type_counts]: the text and media counts add up to the number
    of rows, and neither the media nor the link count exceeds it. *)
Theorem message_type_counts_total (df : list Row) :
  text_count (message_type_counts df) + media_count (message_type_counts df) = length df
  /\ media_count (message_type_counts df) <= length df
  /\ link_count (message_type_counts df) <= length df.
Proof.
  unfold message_type_counts, text_count, media_count, link_count. cbn [fst snd].
  pose proof (filter_length_le is_media df).
  pose proof (filter_length_le (fun r => contains (str "http") (Message r)) df).
  lia.
Qed.

(** X4: [fetch_stats] and [message_type_counts] agree on the selected frame:
    same media count, and the messages of the one are the text and media
    of the other. *)
Theorem fetch_stats_message_types (find_urls : text -> list text) (is_emoji : char -> bool)
        (selected_user : text) (df : list Row) :
  let st := fetch_stats find_urls is_emoji selected_user df in
  let mt := message_type_counts (scope selected_user df) in
  total_media st = media_count mt
  /\ total_messages st = text_count mt + media_count mt
  /\ total_media st <= total_messages st.
Proof.
  cbv zeta. unfold fetch_stats, message_type_counts, total_media, total_messages,
    text_count, media_count. cbn [fst snd].
  pose proof (filter_length_le is_media (scope selected_user df)). lia.
Qed.

(** *** Grouping by a key *)

Section Grouping.

Variables A K : Type.
Variable eqb : K -> K -> bool.
Hypothesis eqb_eq : forall x y, eqb x y = true <-> x = y.
Variable key : A -> K.
Variable w : A -> nat.

Lemma weight_zero ks y c :
  ~ In y ks -> list_sum (map (fun k => if eqb y k then c else 0) ks) = 0.
Proof.
  induction ks as [|k ks IH]; intros H; [reflexivity|].
  cbn [map]. rewrite list_sum_cons.
  destruct (eqb y k) eqn:E.
  - apply eqb_eq in E. subst. exfalso. apply H. now left.
  - rewrite IH; [reflexivity|]. intros Hin. apply H. now right.
Qed.

Lemma weight_once ks y c :
  NoDup ks -> In y ks -> list_sum (map (fun k => if eqb y k then c else 0) ks) = c.
Proof.
  induction 1 as [|k ks Hk Hnd IH]; [contradiction|].
  cbn [map]. rewrite list_sum_cons. intros [->|Hin].
  - replace (eqb y y) with true by (symmetry; now apply eqb_eq).
    rewrite weight_zero by assumption. lia.
  - destruct (eqb y k) eqn:E.
    + apply eqb_eq in E. subst. contradiction.
    + now rewrite IH.
Qed.

(** The groups of a list by a key lose nothing and count nothing twice. *)
Lemma group_sum ks l :
  NoDup ks -> (forall x, In x l -> In (key x) ks) ->
  list_sum (map (fun k => list_sum (map w (filter (fun x => eqb (key x) k) l))) ks)
  = list_sum (map w l).
Proof.
  intros Hnd. induction l as [|x l IH]; intros Hall.
  - cbn [filter map]. clear. induction ks as [|k ks IHk]; [reflexivity|].
    cbn [map]. now rewrite list_sum_cons, IHk.
  - assert (E : list_sum (map (fun k => list_sum (map w (filter (fun x => eqb (key x) k)
                                                              (x :: l)))) ks)
                = list_sum (map (fun k => if eqb (key x) k then w x else 0) ks)
                  + list_sum (map (fun k => list_sum (map w (filter (fun x => eqb (key x) k)
                                                                    l))) ks)).
    { clear. induction ks as [|k ks IHk]; [reflexivity|].
      cbn [map]. rewrite !list_sum_cons, IHk. cbn [filter].
      destruct (eqb (key x) k); cbn [map]; rewrite ?list_sum_cons; lia. }
    rewrite E, IH by (intros; apply Hall; now right).
    rewrite (weight_once ks (key x) (w x) Hnd) by (apply Hall; now left).
    cbn [map]. now rewrite list_sum_cons.
Qed.

End Grouping.

Lemma length_sum {A : Type} (l : list A) : list_sum (map (fun _ => 1) l) = length l.
Proof.
  induction l as [|x l IH]; [reflexivity|]. cbn [map length]. rewrite list_sum_cons. lia.
Qed.

Lemma filter_length_sum {A : Type} (p : A -> bool) (l : list A) :
  list_sum (map (fun x => if p x then 1 else 0) l) = length (filter p l).
Proof.
  induction l as [|x l IH]; [reflexivity|]. cbn [map filter]. rewrite list_sum_cons.
  destruct (p x); cbn [length]; lia.
Qed.

Lemma group_count {A K : Type} (eqb : K -> K -> bool)
      (eqb_eq : forall x y, eqb x y = true <-> x = y) (key : A -> K) ks (l : list A) :
  NoDup ks -> (forall x, In x l -> In (key x) ks) ->
  list_sum (map (fun k => length (filter (fun x => eqb (key x) k) l)) ks) = length l.
Proof.
  intros Hnd Hall. rewrite <- (length_sum l).
  rewrite <- (group_sum A K eqb eqb_eq key (fun _ => 1) ks l Hnd Hall).
  f_equal. apply map_ext. intros k. now rewrite length_sum.
Qed.

(** *** The order of the keys of a [groupby] *)

Lemma text_cmp_refl a : text_cmp a a = Eq.
Proof. induction a as [|x a IH]; cbn; [reflexivity|]. now rewrite N.compare_refl. Qed.

Lemma text_cmp_gt a : forall b, text_cmp a b = Gt -> text_lt b a.
Proof.
  unfold text_lt. induction a as [|x a IH]; intros [|y b]; cbn; try discriminate; [reflexivity|].
  rewrite (N.compare_antisym x y).
  destruct (N.compare x y); cbn; try discriminate; auto.
Qed.

Lemma text_lt_trans a : forall b c, text_lt a b -> text_lt b c -> text_lt a c.
Proof.
  unfold text_lt. induction a as [|x a IH]; intros [|y b] [|z c]; cbn; try discriminate; auto.
  destruct (N.compare_spec x y) as [->|Hxy|Hxy]; try discriminate.
  - destruct (N.compare_spec y z) as [->|Hyz|Hyz]; try discriminate; auto. apply IH.
  - intros _. destruct (N.compare_spec y z) as [->|Hyz|Hyz]; try discriminate; intros _.
    + now rewrite (proj2 (N.compare_lt_iff x z)).
    + rewrite (proj2 (N.compare_lt_iff x z)); [reflexivity|lia].
Qed.

Lemma text_lt_irrefl a : ~ text_lt a a.
Proof. unfold text_lt. rewrite text_cmp_refl. discriminate. Qed.

Lemma insert_key_sorted s l :
  StronglySorted text_lt l -> StronglySorted text_lt (insert_key s l).
Proof.
  induction 1 as [|k l Hs IH Hk]; cbn.
  - repeat constructor.
  - destruct (text_cmp s k) eqn:E.
    + now constructor.
    + constructor; [now constructor|]. constructor; [assumption|].
      eapply Forall_impl; [|exact Hk]. cbn. intros b Hb. exact (text_lt_trans _ _ _ E Hb).
    + constructor; [assumption|]. apply Forall_forall. intros h Hh.
      apply insert_key_In in Hh as [->|Hh]; [now apply text_cmp_gt|].
      rewrite Forall_forall in Hk. auto.
Qed.

Lemma sorted_keys_sorted l : StronglySorted text_lt (sorted_keys l).
Proof.
  induction l as [|x l IH]; cbn; [constructor|]. now apply insert_key_sorted.
Qed.

Lemma sorted_NoDup {A : Type} (R : A -> A -> Prop) (l : list A) :
  (forall x, ~ R x x) -> StronglySorted R l -> NoDup l.
Proof.
  intros Hirr. induction 1 as [|x l Hs IH Hx]; constructor; [|assumption].
  intros Hin. rewrite Forall_forall in Hx. exact (Hirr x (Hx x Hin)).
Qed.

Lemma sorted_keys_NoDup l : NoDup (sorted_keys l).
Proof. exact (sorted_NoDup text_lt _ text_lt_irrefl (sorted_keys_sorted l)). Qed.

Lemma sorted_Z_NoDup l : NoDup (sorted_Z l).
Proof. apply (sorted_NoDup Z.lt); [intros x; lia|apply sorted_Z_sorted]. Qed.

Lemma list_sum_firstn n (l : list nat) : list_sum (firstn n l) <= list_sum l.
Proof.
  revert l. induction n as [|n IH]; intros [|x l]; cbn [firstn]; rewrite ?list_sum_cons;
    try (cbn; lia). specialize (IH l). lia.
Qed.

Lemma NoDup_firstn {A : Type} n (l : list A) : NoDup l -> NoDup (firstn n l).
Proof.
  revert l. induction n as [|n IH]; intros l H; [constructor|].
  destruct H as [|x l Hx Hl]; cbn [firstn]; constructor; auto.
  intros Hin. apply Hx. now apply In_firstn in Hin.
Qed.

Lemma scope_sender s df :
  text_eqb s OVERALL = false ->
  scope s df = filter (fun r => text_eqb (Sender r) s) df.
Proof. unfold scope. now intros ->. Qed.

Lemma not_overall df s :
  existsb (text_eqb OVERALL) (map Sender df) = false ->
  In s (sorted_keys (map Sender df)) -> text_eqb s OVERALL = false.
Proof.
  intros H Hs. apply (proj1 (sorted_keys_In _ _)) in Hs.
  destruct (text_eqb s OVERALL) eqn:E; [|reflexivity].
  apply text_eqb_eq in E. subst.
  assert (Hx : existsb (text_eqb OVERALL) (map Sender df) = true)
    by (apply existsb_exists; exists OVERALL; split; [assumption|apply text_eqb_refl]).
  congruence.
Qed.

Lemma sender_sum (w : Row -> nat) (df l : list Row) :
  (forall r, In r l -> In r df) ->
  list_sum (map (fun s => list_sum (map w (filter (fun r => text_eqb (Sender r) s) l)))
                (sorted_keys (map Sender df)))
  = list_sum (map w l).
Proof.
  intros Hsub. apply (group_sum Row text text_eqb text_eqb_eq Sender w).
  - apply sorted_keys_NoDup.
  - intros r Hr. apply sorted_keys_In. apply in_map. now apply Hsub.
Qed.

Lemma filter_media_In df r : In r (filter_media df) -> In r df.
Proof. unfold filter_media. intros H. now apply filter_In in H. Qed.

(** X5: The numbers of [fetch_stats] for the senders add up to its numbers
    for "Overall", the link count apart, when no sender is called
    "Overall": messages, words, media and emojis of a frame are those of
    its senders taken together. *)
Theorem fetch_stats_by_sender (find_urls : text -> list text) (is_emoji : char -> bool)
        (df : list Row) :
  existsb (text_eqb OVERALL) (map Sender df) = false ->
  let senders := sorted_keys (map Sender df) in
  let st := fun s => fetch_stats find_urls is_emoji s df in
  list_sum (map (fun s => total_messages (st s)) senders) = total_messages (st OVERALL)
  /\ list_sum (map (fun s => total_words (st s)) senders) = total_words (st OVERALL)
  /\ list_sum (map (fun s => total_media (st s)) senders) = total_media (st OVERALL)
  /\ list_sum (map (fun s => total_emojis (st s)) senders) = total_emojis (st OVERALL).
Proof.
  intros Hno. cbv zeta.
  unfold fetch_stats, total_messages, total_words, total_media, total_emojis. cbn [fst snd].
  assert (Hov : scope OVERALL df = df) by reflexivity. rewrite Hov.
  repeat split.
  - rewrite <- (length_sum df), <- (sender_sum (fun _ => 1) df df (fun r H => H)).
    f_equal. apply map_ext_in. intros s Hs.
    rewrite (scope_sender s df (not_overall df s Hno Hs)). now rewrite length_sum.
  - rewrite <- (sender_sum (fun r => length (split_ws (Message r))) df (filter_media df)
                           (filter_media_In df)).
    f_equal. apply map_ext_in. intros s Hs.
    rewrite filter_media_of_scope, (scope_sender s _ (not_overall df s Hno Hs)). reflexivity.
  - rewrite <- (filter_length_sum is_media df),
            <- (sender_sum (fun r => if is_media r then 1 else 0) df df (fun r H => H)).
    f_equal. apply map_ext_in. intros s Hs.
    rewrite (scope_sender s df (not_overall df s Hno Hs)). now rewrite filter_length_sum.
  - rewrite <- (sender_sum (fun r => length (filter is_emoji (Message r))) df (filter_media df)
                           (filter_media_In df)).
    f_equal. apply map_ext_in. intros s Hs.
    rewrite filter_media_of_scope, (scope_sender s _ (not_overall df s Hno Hs)). reflexivity.
Qed.

Lemma fetch_stats_by_sender_witness :
  let st := fun s => fetch_stats (fun _ => []) (fun c => (128512 <=? c)%N) s three_rows in
  list_sum (map (fun s => total_messages (st s)) [str "Alice"; str "Bob"]) = 3
  /\ list_sum (map (fun s => total_words (st s)) [str "Alice"; str "Bob"]) = 2
  /\ list_sum (map (fun s => total_media (st s)) [str "Alice"; str "Bob"]) = 1
  /\ list_sum (map (fun s => total_emojis (st s)) [str "Alice"; str "Bob"]) = 0.
Proof.
  exact (fetch_stats_by_sender (fun _ => []) (fun c => (128512 <=? c)%N) three_rows
                               eq_refl).
Defined.

Lemma size_by_sender_keys df : map fst (size_by_sender df) = sorted_keys (map Sender df).
Proof. unfold size_by_sender. rewrite map_map. cbn [fst]. apply map_id. Qed.

Lemma size_by_sender_sum df : list_sum (map snd (size_by_sender df)) = length df.
Proof.
  unfold size_by_sender. rewrite map_map. cbn [snd].
  apply (group_count text_eqb text_eqb_eq Sender).
  - apply sorted_keys_NoDup.
  - intros r Hr. apply sorted_keys_In. now apply in_map.
Qed.

(** X6: [messages_per_user] lists no sender twice; its counts add up to at
    most the number of substantive messages, and to exactly that number
    when these have at most ten senders. *)
Theorem messages_per_user_total
        (sort_desc : forall K : Type, list (K * nat) -> list (K * nat)) (df : list Row) :
  sorts_desc sort_desc ->
  let res := messages_per_user sort_desc df in
  NoDup (map fst res)
  /\ list_sum (map snd res) <= length (filter_media df)
  /\ (length (sorted_keys (map Sender (filter_media df))) <= 10 ->
      list_sum (map snd res) = length (filter_media df)).
Proof.
  intros Hsort. cbv zeta. unfold messages_per_user.
  destruct (Hsort _ (size_by_sender (filter_media df))) as [Hperm _].
  set (sorted := sort_desc text (size_by_sender (filter_media df))) in *.
  assert (Hsum : list_sum (map snd sorted) = length (filter_media df)).
  { rewrite (list_sum_perm _ _ (Permutation_map snd Hperm)). apply size_by_sender_sum. }
  repeat split.
  - rewrite <- firstn_map. apply NoDup_firstn.
    apply (Permutation_NoDup (Permutation_sym (Permutation_map fst Hperm))).
    rewrite size_by_sender_keys. apply sorted_keys_NoDup.
  - rewrite <- Hsum, <- firstn_map. apply list_sum_firstn.
  - intros Hlen. rewrite firstn_all2; [exact Hsum|].
    rewrite (Permutation_length Hperm). unfold size_by_sender. now rewrite length_map.
Qed.

Lemma messages_per_user_total_witness :
  NoDup (map fst (messages_per_user stable_sort_desc three_rows))
  /\ list_sum (map snd (messages_per_user stable_sort_desc three_rows)) <= 2
  /\ (1 <= 10 -> list_sum (map snd (messages_per_user stable_sort_desc three_rows)) = 2).
Proof.
  exact (messages_per_user_total stable_sort_desc three_rows stable_sort_sorts).
Defined.

(** *** The cells of the heat map *)

Lemma filter_filter_and {A : Type} (f g : A -> bool) (l : list A) :
  filter g (filter f l) = filter (fun x => f x && g x) l.
Proof.
  induction l as [|x l IH]; cbn; [reflexivity|].
  destruct (f x); cbn; [destruct (g x)|]; now rewrite IH.
Qed.

Lemma weekday_range t : (0 <= weekday t < 7)%Z.
Proof. unfold weekday. apply Z.mod_pos_bound. lia. Qed.

Lemma day_name_In t : In (day_name t) days.
Proof.
  unfold day_name. apply nth_In.
  pose proof (weekday_range t). change (length days) with 7. lia.
Qed.

Lemma days_NoDup : NoDup days.
Proof.
  apply (NoDup_map_inv (firstn 2)). vm_compute.
  repeat constructor; cbn; intuition discriminate.
Qed.

Lemma existsb_text_eqb d (l : list text) : existsb (text_eqb d) l = true <-> In d l.
Proof.
  rewrite existsb_exists. split.
  - intros [x [Hx E]]. apply text_eqb_eq in E. now subst.
  - intros H. exists d. split; [assumption|apply text_eqb_refl].
Qed.

Lemma all_days_spec (l : list text) :
  forallb (fun d => existsb (text_eqb d) l) days = true <-> forall d, In d days -> In d l.
Proof.
  rewrite forallb_forall. split; intros H d Hd.
  - apply existsb_text_eqb. now apply H.
  - apply existsb_text_eqb. now apply H.
Qed.

(** The column labels of the heat map: the weekdays that occur, each
    once. *)
Lemma heatmap_columns (df : list Row) :
  let cols := columns (activity_heatmap df) in
  let weekdays := map (fun r => day_name (date r)) (filter_media df) in
  NoDup cols /\ (forall d, In d cols <-> In d weekdays) /\ length cols <= 7.
Proof.
  cbv zeta. unfold activity_heatmap. cbn [columns].
  set (weekdays := map (fun r => day_name (date r)) (filter_media df)).
  assert (Hsub : forall d, In d weekdays -> In d days).
  { intros d Hd. unfold weekdays in Hd. apply in_map_iff in Hd as [r [<- _]].
    apply day_name_In. }
  destruct (forallb (fun d => existsb (text_eqb d) weekdays) days) eqn:Eall.
  - pose proof (proj1 (all_days_spec _) Eall) as Hall.
    split; [apply days_NoDup|]. split; [|reflexivity].
    intros d. split; [apply Hall|apply Hsub].
  - split; [apply sorted_keys_NoDup|]. split; [apply sorted_keys_In|].
    change 7 with (length days). apply NoDup_incl_length; [apply sorted_keys_NoDup|].
    intros d Hd. apply Hsub. now apply sorted_keys_In.
Qed.



(** A message on a Monday and one on the Friday after it: the column of
    Friday stands before the one of Monday. *)
Example friday_before_monday :
  activity_heatmap [ row_of monday_10 (str "Alice") (str "Hello");
                     row_of (mkTimestamp 2023 1 6 9 30) (str "Bob") (str "Bye") ]
  = mkPivot [9%Z; 10%Z] [str "Friday"; str "Monday"] [[1; 0]; [0; 1]].
Proof. vm_compute. reflexivity. Qed.

(** X7: Every substantive message is counted in exactly one cell of the heat
    map: the cells add up to the number of substantive messages. *)
Theorem heatmap_total (df : list Row) :
  list_sum (map (@list_sum) (cells (activity_heatmap df))) = length (filter_media df).
Proof.
  destruct (heatmap_columns df) as [Hnd [Hin _]].
  unfold activity_heatmap in *. cbn [cells columns] in *.
  set (text_df := filter_media df) in *.
  set (cols := if forallb _ days then days else _) in *.
  rewrite map_map.
  rewrite <- (group_count Z.eqb Z.eqb_eq (fun r => ts_hour (date r))
                           (sorted_Z (map (fun r => ts_hour (date r)) text_df)) text_df).
  - f_equal. apply map_ext. intros h.
    rewrite <- (group_count text_eqb text_eqb_eq (fun r => day_name (date r)) cols
                             (filter (fun r => (ts_hour (date r) =? h)%Z) text_df)).
    + f_equal. apply map_ext. intros d. now rewrite filter_filter_and.
    + exact Hnd.
    + intros r Hr. apply filter_In in Hr as [Hr _]. apply Hin.
      now apply (in_map (fun r => day_name (date r))).
  - apply sorted_Z_NoDup.
  - intros r Hr. apply sorted_Z_In. now apply (in_map (fun r => ts_hour (date r))).
Qed.

(** *** The bins of [resample] *)

Lemma list_sum_map_add {A : Type} (f g : A -> nat) (l : list A) :
  list_sum (map (fun k => f k + g k) l) = list_sum (map f l) + list_sum (map g l).
Proof.
  induction l as [|x l IH]; [reflexivity|]. cbn [map]. rewrite !list_sum_cons, IH. lia.
Qed.

(** A unit lies in exactly one of the [n] bins from [first] on when it
    lies in their range, and in none otherwise. *)
Lemma bin_once first width u n :
  (0 < width)%Z ->
  list_sum (map (fun k => if in_bin first width u k then 1 else 0) (seq 0 n))
  = if ((first <=? u) && (u <? first + width * Z.of_nat n))%Z then 1 else 0.
Proof.
  intros Hw. induction n as [|n IH].
  - cbn [seq map]. destruct (Z.leb_spec first u), (Z.ltb_spec u (first + width * Z.of_nat 0));
      cbn; try reflexivity. lia.
  - rewrite seq_S, map_app, list_sum_app, IH. cbn [map Nat.add]. rewrite list_sum_cons.
    unfold in_bin.
    destruct (Z.leb_spec first u), (Z.ltb_spec u (first + width * Z.of_nat n)),
      (Z.leb_spec (first + width * Z.of_nat n) u),
      (Z.ltb_spec u (first + width * Z.of_nat n + width)),
      (Z.ltb_spec u (first + width * Z.of_nat (S n))); cbn; try reflexivity; nia.
Qed.

Lemma bins_total (unit_of : Timestamp -> Z) first width n (l : list Row) :
  (0 < width)%Z ->
  (forall r, In r l -> (first <= unit_of (date r) < first + width * Z.of_nat n)%Z) ->
  list_sum (map (fun k => length (filter (fun r => in_bin first width (unit_of (date r)) k) l))
                (seq 0 n))
  = length l.
Proof.
  intros Hw. induction l as [|x l IH]; intros Hall.
  - cbn [filter length]. clear. induction (seq 0 n) as [|k ks IHk]; [reflexivity|].
    cbn [map]. now rewrite list_sum_cons, IHk.
  - transitivity
      (list_sum (map (fun k => (if in_bin first width (unit_of (date x)) k then 1 else 0)
                               + length (filter (fun r => in_bin first width
                                                            (unit_of (date r)) k) l))
                     (seq 0 n))).
    + f_equal. apply map_ext. intros k. cbn [filter].
      destruct (in_bin first width (unit_of (date x)) k); reflexivity.
    + rewrite list_sum_map_add, IH by (intros; apply Hall; now right).
      rewrite bin_once by assumption.
      destruct (Hall x (or_introl eq_refl)) as [H1 H2].
      apply Z.leb_le in H1. apply Z.ltb_lt in H2. rewrite H1, H2. reflexivity.
Qed.

(** [resample] loses no row and holds none twice: the sizes of its bins
    add up to the number of rows. *)
Lemma resample_total (unit_of : Timestamp -> Z) (width : Z) (df : list Row) :
  (0 < width)%Z ->
  list_sum (map (fun b => length (snd b)) (resample unit_of width df)) = length df.
Proof.
  intros Hw. destruct df as [|r0 rest]; [reflexivity|].
  rewrite resample_cons. cbv zeta.
  set (df := r0 :: rest). set (units := map (fun r => unit_of (date r)) df).
  pose proof (min_list_le units (unit_of (date r0))) as [_ Hmin].
  pose proof (max_list_ge units (unit_of (date r0))) as [_ Hmax].
  set (first := min_list units (unit_of (date r0))) in *.
  set (last := max_list units (unit_of (date r0))) in *.
  rewrite map_map. cbn [snd].
  apply (bins_total unit_of first width _ df Hw).
  intros r Hr. assert (Hu : In (unit_of (date r)) units) by (apply in_map_iff; eauto).
  specialize (Hmin _ Hu). specialize (Hmax _ Hu). split; [assumption|].
  pose proof (Z.div_mod (last - first) width ltac:(lia)) as Hdm.
  pose proof (Z.mod_pos_bound (last - first) width Hw) as Hm.
  assert (Hq : (0 <= (last - first) / width)%Z) by (apply Z.div_pos; lia).
  rewrite Nat2Z.inj_succ, Z2Nat.id by assumption. nia.
Qed.

(** X8: The counts of [daily_volume] and of [monthly_volume] each add up to
    the number of substantive messages. *)
Theorem volume_total (df : list Row) :
  list_sum (map snd (daily_volume df)) = length (filter_media df)
  /\ list_sum (map snd (monthly_volume df)) = length (filter_media df).
Proof.
  unfold daily_volume, monthly_volume. rewrite !map_map. cbn [snd].
  split; apply resample_total; lia.
Qed.

Lemma unit_rows (unit_of : Timestamp -> Z) (text_df : list Row) :
  one_row_per_unit unit_of text_df
    (map (fun b => (fst b, length (snd b))) (resample unit_of 1 text_df)).
Proof.
  unfold one_row_per_unit. destruct text_df as [|r0 rest].
  - split; [reflexivity|]. intros H. contradiction.
  - split; [discriminate|]. intros _. rewrite resample_cons. cbv zeta.
    set (tdf := r0 :: rest). set (units := map (fun r => unit_of (date r)) tdf).
    assert (H0 : In (unit_of (date r0)) units) by (now left).
    exists (min_list units (unit_of (date r0))), (max_list units (unit_of (date r0))).
    pose proof (min_list_le units (unit_of (date r0))) as [_ Hmin].
    pose proof (max_list_ge units (unit_of (date r0))) as [_ Hmax].
    set (first := min_list units (unit_of (date r0))) in *.
    set (last := max_list units (unit_of (date r0))) in *.
    split; [now apply min_list_In|]. split; [now apply max_list_In|].
    split; [|split].
    + intros r Hr. assert (In (unit_of (date r)) units) by (apply in_map_iff; eauto).
      split; auto.
    + rewrite !map_map. cbn [fst]. rewrite Z.div_1_r.
      apply map_ext. intros k. lia.
    + intros d c Hin. rewrite map_map in Hin.
      apply in_map_iff in Hin as [k [E _]].
      pose proof (f_equal fst E) as Ed. pose proof (f_equal snd E) as Ec.
      cbv beta in Ed, Ec. cbn [fst snd] in Ed, Ec. clear E. subst d c. f_equal.
      apply filter_ext. intros r.
      destruct (Z.leb_spec (first + 1 * Z.of_nat k) (unit_of (date r))),
        (Z.ltb_spec (unit_of (date r)) (first + 1 * Z.of_nat k + 1)),
        (Z.eqb_spec (unit_of (date r)) (first + 1 * Z.of_nat k)); cbn; try reflexivity; lia.
Qed.

(** X9: [daily_volume] has one row for every calendar day from the day of
    the earliest substantive message to the day of the latest, days
    without messages included, each with the number of substantive
    messages of that day; [monthly_volume] likewise by calendar month. *)
Theorem volume_dense (df : list Row) :
  one_row_per_unit ts_days (filter_media df) (daily_volume df)
  /\ one_row_per_unit ts_months (filter_media df) (monthly_volume df).
Proof. split; apply unit_rows. Qed.

(** *** Emojis, words and shares *)

Lemma flat_map_length {A B : Type} (f : A -> list B) (l : list A) :
  length (flat_map f l) = list_sum (map (fun x => length (f x)) l).
Proof.
  induction l as [|x l IH]; [reflexivity|].
  cbn [flat_map map]. rewrite length_app, list_sum_cons, IH. reflexivity.
Qed.

Lemma value_counts_perm {K : Type}
      (sort_desc : forall K : Type, list (K * nat) -> list (K * nat))
      (eqb : K -> K -> bool) (l : list K) :
  sorts_desc sort_desc ->
  Permutation (value_counts sort_desc eqb l)
              (map (fun k => (k, occurrences eqb k l)) (distinct eqb l))
  /\ descending (value_counts sort_desc eqb l).
Proof. intros Hsort. unfold value_counts. apply Hsort. Qed.

Lemma value_counts_keys {K : Type}
      (sort_desc : forall K : Type, list (K * nat) -> list (K * nat))
      (eqb : K -> K -> bool) (l : list K) :
  sorts_desc sort_desc ->
  Permutation (map fst (value_counts sort_desc eqb l)) (distinct eqb l).
Proof.
  intros Hsort. destruct (value_counts_perm sort_desc eqb l Hsort) as [Hperm _].
  rewrite (Permutation_map fst Hperm), map_map. cbn [fst]. now rewrite map_id.
Qed.

(** X10: [top_emojis] returns at most [n] rows, largest count first and no
    emoji twice; each row holds an emoji with the number of times it
    occurs in the substantive messages; and the counts add up to at most
    the emoji total of [fetch_stats] for "Overall", to exactly that total
    when there are at most [n] different emojis. *)
Theorem top_emojis_counts (find_urls : text -> list text) (is_emoji : char -> bool)
        (sort_desc : forall K : Type, list (K * nat) -> list (K * nat))
        (df : list Row) (n : nat) :
  sorts_desc sort_desc ->
  let res := top_emojis is_emoji sort_desc df n in
  let all_ems := flat_map (fun r => filter is_emoji (Message r)) (filter_media df) in
  let total := total_emojis (fetch_stats find_urls is_emoji OVERALL df) in
  length res <= n
  /\ descending res
  /\ NoDup (map fst res)
  /\ (forall e c, In (e, c) res ->
        is_emoji e = true /\ 0 < c /\ c = length (filter (N.eqb e) all_ems))
  /\ list_sum (map snd res) <= total
  /\ (length (distinct N.eqb all_ems) <= n -> list_sum (map snd res) = total).
Proof.
  intros Hsort. cbv zeta. unfold top_emojis.
  set (all_ems := flat_map (fun r => filter is_emoji (Message r)) (filter_media df)).
  destruct (value_counts_perm sort_desc N.eqb all_ems Hsort) as [Hperm Hdesc].
  pose proof (value_counts_keys sort_desc N.eqb all_ems Hsort) as Hkeys.
  set (vc := value_counts sort_desc N.eqb all_ems) in *.
  assert (Htotal : total_emojis (fetch_stats find_urls is_emoji OVERALL df) = length all_ems).
  { unfold fetch_stats, total_emojis. cbn [fst snd].
    assert (Hov : scope OVERALL df = df) by reflexivity. rewrite Hov.
    unfold all_ems. now rewrite flat_map_length. }
  assert (Hsum : list_sum (map snd vc) = length all_ems).
  { rewrite (list_sum_perm _ _ (Permutation_map snd Hperm)), map_map. cbn [snd].
    apply (occurrences_sum char N.eqb N.eqb_eq).
    - apply distinct_from_NoDup. exact N.eqb_eq.
    - intros x Hx. apply distinct_In; [exact N.eqb_eq|assumption]. }
  rewrite Htotal. repeat split.
  - apply firstn_le_length.
  - now apply descending_firstn.
  - rewrite <- firstn_map. apply NoDup_firstn.
    apply (Permutation_NoDup (Permutation_sym Hkeys)).
    apply distinct_from_NoDup. exact N.eqb_eq.
  - apply In_firstn in H. apply (Permutation_in _ Hperm) in H.
    apply in_map_iff in H as [k [E Hk]]. injection E as -> _.
    apply (proj1 (distinct_In char N.eqb N.eqb_eq _ _)) in Hk.
    unfold all_ems in Hk. apply in_flat_map in Hk as [r [_ Hk]].
    now apply filter_In in Hk.
  - apply In_firstn in H. apply (Permutation_in _ Hperm) in H.
    apply in_map_iff in H as [k [E Hk]]. injection E as -> <-.
    apply (proj1 (distinct_In char N.eqb N.eqb_eq _ _)) in Hk.
    apply (filter_pos _ _ e Hk). apply N.eqb_refl.
  - apply In_firstn in H. apply (Permutation_in _ Hperm) in H.
    apply in_map_iff in H as [k [E Hk]]. injection E as -> <-. reflexivity.
  - rewrite <- Hsum, <- firstn_map. apply list_sum_firstn.
  - intros Hlen. rewrite firstn_all2; [exact Hsum|].
    rewrite <- (length_map fst vc), (Permutation_length Hkeys). exact Hlen.
Qed.

Lemma top_emojis_counts_witness :
  let res := top_emojis (fun c => (128512 <=? c)%N) stable_sort_desc
               [ row_of monday_10 (str "Alice") [128512; 128514; 128512]%N ] 1 in
  let all_ems := [128512; 128514; 128512]%N in
  length res <= 1
  /\ descending res
  /\ NoDup (map fst res)
  /\ (forall e c, In (e, c) res ->
        (128512 <=? e)%N = true /\ 0 < c /\ c = length (filter (N.eqb e) all_ems))
  /\ list_sum (map snd res) <= 3
  /\ (2 <= 1 -> list_sum (map snd res) = 3).
Proof.
  exact (top_emojis_counts (fun _ => []) (fun c => (128512 <=? c)%N) stable_sort_desc
           [ row_of monday_10 (str "Alice") [128512; 128514; 128512]%N ] 1
           stable_sort_sorts).
Defined.

Lemma term_counts_keys terms : map fst (term_counts terms) = sorted_keys terms.
Proof. unfold term_counts. rewrite map_map. cbn [fst]. apply map_id. Qed.

Lemma sorted_map_filter {A B : Type} (R : B -> B -> Prop) (g : A -> B) (p : A -> bool)
      (l : list A) :
  StronglySorted R (map g l) -> StronglySorted (fun a b => R (g a) (g b)) (filter p l).
Proof.
  induction l as [|x l IH]; cbn [map filter]; intros H; [constructor|].
  inversion H as [|? ? Hs Hx]; subst.
  destruct (p x); [|now apply IH]. constructor; [now apply IH|].
  apply Forall_forall. intros y Hy. apply filter_In in Hy as [Hy _].
  rewrite Forall_forall in Hx. apply Hx. now apply in_map.
Qed.

(** The rows [top_n_words] returns are the terms kept by [max_features],
    in the order of the vocabulary. *)
Lemma top_n_words_kept
      (sort_desc : forall K : Type, list (K * nat) -> list (K * nat))
      (analyze : text -> list text) (df : list Row) (n : nat) ws :
  sorts_desc sort_desc ->
  top_n_words sort_desc analyze df n = Some ws ->
  let terms := flat_map (fun r => analyze (Message r)) (filter_media df) in
  StronglySorted (fun a b => text_lt (fst a) (fst b)) ws
  /\ (forall tc, In tc ws <-> In tc (firstn n (sort_desc _ (term_counts terms))))
  /\ length ws <= n.
Proof.
  intros Hsort Hws. cbv zeta. unfold top_n_words in Hws.
  set (terms := flat_map (fun r => analyze (Message r)) (filter_media df)) in *.
  assert (E : ws = filter (fun tc => existsb (fun k => text_eqb (fst k) (fst tc))
                                            (firstn n (sort_desc _ (term_counts terms))))
                          (term_counts terms)).
  { destruct n; [discriminate|]. destruct terms; [discriminate|].
    now injection Hws as <-. }
  clear Hws. destruct (Hsort _ (term_counts terms)) as [Hperm _].
  set (kept := firstn n (sort_desc _ (term_counts terms))) in *.
  assert (Hsorted : StronglySorted (fun a b => text_lt (fst a) (fst b)) ws).
  { rewrite E. apply sorted_map_filter.
    rewrite term_counts_keys. apply sorted_keys_sorted. }
  assert (Hkept : forall tc, In tc kept -> In tc (term_counts terms)).
  { intros tc Htc. apply In_firstn in Htc. now apply (Permutation_in _ Hperm). }
  assert (Hvoc : forall w c c', In (w, c) (term_counts terms) ->
                                In (w, c') (term_counts terms) -> c = c').
  { intros w c c' H H'. unfold term_counts in H, H'.
    apply in_map_iff in H as [k [Ek _]]. apply in_map_iff in H' as [k' [Ek' _]].
    congruence. }
  assert (Hin : forall tc, In tc ws <-> In tc kept).
  { intros [w c]. rewrite E, filter_In, existsb_exists. cbn [fst]. split.
    - intros [Hv [[w' c'] [Hk Ew]]]. cbn [fst] in Ew. apply text_eqb_eq in Ew. subst w'.
      now rewrite (Hvoc w c c' Hv (Hkept _ Hk)).
    - intros Hk. split; [now apply Hkept|]. exists (w, c). split; [assumption|].
      apply text_eqb_refl. }
  split; [assumption|]. split; [assumption|].
  assert (Hnd : NoDup ws).
  { apply (NoDup_map_inv fst). apply (sorted_NoDup text_lt _ text_lt_irrefl).
    clear -Hsorted. induction Hsorted as [|x l Hs IH Hx]; cbn [map]; constructor; auto.
    apply Forall_forall. intros y Hy. apply in_map_iff in Hy as [z [<- Hz]].
    rewrite Forall_forall in Hx. now apply Hx. }
  apply (Nat.le_trans _ (length kept)); [|apply firstn_le_length].
  apply NoDup_incl_length; [assumption|]. intros tc. apply Hin.
Qed.

(** X11: [top_n_words] raises exactly when [n] is 0 (the vectorizer
    takes a positive [max_features] only) or no substantive message holds
    a term.  When it returns, it returns at most [n] rows, in ascending
    order of the words, each a term with the number of its occurrences
    in the substantive messages; and a term it leaves out occurs no more
    often than any term it keeps. *)
Theorem top_n_words_result
        (sort_desc : forall K : Type, list (K * nat) -> list (K * nat))
        (analyze : text -> list text) (df : list Row) (n : nat) :
  sorts_desc sort_desc ->
  let terms := flat_map (fun r => analyze (Message r)) (filter_media df) in
  let count := fun w => length (filter (text_eqb w) terms) in
  (top_n_words sort_desc analyze df n = None <->
   n = 0 \/ forall r, In r (filter_media df) -> analyze (Message r) = [])
  /\ (forall ws, top_n_words sort_desc analyze df n = Some ws ->
        length ws <= n
        /\ StronglySorted (fun a b => text_lt (fst a) (fst b)) ws
        /\ (forall w c, In (w, c) ws -> In w terms /\ 0 < c /\ c = count w)
        /\ (forall w, In w terms -> ~ In w (map fst ws) ->
            forall w' c', In (w', c') ws -> count w <= c')).
Proof.
  intros Hsort. cbv zeta. split.
  - unfold top_n_words.
    set (terms := flat_map (fun r => analyze (Message r)) (filter_media df)).
    destruct n as [|n']; [split; [now left|reflexivity]|].
    destruct terms as [|t terms'] eqn:Et.
    + split; [intros _; right|reflexivity]. intros r Hr.
      destruct (analyze (Message r)) as [|t ts] eqn:Er; [reflexivity|]. exfalso.
      assert (Hin : In t terms)
        by (apply in_flat_map; exists r; split; [assumption|rewrite Er; now left]).
      rewrite Et in Hin. contradiction.
    + split; [discriminate|]. intros [Hn|Hall]; [discriminate|]. exfalso.
      assert (Hin : In t terms) by (rewrite Et; now left).
      unfold terms in Hin. apply in_flat_map in Hin as [r [Hr Hin]].
      rewrite (Hall r Hr) in Hin. contradiction.
  - intros ws Hws.
    destruct (top_n_words_kept sort_desc analyze df n ws Hsort Hws) as [Hsorted [Hin Hlen]].
    set (terms := flat_map (fun r => analyze (Message r)) (filter_media df)) in *.
    destruct (Hsort _ (term_counts terms)) as [Hperm Hdesc].
    assert (Hvoc : forall w c, In (w, c) ws ->
                     In w terms /\ c = length (filter (text_eqb w) terms)).
    { intros w c H. apply Hin, In_firstn in H. apply (Permutation_in _ Hperm) in H.
      unfold term_counts in H. apply in_map_iff in H as [k [Ek Hk]]. injection Ek as -> <-.
      split; [now apply sorted_keys_In|reflexivity]. }
    split; [assumption|]. split; [assumption|]. split.
    + intros w c H. destruct (Hvoc w c H) as [Hw ->]. split; [assumption|].
      split; [|reflexivity]. apply (filter_pos _ _ w Hw). apply text_eqb_refl.
    + intros w Hw Hnot w' c' Hin'.
      set (c := length (filter (text_eqb w) terms)).
      assert (Hall : In (w, c) (sort_desc _ (term_counts terms))).
      { apply (Permutation_in _ (Permutation_sym Hperm)).
        unfold term_counts. apply in_map_iff. exists w.
        split; [reflexivity|]. now apply sorted_keys_In. }
      assert (Hout : ~ In (w, c) (firstn n (sort_desc _ (term_counts terms)))).
      { intros Hk. apply Hnot. apply in_map_iff. exists (w, c). split; [reflexivity|].
        now apply Hin. }
      apply Hin in Hin'.
      rewrite <- (firstn_skipn n (sort_desc _ (term_counts terms))) in Hall, Hdesc.
      apply in_app_or in Hall as [Hall|Hall]; [contradiction|].
      unfold descending in Hdesc.
      exact (StronglySorted_app_cross _ _ _ Hdesc _ _ Hin' Hall).
Qed.

Lemma top_n_words_result_witness :
  let terms := flat_map (fun r => split_ws (Message r)) (filter_media three_rows) in
  let count := fun w => length (filter (text_eqb w) terms) in
  (top_n_words stable_sort_desc split_ws three_rows 1 = None <->
   1 = 0 \/ forall r, In r (filter_media three_rows) -> split_ws (Message r) = [])
  /\ (forall ws, top_n_words stable_sort_desc split_ws three_rows 1 = Some ws ->
        length ws <= 1
        /\ StronglySorted (fun a b => text_lt (fst a) (fst b)) ws
        /\ (forall w c, In (w, c) ws -> In w terms /\ 0 < c /\ c = count w)
        /\ (forall w, In w terms -> ~ In w (map fst ws) ->
            forall w' c', In (w', c') ws -> count w <= c')).
Proof.
  exact (top_n_words_result stable_sort_desc split_ws three_rows 1 stable_sort_sorts).
Defined.

(** With [n = 0] there is no table, whatever the messages. *)
Example top_n_words_of_none :
  top_n_words stable_sort_desc split_ws three_rows 0 = None.
Proof. reflexivity. Qed.

(** X12: [avg_msg_per_user] has one row for each sender of the frame and none
    for anyone else, and every share it shows lies between 0.00 and
    100.00 (shares are in hundredths of a percent). *)
Theorem avg_msg_per_user_rows
        (sort_desc : forall K : Type, list (K * nat) -> list (K * nat))
        (percent_2f : nat -> nat -> Z) (df : list Row) :
  sorts_desc sort_desc -> prints_share percent_2f ->
  let res := avg_msg_per_user sort_desc percent_2f df in
  NoDup (map fst res)
  /\ (forall s, In s (map fst res) <-> In s (map Sender df))
  /\ (forall s p, In (s, p) res -> (0 <= p <= 10000)%Z).
Proof.
  intros Hsort Hprint. cbv zeta. unfold avg_msg_per_user.
  pose proof (value_counts_keys sort_desc text_eqb (map Sender df) Hsort) as Hkeys.
  destruct (value_counts_perm sort_desc text_eqb (map Sender df) Hsort) as [Hperm _].
  set (vc := value_counts sort_desc text_eqb (map Sender df)) in *.
  rewrite map_map. cbn [fst]. repeat split.
  - apply (Permutation_NoDup (Permutation_sym Hkeys)).
    apply distinct_from_NoDup. exact text_eqb_eq.
  - intros H. apply (Permutation_in _ Hkeys) in H.
    now apply (proj1 (distinct_In text text_eqb text_eqb_eq _ _)) in H.
  - intros H. apply (Permutation_in _ (Permutation_sym Hkeys)).
    now apply (distinct_In text text_eqb text_eqb_eq).
  - apply in_map_iff in H as [[k c] [E Hk]]. cbn [fst snd] in E. injection E as -> <-.
    apply (Permutation_in _ Hperm) in Hk. apply in_map_iff in Hk as [k' [E Hk']].
    injection E as -> <-.
    apply (proj1 (distinct_In text text_eqb text_eqb_eq _ _)) in Hk'.
    pose proof (occurrences_le text text_eqb s (map Sender df)) as Hle.
    rewrite length_map in Hle.
    assert (Hpos : 0 < length df) by (destruct df; [contradiction|cbn; lia]).
    pose proof (Hprint _ _ Hpos Hle) as Hb. nia.
  - apply in_map_iff in H as [[k c] [E Hk]]. cbn [fst snd] in E. injection E as -> <-.
    apply (Permutation_in _ Hperm) in Hk. apply in_map_iff in Hk as [k' [E Hk']].
    injection E as -> <-.
    apply (proj1 (distinct_In text text_eqb text_eqb_eq _ _)) in Hk'.
    pose proof (occurrences_le text text_eqb s (map Sender df)) as Hle.
    rewrite length_map in Hle.
    assert (Hpos : 0 < length df) by (destruct df; [contradiction|cbn; lia]).
    pose proof (Hprint _ _ Hpos Hle) as Hb. nia.
Qed.

Lemma avg_msg_per_user_rows_witness :
  let res := avg_msg_per_user stable_sort_desc exact_percent_2f three_rows in
  NoDup (map fst res)
  /\ (forall s, In s (map fst res) <-> In s (map Sender three_rows))
  /\ (forall s p, In (s, p) res -> (0 <= p <= 10000)%Z).
Proof.
  exact (avg_msg_per_user_rows stable_sort_desc exact_percent_2f three_rows
           stable_sort_sorts exact_percent_prints).
Defined.

(** X13: The sender box of [app.py] offers "Overall" and then each sender of
    the frame once, in ascending order.  "Overall" selects the whole
    frame; any other choice selects the rows of that sender, in their
    order, and there is at least one. *)
Theorem users_selection (df : list Row) :
  (forall s, In s (users df) <-> s = OVERALL \/ In s (map Sender df))
  /\ hd_error (users df) = Some OVERALL
  /\ StronglySorted text_lt (tl (users df))
  /\ scope OVERALL df = df
  /\ (forall s, In s (users df) -> s <> OVERALL ->
        scope s df = filter (fun r => text_eqb (Sender r) s) df
        /\ scope s df <> []
        /\ (forall r, In r (scope s df) <-> In r df /\ Sender r = s)).
Proof.
  unfold users. repeat split.
  - intros [H|H]; [now left|right; now apply sorted_keys_In].
  - intros [H|H]; [now left|right; now apply sorted_keys_In].
  - apply sorted_keys_sorted.
  - apply scope_sender. destruct (text_eqb s OVERALL) eqn:E; [|reflexivity].
    apply text_eqb_eq in E. contradiction.
  - destruct H as [H|H]; [congruence|]. apply (proj1 (sorted_keys_In _ _)) in H.
    apply in_map_iff in H as [r [Hr Hin]].
    assert (Hs : text_eqb s OVERALL = false).
    { destruct (text_eqb s OVERALL) eqn:E; [|reflexivity].
      apply text_eqb_eq in E. contradiction. }
    rewrite (scope_sender s df Hs). intros Hnil.
    assert (Hx : In r (filter (fun r => text_eqb (Sender r) s) df)).
    { apply filter_In. split; [assumption|]. rewrite Hr. apply text_eqb_refl. }
    rewrite Hnil in Hx. contradiction.
  - assert (Hs : text_eqb s OVERALL = false).
    { destruct (text_eqb s OVERALL) eqn:E; [|reflexivity].
      apply text_eqb_eq in E. contradiction. }
    rewrite (scope_sender s df Hs) in H1. now apply filter_In in H1.
  - assert (Hs : text_eqb s OVERALL = false).
    { destruct (text_eqb s OVERALL) eqn:E; [|reflexivity].
      apply text_eqb_eq in E. contradiction. }
    rewrite (scope_sender s df Hs) in H1. apply filter_In in H1 as [_ H1].
    now apply text_eqb_eq.
  - intros [Hr Hs']. assert (Hs : text_eqb s OVERALL = false).
    { destruct (text_eqb s OVERALL) eqn:E; [|reflexivity].
      apply text_eqb_eq in E. contradiction. }
    rewrite (scope_sender s df Hs). apply filter_In. split; [assumption|].
    now apply text_eqb_eq.
Qed.

(* ------------------------------------------------------------------ *)
(** ** More properties of the parser *)

(** X14: Every row of [preprocess] comes from a match of the entry pattern:
    its date is the date and time of group 1, its sender is group 2,
    which is not empty and holds no colon, and its message is group 3
    without the white space at its ends.  (So the branch that assigns
    [group_notification] is never taken.)  The columns [year], [month],
    [day], [hour] and [minute] are those of the date. *)
Theorem parsed_rows Nd dv data rows :
  decimal_table Nd ->
  preprocess Nd dv data = Some rows ->
  Forall2
    (fun m r =>
       to_datetime Nd dv (group 1 m) = Some (date r)
       /\ Sender r = group 2 m
       /\ Message r = strip (group 3 m)
       /\ Sender r <> []
       /\ no_char COLON (Sender r) = true
       /\ strip (Message r) = Message r
       /\ year r = ts_year (date r)
       /\ month r = month_name (date r)
       /\ day r = ts_day (date r)
       /\ hour r = ts_hour (date r)
       /\ minute r = ts_minute (date r))
    (findall Nd pattern (replace NNBSP SPACE data)) rows.
Proof.
  intros Hok H. apply (rows_of_entries Nd dv data rows Hok) in H.
  eapply Forall2_weaken; [|exact H]. cbv beta.
  intros m r [[l [rest Hm]] [Hd Er]].
  apply entry_at_groups in Hm as [Hne [Hcolon _]].
  assert (Es : Sender r = group 2 m) by (rewrite Er; reflexivity).
  assert (Em : Message r = strip (group 3 m)) by (rewrite Er; reflexivity).
  split; [assumption|]. split; [assumption|]. split; [assumption|].
  split; [now rewrite Es|]. split; [now rewrite Es|].
  split; [rewrite Em; apply strip_idempotent|].
  rewrite Er. cbn [row_of date year month day hour minute]. repeat split.
Qed.

Lemma parsed_rows_witness :
  let data := str "1/1/23, 10:00 am - Alice:   Hello
there  " in
  Forall2
    (fun m r =>
       to_datetime ascii_Nd ascii_digit_value (group 1 m) = Some (date r)
       /\ Sender r = group 2 m
       /\ Message r = strip (group 3 m)
       /\ Sender r <> []
       /\ no_char COLON (Sender r) = true
       /\ strip (Message r) = Message r
       /\ year r = ts_year (date r)
       /\ month r = month_name (date r)
       /\ day r = ts_day (date r)
       /\ hour r = ts_hour (date r)
       /\ minute r = ts_minute (date r))
    (findall ascii_Nd pattern (replace NNBSP SPACE data))
    [row_of (mkTimestamp 2023 1 1 10 0) (str "Alice") (str "Hello
there")].
Proof.
  apply (parsed_rows ascii_Nd ascii_digit_value _ _ ascii_table_ok).
  vm_compute. reflexivity.
Defined.

(** *** The timestamps [pd.to_datetime] returns *)

Section RunInversion.

Variable Nd : char -> bool.

Lemma In_run_atom c caps l m :
  In m (run Nd (Atom c) caps l) ->
  exists x, l = x :: snd m /\ cmatch Nd c x = true /\ fst m = caps.
Proof.
  cbn [run]. destruct l as [|x l]; [contradiction|].
  destruct (cmatch Nd c x) eqn:E; [|contradiction].
  intros [<-|[]]. exists x. auto.
Qed.

Lemma In_run_seq r1 r2 caps l m :
  In m (run Nd (Seq r1 r2) caps l) ->
  exists m1, In m1 (run Nd r1 caps l) /\ In m (run Nd r2 (fst m1) (snd m1)).
Proof. cbn [run]. intros H. apply in_flat_map in H. exact H. Qed.

Lemma In_run_alt r1 r2 caps l m :
  In m (run Nd (Alt r1 r2) caps l) ->
  In m (run Nd r1 caps l) \/ In m (run Nd r2 caps l).
Proof. cbn [run]. apply in_app_or. Qed.

Lemma In_run_repeat g lo hi c caps l m :
  In m (run Nd (Repeat g lo hi c) caps l) -> fst m = caps.
Proof. cbn [run]. intros H. apply in_map_iff in H as [k [<- _]]. reflexivity. Qed.

(** The text a group holds is what its body consumed. *)
Lemma In_run_group n r caps l m :
  In m (run Nd (Group n r) caps l) ->
  exists t c, In (c, snd m) (run Nd r caps l) /\ l = t ++ snd m /\ fst m = (n, t) :: c.
Proof.
  cbn [run]. intros H. apply in_map_iff in H as [[c rest] [<- H]]. cbn [fst snd].
  destruct (run_suffix Nd r caps l _ H) as [pre E]. cbn [snd] in E.
  exists pre, c. split; [assumption|]. split; [assumption|].
  f_equal. f_equal. rewrite E at 2. rewrite E at 1. rewrite length_app.
  replace (length pre + length rest - length rest) with (length pre) by lia.
  rewrite firstn_app, Nat.sub_diag, firstn_all. cbn. apply app_nil_r.
Qed.

End RunInversion.

Section Timestamps.

Variable Nd : char -> bool.
Variable digit_value : char -> Z.
Hypothesis Nd_ok : decimal_table Nd.
Hypothesis dv_ok : digit_values Nd digit_value.

Lemma ascii_digit_reads x :
  in_range 48 57 x = true ->
  reads Nd digit_value (Z.of_N x - 48) (Z.of_N x - 48) x.
Proof.
  intros H. split; [|split; [|now right]].
  - unfold is_space, in_range in *. char_solve.
  - rewrite (proj2 dv_ok x H). lia.
Qed.

Lemma lit_char a x :
  in_range 65 90 a = false -> in_range 97 122 a = false ->
  cmatch Nd (CLit a) x = true -> x = a.
Proof.
  intros H1 H2 H. cbn [cmatch] in H. apply N.eqb_eq in H.
  unfold ascii_lower, in_range in *. char_solve.
Qed.

Lemma lit_reads a x :
  in_range 48 57 a = true -> cmatch Nd (CLit a) x = true ->
  reads Nd digit_value (Z.of_N a - 48) (Z.of_N a - 48) x.
Proof.
  intros Ha H. assert (E : x = a).
  { apply lit_char; [| |assumption]; unfold in_range in *; char_solve. }
  subst. now apply ascii_digit_reads.
Qed.

Lemma range_reads lo hi x :
  (48 <= lo)%N -> (hi <= 57)%N -> cmatch Nd (CRange lo hi) x = true ->
  reads Nd digit_value (Z.of_N lo - 48) (Z.of_N hi - 48) x.
Proof.
  intros Hlo Hhi H. cbn [cmatch] in H.
  assert (Hx : in_range 48 57 x = true) by (unfold in_range in *; char_solve).
  destruct (ascii_digit_reads x Hx) as [Hs [Hv Hd]]. split; [assumption|].
  split; [|assumption].
  unfold in_range in H. apply andb_true_iff in H as [H1 H2].
  apply N.leb_le in H1, H2. lia.
Qed.

Lemma digit_reads x : cmatch Nd CDigit x = true -> reads Nd digit_value 0 9 x.
Proof.
  cbn [cmatch]. intros H. split; [now apply (digit_not_space Nd Nd_ok)|].
  split; [exact (proj1 dv_ok x H)|now left].
Qed.

Lemma int_of_one x lo hi :
  reads Nd digit_value lo hi x -> (lo <= int_of digit_value [x] <= hi)%Z.
Proof. intros [Hs [Hv _]]. unfold int_of. cbn [fold_left]. rewrite Hs. lia. Qed.

Lemma int_of_two x y lo hi lo' hi' :
  reads Nd digit_value lo hi x -> reads Nd digit_value lo' hi' y ->
  (10 * lo + lo' <= int_of digit_value [x; y] <= 10 * hi + hi')%Z.
Proof.
  intros [Hs [Hv _]] [Hs' [Hv' _]]. unfold int_of. cbn [fold_left]. rewrite Hs, Hs'. lia.
Qed.

Lemma int_of_blank y lo hi :
  reads Nd digit_value lo hi y -> (lo <= int_of digit_value [SPACE; y] <= hi)%Z.
Proof.
  intros [Hs [Hv _]]. unfold int_of. cbn [fold_left]. rewrite Hs.
  change (is_space SPACE) with true. cbn iota. lia.
Qed.

Lemma In_run_one a caps l m :
  In m (run Nd (Atom a) caps l) ->
  exists x, l = [x] ++ snd m /\ cmatch Nd a x = true /\ fst m = caps.
Proof. apply In_run_atom. Qed.

Lemma In_run_two a b caps l m :
  In m (run Nd (Seq (Atom a) (Atom b)) caps l) ->
  exists x y, l = [x; y] ++ snd m /\ cmatch Nd a x = true /\ cmatch Nd b y = true
              /\ fst m = caps.
Proof.
  intros H. apply In_run_seq in H as [m1 [H1 H2]].
  apply In_run_atom in H1 as [x [E1 [Hx Hc1]]].
  apply In_run_atom in H2 as [y [E2 [Hy Hc2]]].
  exists x, y. rewrite E1, E2. repeat split; try assumption. congruence.
Qed.

Ltac reads_of H :=
  first [ apply lit_reads in H; [|reflexivity]
        | apply range_reads in H; [|lia|lia]
        | apply digit_reads in H ];
  simpl (Z.of_N _ - 48)%Z in H.

Ltac digit_char H := right; exact (proj2 (proj2 H)).

Ltac two_digits H El :=
  let x := fresh "x" in let y := fresh "y" in
  let E := fresh "E" in let Hx := fresh "Hx" in let Hy := fresh "Hy" in
  let Hc := fresh "Hc" in
  apply In_run_two in H as [x [y [E [Hx [Hy Hc]]]]];
  cbn [fst snd] in E, Hc; rewrite E in El; apply app_inv_tail in El; subst;
  split; [reflexivity|]; split; [reflexivity|];
  reads_of Hx; reads_of Hy;
  split; [pose proof (int_of_two _ _ _ _ _ _ Hx Hy); lia|];
  split; [apply Forall_cons; [digit_char Hx|apply Forall_cons; [digit_char Hy|apply Forall_nil]]
        |cbn [length]; lia].

Ltac one_digit H El :=
  let x := fresh "x" in
  let E := fresh "E" in let Hx := fresh "Hx" in
  let Hc := fresh "Hc" in
  apply In_run_one in H as [x [E [Hx Hc]]];
  cbn [fst snd] in E, Hc; rewrite E in El; apply app_inv_tail in El; subst;
  split; [reflexivity|]; split; [reflexivity|];
  reads_of Hx;
  split; [pose proof (int_of_one _ _ _ Hx); lia|];
  split; [apply Forall_cons; [digit_char Hx|apply Forall_nil]|cbn [length]; lia].

Lemma run_re_d caps l m :
  In m (run Nd re_d caps l) ->
  exists t, fst m = (G_d, t) :: caps /\ l = t ++ snd m /\ field Nd digit_value 1 31 t.
Proof.
  let r := eval vm_compute in re_d in change re_d with r.
  unfold field.
  intros H. apply In_run_group in H as [t [c [H [El Ef]]]]. exists t. rewrite Ef.
  apply In_run_alt in H as [H|H]; [two_digits H El|].
  apply In_run_alt in H as [H|H]; [two_digits H El|].
  apply In_run_alt in H as [H|H]; [two_digits H El|].
  apply In_run_alt in H as [H|H]; [one_digit H El|].
  apply In_run_two in H as [x [y [E [Hx [Hy Hc]]]]].
  cbn [fst snd] in E, Hc. apply lit_char in Hx; [|reflexivity|reflexivity].
  rewrite E in El. apply app_inv_tail in El. subst.
  split; [reflexivity|]. split; [reflexivity|]. reads_of Hy.
  split; [pose proof (int_of_blank _ _ _ Hy) as Hb; unfold SPACE in Hb; lia|].
  split; [apply Forall_cons; [left; reflexivity|apply Forall_cons; [digit_char Hy|apply Forall_nil]]
        |cbn [length]; lia].
Qed.

Lemma run_re_m caps l m :
  In m (run Nd re_m caps l) ->
  exists t, fst m = (G_m, t) :: caps /\ l = t ++ snd m /\ field Nd digit_value 1 12 t.
Proof.
  let r := eval vm_compute in re_m in change re_m with r.
  unfold field.
  intros H. apply In_run_group in H as [t [c [H [El Ef]]]]. exists t. rewrite Ef.
  apply In_run_alt in H as [H|H]; [two_digits H El|].
  apply In_run_alt in H as [H|H]; [two_digits H El|one_digit H El].
Qed.

Lemma run_re_y caps l m :
  In m (run Nd re_y caps l) ->
  exists t, fst m = (G_y, t) :: caps /\ l = t ++ snd m /\ field Nd digit_value 0 99 t
            /\ length t = 2.
Proof.
  let r := eval vm_compute in re_y in change re_y with r.
  unfold field.
  intros H. apply In_run_group in H as [t [c [H [El Ef]]]]. exists t. rewrite Ef.
  apply In_run_two in H as [x [y [E [Hx [Hy Hc]]]]].
  cbn [fst snd] in E, Hc. rewrite E in El. apply app_inv_tail in El. subst.
  split; [reflexivity|]. split; [reflexivity|]. reads_of Hx. reads_of Hy.
  split; [|reflexivity].
  split; [pose proof (int_of_two _ _ _ _ _ _ Hx Hy); lia|].
  split; [apply Forall_cons; [digit_char Hx|apply Forall_cons; [digit_char Hy|apply Forall_nil]]
        |cbn [length]; lia].
Qed.

Lemma run_re_I caps l m :
  In m (run Nd re_I caps l) ->
  exists t, fst m = (G_I, t) :: caps /\ l = t ++ snd m /\ field Nd digit_value 1 12 t.
Proof.
  let r := eval vm_compute in re_I in change re_I with r.
  unfold field.
  intros H. apply In_run_group in H as [t [c [H [El Ef]]]]. exists t. rewrite Ef.
  apply In_run_alt in H as [H|H]; [two_digits H El|].
  apply In_run_alt in H as [H|H]; [two_digits H El|one_digit H El].
Qed.

Lemma run_re_M caps l m :
  In m (run Nd re_M caps l) ->
  exists t, fst m = (G_M, t) :: caps /\ l = t ++ snd m /\ field Nd digit_value 0 59 t.
Proof.
  let r := eval vm_compute in re_M in change re_M with r.
  unfold field.
  intros H. apply In_run_group in H as [t [c [H [El Ef]]]]. exists t. rewrite Ef.
  apply In_run_alt in H as [H|H]; [two_digits H El|one_digit H El].
Qed.

Lemma run_marker caps l m :
  In m (run Nd re_p caps l) ->
  exists t, fst m = (G_p, t) :: caps /\ l = t ++ snd m /\ is_marker t = true.
Proof.
  unfold re_p. intros H. apply In_run_group in H as [t [c [H [El Ef]]]].
  exists t. rewrite Ef. rewrite run_am_pm in H.
  destruct l as [|x [|y l']]; cbn [marker_at] in H; try contradiction.
  destruct (((ascii_lower x =? 97)%N || (ascii_lower x =? 112)%N)
            && (ascii_lower y =? 109)%N) eqn:Em; [|contradiction].
  destruct H as [H|[]]. injection H as <- Hr.
  change (x :: y :: l') with ([x; y] ++ l') in El. rewrite <- Hr in El.
  apply app_inv_tail in El. subst t.
  split; [reflexivity|]. split; [now rewrite <- Hr|].
  apply andb_true_iff in Em as [Hx Hy]. apply N.eqb_eq in Hy.
  unfold is_marker. cbn [map]. rewrite Hy.
  apply orb_true_iff in Hx as [Hx|Hx]; apply N.eqb_eq in Hx; rewrite Hx; reflexivity.
Qed.

Lemma run_lit c caps l m :
  in_range 65 90 c = false -> in_range 97 122 c = false ->
  In m (run Nd (Atom (CLit c)) caps l) -> l = [c] ++ snd m /\ fst m = caps.
Proof.
  intros H1 H2 H. apply In_run_atom in H as [x [E [Hx Hc]]].
  apply (lit_char c x H1 H2) in Hx. subst x. now split.
Qed.

Lemma forallb_firstn {A : Type} (p : A -> bool) k n (l : list A) :
  k <= n -> forallb p (firstn n l) = true -> forallb p (firstn k l) = true.
Proof.
  revert n l. induction k as [|k IH]; intros n l Hk; [reflexivity|].
  destruct n as [|n]; [lia|]. destruct l as [|x l]; [reflexivity|].
  cbn [firstn forallb]. rewrite !andb_true_iff. intros [Hx Hl].
  split; [assumption|]. apply (IH n); [lia|assumption].
Qed.

Lemma run_spaces caps l m :
  In m (run Nd spaces caps l) ->
  exists sp, l = sp ++ snd m /\ fst m = caps /\ blank sp = true.
Proof.
  unfold spaces. cbn [run]. intros H. apply in_map_iff in H as [k [<- Hk]].
  apply counts_In in Hk. cbn [fst snd].
  exists (firstn k l). split; [symmetry; apply firstn_skipn|]. split; [reflexivity|].
  unfold blank. apply andb_true_iff. split.
  - destruct l as [|x l]; [cbn in Hk; lia|]. destruct k; [lia|reflexivity].
  - apply (forallb_firstn _ k (span Nd CSpace (length l) l)); [lia|].
    exact (span_firstn Nd CSpace (length l) l).
Qed.

(** The fields of a match of [format_regex]: the text read and the
    captures. *)
Lemma format_fields m val :
  In m (run Nd format_regex [] val) ->
  exists td tm ty sp1 tI tM sp2 tp,
    fst m = [(G_p, tp); (G_M, tM); (G_I, tI); (G_y, ty); (G_m, tm); (G_d, td)]
    /\ val = td ++ str "/" ++ tm ++ str "/" ++ ty ++ str "," ++ sp1
             ++ tI ++ str ":" ++ tM ++ sp2 ++ tp ++ snd m
    /\ field Nd digit_value 1 31 td
    /\ field Nd digit_value 1 12 tm
    /\ field Nd digit_value 0 99 ty /\ length ty = 2
    /\ blank sp1 = true
    /\ field Nd digit_value 1 12 tI
    /\ field Nd digit_value 0 59 tM
    /\ blank sp2 = true
    /\ is_marker tp = true.
Proof.
  unfold format_regex. cbn [seq_of].
  change (lit "/") with (Atom (CLit 47)). change (lit ",") with (Atom (CLit 44)).
  change (lit ":") with (Atom (CLit 58)). intros H.
  apply In_run_seq in H as [m1 [H1 H]]. apply run_re_d in H1 as [td [E1 [L1 Bd]]].
  apply In_run_seq in H as [m2 [H2 H]].
  apply run_lit in H2 as [L2 E2]; [|reflexivity|reflexivity].
  apply In_run_seq in H as [m3 [H3 H]]. apply run_re_m in H3 as [tm [E3 [L3 Bm]]].
  apply In_run_seq in H as [m4 [H4 H]].
  apply run_lit in H4 as [L4 E4]; [|reflexivity|reflexivity].
  apply In_run_seq in H as [m5 [H5 H]]. apply run_re_y in H5 as [ty [E5 [L5 [By Ly]]]].
  apply In_run_seq in H as [m6 [H6 H]].
  apply run_lit in H6 as [L6 E6]; [|reflexivity|reflexivity].
  apply In_run_seq in H as [m7 [H7 H]]. apply run_spaces in H7 as [sp1 [L7 [E7 B1]]].
  apply In_run_seq in H as [m8 [H8 H]]. apply run_re_I in H8 as [tI [E8 [L8 BI]]].
  apply In_run_seq in H as [m9 [H9 H]].
  apply run_lit in H9 as [L9 E9]; [|reflexivity|reflexivity].
  apply In_run_seq in H as [m10 [H10 H]]. apply run_re_M in H10 as [tM [E10 [L10 BM]]].
  apply In_run_seq in H as [m11 [H11 H]]. apply run_spaces in H11 as [sp2 [L11 [E11 B2]]].
  apply run_marker in H as [tp [E12 [L12 Bp]]].
  exists td, tm, ty, sp1, tI, tM, sp2, tp.
  split; [rewrite E12, E11, E10, E9, E8, E7, E6, E5, E4, E3, E2, E1; reflexivity|].
  split;
    [|exact (conj Bd (conj Bm (conj By (conj Ly (conj B1 (conj BI (conj BM (conj B2 Bp))))))))].
  rewrite L1, L2, L3, L4, L5, L6, L7, L8, L9, L10, L11, L12. reflexivity.
Qed.

Lemma timestamp_of_fields td tm ty tI tM tp t :
  field Nd digit_value 1 12 tI -> is_marker tp = true ->
  timestamp_of digit_value
    [(G_p, tp); (G_M, tM); (G_I, tI); (G_y, ty); (G_m, tm); (G_d, td)] = Some t ->
  t = mkTimestamp (year_of (int_of digit_value ty)) (int_of digit_value tm)
                  (int_of digit_value td) (hour_24 (int_of digit_value tI) tp)
                  (int_of digit_value tM)
  /\ (int_of digit_value td
      <= days_in_month (year_of (int_of digit_value ty)) (int_of digit_value tm))%Z.
Proof.
  intros [BI _] Bp. unfold timestamp_of.
  cbn [group G_p G_y G_m G_d G_I G_M Nat.eqb]. fold (year_of (int_of digit_value ty)).
  set (h := int_of digit_value tI) in *.
  destruct (Z.leb_spec (int_of digit_value td)
              (days_in_month (year_of (int_of digit_value ty)) (int_of digit_value tm)))
    as [Hd|Hd]; [|discriminate].
  intros E. injection E as <-. split; [|assumption]. f_equal.
  unfold hour_24, is_marker in *.
  apply orb_true_iff in Bp as [Bp|Bp]; apply text_eqb_eq in Bp; rewrite Bp; cbn.
  - destruct (Z.eqb_spec h 12) as [->|Hn]; [reflexivity|].
    rewrite Z.mod_small by lia. lia.
  - destruct (Z.eqb_spec h 12) as [->|Hn]; [reflexivity|].
    rewrite Z.mod_small by lia. lia.
Qed.

(** A text [pd.to_datetime] accepts is a match of [format_regex] that
    leaves nothing over. *)
Lemma to_datetime_match val t :
  to_datetime Nd digit_value val = Some t ->
  exists found, In (found, []) (run Nd format_regex [] val)
                /\ timestamp_of digit_value found = Some t.
Proof.
  unfold to_datetime, match_here.
  destruct (run Nd format_regex [] val) as [|[found rest] ms] eqn:E; [discriminate|].
  cbn [hd_error]. destruct rest; [|discriminate].
  intros Ht. exists found. split; [now left|assumption].
Qed.

(** A date and time that [pd.to_datetime] accepts is read as a timestamp
    of the calendar, from 1969 to 2068, with the hour of the 24-hour
    clock. *)
Lemma to_datetime_valid val t :
  to_datetime Nd digit_value val = Some t -> valid_timestamp t.
Proof.
  intros H. apply to_datetime_match in H as [found [Hin Ht]].
  apply format_fields in Hin
    as (td & tm & ty & sp1 & tI & tM & sp2 & tp & Ef & _ & Bd & Bm & By & _ & _ & BI
        & BM & _ & Bp).
  cbn [fst] in Ef. subst found.
  destruct (timestamp_of_fields td tm ty tI tM tp t BI Bp Ht) as [-> Hd].
  destruct Bd as [Bd _], Bm as [Bm _], By as [By _], BI as [BI _], BM as [BM _].
  unfold valid_timestamp. cbn [ts_year ts_month ts_day ts_hour ts_minute].
  unfold year_of, hour_24.
  pose proof (Z.mod_pos_bound (int_of digit_value tI) 12 ltac:(lia)).
  repeat split; try lia.
  - destruct (Z.leb_spec (int_of digit_value ty) 68); lia.
  - destruct (Z.leb_spec (int_of digit_value ty) 68); lia.
  - exact Hd.
  - destruct (text_eqb _ _); lia.
  - destruct (text_eqb _ _); lia.
Qed.

Lemma field_no_char c t lo hi :
  (c < 128)%N -> in_range 48 57 c = false -> (c =? SPACE)%N = false ->
  field Nd digit_value lo hi t -> no_char c t = true.
Proof.
  intros Hc Hr Hs [_ [Ht _]]. unfold no_char. apply forallb_forall. intros x Hx.
  rewrite Forall_forall in Ht. apply negb_true_iff, N.eqb_neq. intros ->.
  destruct (Ht c Hx) as [E|[E|E]].
  - subst c. discriminate.
  - destruct (Nd_ok c E) as [_ H2]. rewrite (H2 Hc) in Hr. discriminate.
  - congruence.
Qed.

End Timestamps.

Lemma ascii_values_ok : digit_values ascii_Nd ascii_digit_value.
Proof.
  split; [|reflexivity]. intros c H. unfold ascii_Nd, ascii_digit_value, in_range in *.
  apply andb_true_iff in H as [H1 H2]. apply N.leb_le in H1, H2. lia.
Qed.

Lemma Forall2_right {A B : Type} (P : A -> B -> Prop) (l : list A) (l' : list B) :
  Forall2 P l l' -> Forall (fun y => exists x, P x y) l'.
Proof. induction 1; constructor; eauto. Qed.

Lemma month_name_In t : (1 <= ts_month t <= 12)%Z -> In (month_name t) month_names.
Proof.
  intros H. unfold month_name. apply nth_In. change (length month_names) with 12. lia.
Qed.

Lemma parsed_dates Nd dv data rows :
  decimal_table Nd -> digit_values Nd dv ->
  preprocess Nd dv data = Some rows ->
  Forall (fun r => valid_timestamp (date r)) rows.
Proof.
  intros Hok Hdv H. apply (rows_of_entries Nd dv data rows Hok) in H.
  apply Forall2_right in H. eapply Forall_impl; [|exact H].
  intros r [m [_ [Hd _]]]. exact (to_datetime_valid Nd dv Hok Hdv _ _ Hd).
Qed.

(** X15: Every row of [preprocess] has a date of the calendar between 1969 and
    2068, an hour from 0 to 23, a minute from 0 to 59, a day from 1 to
    31, and the English name of a month. *)
Theorem parsed_timestamps Nd dv data rows :
  decimal_table Nd -> digit_values Nd dv ->
  preprocess Nd dv data = Some rows ->
  Forall (fun r => valid_timestamp (date r)
                   /\ (1969 <= year r <= 2068)%Z
                   /\ In (month r) month_names
                   /\ (1 <= day r <= 31)%Z
                   /\ (0 <= hour r < 24)%Z
                   /\ (0 <= minute r < 60)%Z) rows.
Proof.
  intros Hok Hdv H.
  pose proof (parsed_dates Nd dv data rows Hok Hdv H) as Hv.
  apply (rows_of_entries Nd dv data rows Hok) in H. apply Forall2_right in H.
  rewrite Forall_forall in *. intros r Hr.
  destruct (H r Hr) as [m (_ & _ & Er)].
  specialize (Hv r Hr). split; [assumption|].
  destruct Hv as (Hy & Hm & Hd & Hh & Hmi).
  assert (Ey : year r = ts_year (date r)) by (rewrite Er; reflexivity).
  assert (Em : month r = month_name (date r)) by (rewrite Er; reflexivity).
  assert (Ed : day r = ts_day (date r)) by (rewrite Er; reflexivity).
  assert (Eh : hour r = ts_hour (date r)) by (rewrite Er; reflexivity).
  assert (Emi : minute r = ts_minute (date r)) by (rewrite Er; reflexivity).
  rewrite Ey, Em, Ed, Eh, Emi. repeat split; try lia.
  - now apply month_name_In.
  - assert (days_in_month (ts_year (date r)) (ts_month (date r)) <= 31)%Z; [|lia].
    unfold days_in_month.
    destruct (ts_month (date r) =? 2)%Z; [destruct (is_leap _); lia|].
    destruct (_ || _); lia.
Qed.

Lemma parsed_timestamps_witness :
  Forall (fun r => valid_timestamp (date r)
                   /\ (1969 <= year r <= 2068)%Z
                   /\ In (month r) month_names
                   /\ (1 <= day r <= 31)%Z
                   /\ (0 <= hour r < 24)%Z
                   /\ (0 <= minute r < 60)%Z)
         [row_of (mkTimestamp 1999 2 28 0 59) (str "Bob") (str "late")].
Proof.
  apply (parsed_timestamps ascii_Nd ascii_digit_value
           (str "28/02/99, 12:59 AM - Bob: late") _ ascii_table_ok ascii_values_ok).
  vm_compute. reflexivity.
Defined.

Lemma scope_In s df r : In r (scope s df) -> In r df.
Proof.
  unfold scope. destruct (text_eqb s OVERALL); [auto|]. intros H. now apply filter_In in H.
Qed.

(** X16: The heat map of a parsed transcript, for any selection of [app.py],
    has only hours of the day as rows, at most 24 of them, and at most 7
    columns. *)
Theorem heatmap_of_parsed Nd dv data rows selected :
  decimal_table Nd -> digit_values Nd dv ->
  preprocess Nd dv data = Some rows ->
  let p := activity_heatmap (scope selected rows) in
  Forall (fun h => (0 <= h < 24)%Z) (index p)
  /\ length (index p) <= 24
  /\ length (columns p) <= 7.
Proof.
  intros Hok Hdv H. cbv zeta. unfold activity_heatmap. cbn [index columns].
  pose proof (parsed_dates Nd dv data rows Hok Hdv H) as Hv. rewrite Forall_forall in Hv.
  set (text_df := filter_media (scope selected rows)).
  assert (Hh : Forall (fun h => (0 <= h < 24)%Z)
                      (sorted_Z (map (fun r => ts_hour (date r)) text_df))).
  { apply Forall_forall. intros h Hin. apply (proj1 (sorted_Z_In _ _)) in Hin.
    apply in_map_iff in Hin as [r [<- Hr]].
    apply filter_media_In, scope_In, Hv in Hr. apply Hr. }
  split; [exact Hh|]. split.
  - pose proof (sorted_range_length _ 0 24 (sorted_Z_sorted _) Hh). lia.
  - exact (proj2 (proj2 (heatmap_columns (scope selected rows)))).
Qed.

Lemma heatmap_of_parsed_witness :
  let p := activity_heatmap
             (scope (str "Bob") [row_of (mkTimestamp 1999 2 28 0 59) (str "Bob") (str "late")]) in
  Forall (fun h => (0 <= h < 24)%Z) (index p)
  /\ length (index p) <= 24
  /\ length (columns p) <= 7.
Proof.
  apply (heatmap_of_parsed ascii_Nd ascii_digit_value
           (str "28/02/99, 12:59 AM - Bob: late") _ (str "Bob")
           ascii_table_ok ascii_values_ok).
  vm_compute. reflexivity.
Defined.

(** *** Lines that are no messages *)

Lemma span_colon_free Nd s rest :
  no_char COLON s = true -> at_colon rest = true ->
  span Nd (CNot COLON) (length (s ++ rest)) (s ++ rest) = length s.
Proof.
  intros Hs Hrest. destruct rest as [|c rest].
  - rewrite app_nil_r. apply span_all; [exact Hs|lia].
  - cbn [at_colon] in Hrest. apply N.eqb_eq in Hrest. subst c.
    rewrite span_app_stop by reflexivity.
    apply span_all; [exact Hs|]. rewrite length_app. lia.
Qed.

(** X17: Where a date and time and a dash stand, the entry pattern matches
    exactly when a sender, a colon, a white space and a text follow.  So
    a line with a date and time that is no message (a notice of the
    application, say, whose first colon is the one of the time of the
    next line) is no match of the pattern: it cannot give a row. *)
Theorem notice_not_matched Nd dt s rest :
  decimal_table Nd ->
  datetime_prefix Nd dt = Some [] ->
  no_char COLON s = true ->
  at_colon rest = true ->
  (match_here Nd pattern (dt ++ str " - " ++ s ++ rest) = None
   <-> no_message s rest = true).
Proof.
  intros Hok Hdt Hs Hrest. rewrite (match_here_pattern Nd Hok). unfold entry_at.
  rewrite (datetime_prefix_ext Nd dt _ Hdt).
  change (steps_run Nd [One CSpace; One (CLit 45); One CSpace] (str " - " ++ s ++ rest))
    with (Some (s ++ rest)).
  cbv beta iota zeta.
  rewrite (span_colon_free Nd s rest Hs Hrest).
  destruct s as [|y s].
  - cbn [length Nat.leb]. split; [intros _|reflexivity]. now destruct rest.
  - cbn [length Nat.leb]. change (S (length s)) with (length (y :: s)).
    rewrite skipn_app, skipn_all, Nat.sub_diag. cbn [app skipn].
    destruct rest as [|c [|x t]]; cbn [steps_run no_message is_nil orb].
    + split; reflexivity.
    + destruct (cmatch Nd (CLit 58) c); split; reflexivity.
    + cbn [at_colon] in Hrest. apply N.eqb_eq in Hrest. subst c.
      change (cmatch Nd (CLit 58) COLON) with true. cbn [cmatch].
      destruct (is_space x); cbn [negb orb]; [|split; reflexivity].
      destruct t; cbn [is_nil]; split; try reflexivity; discriminate.
Qed.

Lemma notice_not_matched_witness :
  match_here ascii_Nd pattern
    (str "1/1/23, 10:00 am" ++ str " - " ++ str "Alice joined
1/1/23, 10" ++ str ":05 am - Bob: hi") = None
  <-> no_message (str "Alice joined
1/1/23, 10") (str ":05 am - Bob: hi") = true.
Proof.
  apply (notice_not_matched ascii_Nd (str "1/1/23, 10:00 am") (str "Alice joined
1/1/23, 10") (str ":05 am - Bob: hi") ascii_table_ok); reflexivity.
Defined.

(** A transcript with a notice between two messages: the notice gives no
    row, and is no part of the message before it. *)
Example notice_in_transcript :
  option_map (map (fun r => (Sender r, Message r)))
    (preprocess ascii_Nd ascii_digit_value
       (str "1/1/23, 9:59 am - Ann: first
1/1/23, 10:00 am - Alice joined
1/1/23, 10:05 am - Bob: hi"))
  = Some [ (str "Ann", str "first"); (str "Bob", str "hi") ].
Proof. vm_compute. reflexivity. Qed.

(** *** The narrow no-break space, the "Text" slice and the words chart *)

Lemma replace_idem l : replace NNBSP SPACE (replace NNBSP SPACE l) = replace NNBSP SPACE l.
Proof.
  unfold replace. rewrite map_map. apply map_ext. intros x.
  destruct (N.eqb_spec x NNBSP); [reflexivity|].
  destruct (N.eqb_spec x NNBSP); [contradiction|reflexivity].
Qed.

(** X18: A transcript written with narrow no-break spaces (U+202F) parses as
    the one written with ordinary spaces in their place, and so do any
    two transcripts that differ only in which of the two they use. *)
Theorem narrow_space_tolerated Nd dv data :
  preprocess Nd dv (replace NNBSP SPACE data) = preprocess Nd dv data
  /\ (forall data', replace NNBSP SPACE data' = replace NNBSP SPACE data ->
                    preprocess Nd dv data' = preprocess Nd dv data).
Proof.
  split.
  - unfold preprocess. now rewrite replace_idem.
  - intros data' E. unfold preprocess. now rewrite E.
Qed.

Lemma trivial_not_media r : is_trivial r = true -> is_media r = false.
Proof.
  unfold is_trivial, is_media. rewrite !orb_true_iff.
  intros [[H|H]|H]; apply text_eqb_eq in H; rewrite H; reflexivity.
Qed.

(** X19: The "Text" count of [message_type_counts] is the number of
    substantive messages plus the number of empty, ["."] and ["?"]
    messages: the pie chart counts as text the messages that every other
    chart leaves out. *)
Theorem text_count_substantive (df : list Row) :
  text_count (message_type_counts df)
  = length (filter_media df) + length (filter is_trivial df).
Proof.
  unfold message_type_counts, text_count. cbn [fst].
  assert (H : length df = length (filter is_media df) + length (filter_media df)
                          + length (filter is_trivial df)).
  { unfold filter_media. induction df as [|r df IH]; [reflexivity|].
    cbn [filter length].
    pose proof (trivial_not_media r) as Ht.
    unfold is_trivial, is_media in *.
    destruct (contains MEDIA (Message r)); cbn [negb andb].
    - destruct (text_eqb (Message r) [] || text_eqb (Message r) (str ".")
                || text_eqb (Message r) (str "?")); [now specialize (Ht eq_refl)|].
      cbn [length]. lia.
    - destruct (text_eqb (Message r) []); cbn [negb andb orb length]; [lia|].
      destruct (text_eqb (Message r) (str ".")); cbn [negb andb orb length]; [lia|].
      destruct (text_eqb (Message r) (str "?")); cbn [negb andb orb length]; lia. }
  lia.
Qed.

(** X20: The words chart of [app.py] shows every row that [top_n_words]
    returned, largest count first: [head(20)] drops none, since there are
    at most 20; and there is no chart (the error comes up) exactly when
    [top_n_words] raises. *)
Theorem top_20_shows_all
        (sort_vec sort_values : forall K : Type, list (K * nat) -> list (K * nat))
        (analyze : text -> list text) (df_sel : list Row) :
  sorts_desc sort_vec -> sorts_desc sort_values ->
  match top_20 sort_vec sort_values analyze df_sel with
  | Some chart =>
      exists topw, top_n_words sort_vec analyze df_sel 20 = Some topw
                   /\ Permutation chart topw /\ descending chart
  | None => top_n_words sort_vec analyze df_sel 20 = None
  end.
Proof.
  intros Hvec Hval. unfold top_20.
  destruct (top_n_words sort_vec analyze df_sel 20) as [topw|] eqn:E; [|reflexivity].
  exists topw. split; [reflexivity|].
  destruct (top_n_words_kept sort_vec analyze df_sel 20 topw Hvec E) as [_ [_ Hlen]].
  destruct (Hval _ topw) as [Hperm Hdesc].
  rewrite firstn_all2 by (rewrite (Permutation_length Hperm); exact Hlen).
  split; assumption.
Qed.

Lemma top_20_shows_all_witness :
  match top_20 stable_sort_desc stable_sort_desc split_ws three_rows with
  | Some chart =>
      exists topw, top_n_words stable_sort_desc split_ws three_rows 20 = Some topw
                   /\ Permutation chart topw /\ descending chart
  | None => top_n_words stable_sort_desc split_ws three_rows 20 = None
  end.
Proof.
  exact (top_20_shows_all stable_sort_desc stable_sort_desc split_ws three_rows
           stable_sort_sorts stable_sort_sorts).
Defined.

(** *** What the date format reads *)

(** X21: What [pd.to_datetime] accepts and what it makes of it: the text is a
    day, a month and a year of exactly two digits between slashes, a
    comma, white space, an hour of the 12-hour clock, a colon, a minute,
    white space and the marker; the day comes first; the years 69 to 99
    are 1969 to 1999 and 0 to 68 are 2000 to 2068; 12 am is hour 0 and
    12 pm is hour 12; and the month has the day. *)
Theorem date_time_read Nd dv val t :
  decimal_table Nd -> digit_values Nd dv ->
  to_datetime Nd dv val = Some t ->
  exists td tm ty sp1 tI tM sp2 tp,
    val = td ++ str "/" ++ tm ++ str "/" ++ ty ++ str "," ++ sp1
          ++ tI ++ str ":" ++ tM ++ sp2 ++ tp
    /\ field Nd dv 1 31 td
    /\ field Nd dv 1 12 tm
    /\ field Nd dv 0 99 ty /\ length ty = 2
    /\ blank sp1 = true
    /\ field Nd dv 1 12 tI
    /\ field Nd dv 0 59 tM
    /\ blank sp2 = true
    /\ is_marker tp = true
    /\ t = mkTimestamp (year_of (int_of dv ty)) (int_of dv tm) (int_of dv td)
                       (hour_24 (int_of dv tI) tp) (int_of dv tM)
    /\ (int_of dv td <= days_in_month (year_of (int_of dv ty)) (int_of dv tm))%Z.
Proof.
  intros Hok Hdv H.
  apply (to_datetime_match Nd dv) in H as [found [Hin Ht]].
  apply (format_fields Nd dv Hok Hdv) in Hin
    as (td & tm & ty & sp1 & tI & tM & sp2 & tp & Ef & Ev & Bd & Bm & By & Ly & B1 & BI
        & BM & B2 & Bp).
  cbn [fst snd] in Ef, Ev. subst found. rewrite app_nil_r in Ev.
  destruct (timestamp_of_fields Nd dv td tm ty tI tM tp t BI Bp Ht) as [Et Hd].
  exists td, tm, ty, sp1, tI, tM, sp2, tp.
  exact (conj Ev (conj Bd (conj Bm (conj By (conj Ly (conj B1 (conj BI (conj BM (conj B2
           (conj Bp (conj Et Hd))))))))))).
Qed.

Lemma date_time_read_witness :
  exists td tm ty sp1 tI tM sp2 tp,
    str "28/02/99, 12:59 AM"
    = td ++ str "/" ++ tm ++ str "/" ++ ty ++ str "," ++ sp1
      ++ tI ++ str ":" ++ tM ++ sp2 ++ tp
    /\ field ascii_Nd ascii_digit_value 1 31 td
    /\ field ascii_Nd ascii_digit_value 1 12 tm
    /\ field ascii_Nd ascii_digit_value 0 99 ty /\ length ty = 2
    /\ blank sp1 = true
    /\ field ascii_Nd ascii_digit_value 1 12 tI
    /\ field ascii_Nd ascii_digit_value 0 59 tM
    /\ blank sp2 = true
    /\ is_marker tp = true
    /\ mkTimestamp 1999 2 28 0 59
       = mkTimestamp (year_of (int_of ascii_digit_value ty)) (int_of ascii_digit_value tm)
                     (int_of ascii_digit_value td)
                     (hour_24 (int_of ascii_digit_value tI) tp)
                     (int_of ascii_digit_value tM)
    /\ (int_of ascii_digit_value td
        <= days_in_month (year_of (int_of ascii_digit_value ty))
                         (int_of ascii_digit_value tm))%Z.
Proof.
  apply (date_time_read ascii_Nd ascii_digit_value (str "28/02/99, 12:59 AM")
           (mkTimestamp 1999 2 28 0 59) ascii_table_ok ascii_values_ok).
  vm_compute. reflexivity.
Defined.

Lemma split_at_char c a : forall a' r r',
  no_char c a = true -> no_char c a' = true ->
  a ++ c :: r = a' ++ c :: r' -> a = a' /\ r = r'.
Proof.
  unfold no_char. induction a as [|x a IH]; intros [|x' a'] r r' Ha Ha' E;
    cbn [app forallb] in *.
  - injection E as <-. now split.
  - injection E as <- _. apply andb_true_iff in Ha' as [Hx _].
    rewrite N.eqb_refl in Hx. discriminate.
  - injection E as -> _. apply andb_true_iff in Ha as [Hx _].
    rewrite N.eqb_refl in Hx. discriminate.
  - injection E as <- E. apply andb_true_iff in Ha as [_ Ha].
    apply andb_true_iff in Ha' as [_ Ha'].
    destruct (IH a' r r' Ha Ha' E) as [-> ->]. now split.
Qed.

Lemma Forall2_In_left {A B : Type} (P : A -> B -> Prop) (l : list A) (l' : list B) x :
  Forall2 P l l' -> In x l -> exists y, P x y.
Proof.
  induction 1 as [|a b l l' Hab _ IH]; [contradiction|].
  intros [<-|Hin]; [eauto|auto].
Qed.

(** X22: A transcript with an entry whose year is not written with exactly
    two digits makes [preprocess] raise: the entry pattern takes a year
    of two to four digits, the date format one of two. *)
Theorem long_year_raises Nd dv data m a b y rest :
  decimal_table Nd -> digit_values Nd dv ->
  In m (findall Nd pattern (replace NNBSP SPACE data)) ->
  group 1 m = a ++ str "/" ++ b ++ str "/" ++ y ++ str "," ++ rest ->
  no_char 47%N a = true -> no_char 47%N b = true -> no_char 44%N y = true ->
  length y <> 2 ->
  preprocess Nd dv data = None.
Proof.
  intros Hok Hdv Hm Eg Ha Hb Hy Hlen.
  destruct (preprocess Nd dv data) as [rows|] eqn:E; [|reflexivity]. exfalso.
  apply (rows_of_entries Nd dv data rows Hok) in E.
  destruct (Forall2_In_left _ _ _ m E Hm) as [r [_ [Hd _]]].
  apply (to_datetime_match Nd dv) in Hd as [found [Hin _]].
  apply (format_fields Nd dv Hok Hdv) in Hin
    as (td & tm & ty & sp1 & tI & tM & sp2 & tp & _ & Ev & Bd & Bm & By & Ly & _).
  cbn [snd] in Ev.
  rewrite Eg in Ev. change (str "/") with [47%N] in Ev. change (str ",") with [44%N] in Ev.
  cbn [app] in Ev.
  apply split_at_char in Ev as [_ Ev];
    [|assumption|apply (field_no_char Nd dv Hok 47%N td 1%Z 31%Z); [reflexivity..|assumption]].
  apply split_at_char in Ev as [_ Ev];
    [|assumption|apply (field_no_char Nd dv Hok 47%N tm 1%Z 12%Z); [reflexivity..|assumption]].
  apply split_at_char in Ev as [Ey _];
    [|assumption|apply (field_no_char Nd dv Hok 44%N ty 0%Z 99%Z); [reflexivity..|assumption]].
  subst y. contradiction.
Qed.

Lemma long_year_raises_witness :
  preprocess ascii_Nd ascii_digit_value (str "1/1/2023, 10:05 am - Bob: Hi") = None.
Proof.
  apply (long_year_raises ascii_Nd ascii_digit_value
           (str "1/1/2023, 10:05 am - Bob: Hi")
           [(3, str "Hi"); (2, str "Bob"); (1, str "1/1/2023, 10:05 am")]
           (str "1") (str "1") (str "2023") (str " 10:05 am")
           ascii_table_ok ascii_values_ok).
  - vm_compute. left. reflexivity.
  - reflexivity.
  - reflexivity.
  - reflexivity.
  - reflexivity.
  - vm_compute. lia.
Defined.

(** *** The text of a message *)








(** *** Weeks and days *)

(** X24: [sentiment_time_series] has one row for every seven rows of
    [daily_volume], and one more for what is left of them: both run from
    the day of the earliest substantive message to the day of the
    latest. *)
Theorem sentiment_rows_per_week (score : Type) (polarity : text -> score)
        (mean : list score -> score) (df : list Row) :
  length (sentiment_time_series score polarity mean df)
  = match length (daily_volume df) with
    | 0 => 0
    | S k => S (k / 7)
    end.
Proof.
  unfold sentiment_time_series, daily_volume. rewrite !length_map.
  destruct (filter_media df) as [|r0 rest]; [reflexivity|].
  rewrite !resample_cons. cbv zeta. rewrite !length_map, !length_seq.
  set (units := map (fun r => ts_days (date r)) (r0 :: rest)).
  pose proof (min_list_le units (ts_days (date r0))) as [Hmin _].
  pose proof (max_list_ge units (ts_days (date r0))) as [Hmax _].
  rewrite Z.div_1_r. f_equal.
  rewrite Z2Nat.inj_div by lia. reflexivity.
Qed.

(** *** Words *)

Lemma split_ws_aux_cur cur l : cur <> [] -> split_ws_aux cur l <> [].
Proof.
  revert cur. induction l as [|x l IH]; intros cur Hc; cbn [split_ws_aux].
  - destruct cur; [contradiction|discriminate].
  - destruct (is_space x); [destruct cur; [contradiction|discriminate]|].
    apply IH. discriminate.
Qed.

(** A text that starts with something else than white space has a word. *)
Lemma split_ws_word x l : is_space x = false -> 1 <= length (split_ws (x :: l)).
Proof.
  intros Hx. unfold split_ws. cbn [split_ws_aux]. rewrite Hx.
  pose proof (split_ws_aux_cur [x] l ltac:(discriminate)) as H.
  destruct (split_ws_aux [x] l); [contradiction|cbn [length]; lia].
Qed.

Lemma list_sum_at_least {A : Type} (f : A -> nat) (l : list A) :
  (forall x, In x l -> 1 <= f x) -> length l <= list_sum (map f l).
Proof.
  induction l as [|x l IH]; intros H; [cbn; lia|].
  cbn [map length]. rewrite list_sum_cons.
  pose proof (H x (or_introl eq_refl)). specialize (IH (fun y Hy => H y (or_intror Hy))).
  lia.
Qed.

(** X25: In a parsed transcript every substantive message has a word: for any
    selection, the word total of [fetch_stats] is at least the number of
    substantive messages of the selection. *)
Theorem words_at_least_messages Nd dv data rows
        (find_urls : text -> list text) (is_emoji : char -> bool) (selected_user : text) :
  decimal_table Nd ->
  preprocess Nd dv data = Some rows ->
  length (filter_media (scope selected_user rows))
  <= total_words (fetch_stats find_urls is_emoji selected_user rows).
Proof.
  intros Hok H. apply (rows_of_entries Nd dv data rows Hok) in H.
  apply Forall2_right in H. rewrite Forall_forall in H.
  unfold fetch_stats, total_words. cbn [fst snd].
  apply list_sum_at_least. intros r Hr.
  pose proof Hr as Hsub. unfold filter_media in Hsub. apply filter_In in Hsub as [_ Hsub].
  apply filter_media_In, scope_In in Hr.
  destruct (H r Hr) as [m (_ & _ & Er)].
  assert (Em : Message r = strip (group 3 m)) by (rewrite Er; reflexivity).
  pose proof (strip_ends (group 3 m)) as [Hhead _]. rewrite <- Em in Hhead.
  destruct (Message r) as [|x t] eqn:Emsg.
  - rewrite !andb_true_iff in Hsub. destruct Hsub as [[_ Hne] _]. discriminate.
  - now apply split_ws_word.
Qed.

Lemma words_at_least_messages_witness :
  length (filter_media
            (scope (str "Alice")
               [row_of (mkTimestamp 2023 1 1 10 0) (str "Alice") (str "Hello
there");
                row_of (mkTimestamp 2023 1 1 10 5) (str "Bob") (str "hi")]))
  <= total_words
       (fetch_stats (fun _ => []) (fun _ => false) (str "Alice")
          [row_of (mkTimestamp 2023 1 1 10 0) (str "Alice") (str "Hello
there");
           row_of (mkTimestamp 2023 1 1 10 5) (str "Bob") (str "hi")]).
Proof.
  apply (words_at_least_messages ascii_Nd ascii_digit_value
           (str "1/1/23, 10:00 am - Alice: Hello
there
1/1/23, 10:05 am - Bob: hi") _ (fun _ => []) (fun _ => false) (str "Alice")
           ascii_table_ok).
  vm_compute. reflexivity.
Defined.
